(** * fv-alfred: the Linear issue command line, its matcher, resolver,
      default applier and preference store

    A shallow embedding of [src/create-linear-issue-logic.js] (and of the
    call of [writePrefs] in [src/create-linear-issue-mutation.js]), with the
    properties of the specification proved, or refuted, on it.

    Conventions of the embedding.
    - A JavaScript string is a [string]: its characters are the UTF-16 code
      units of the JavaScript string, here the code units below 256
      (Basic Latin and Latin-1), so that [String.length] is [.length].
    - A JavaScript number is a [Z]; the few places where [Infinity] or [NaN]
      can arise use [num].
    - A field that can be [null] or [undefined] is an [option]; [None] stands
      for both, which no code modelled here tells apart.
    - Truthiness is [truthy]: the empty string and the number 0 are falsy.
    - The host's collation, [String.prototype.localeCompare], and the JSON
      codec are parameters of the development. *)

From Stdlib Require Import String Ascii List ZArith Lia Bool Arith OrderedTypeEx.
From Stdlib Require Import Permutation Sorted.
From Stdlib Require DecimalString.
Import ListNotations.

Set Implicit Arguments.
Local Open Scope Z_scope.

(* ================================================================== *)
(** ** JavaScript values                                               *)
(* ================================================================== *)

(** Truthiness of a primitive, as [Boolean(x)], [!x] and [x || y] see it. *)
Class Truthy (A : Type) := truthy : A -> bool.

#[global] Instance truthy_string : Truthy string :=
  fun s => match s with EmptyString => false | String _ _ => true end.
#[global] Instance truthy_Z : Truthy Z := fun n => negb (Z.eqb n 0).
#[global] Instance truthy_bool : Truthy bool := fun b => b.
#[global] Instance truthy_list {A} : Truthy (list A) := fun _ => true.
#[global] Instance truthy_option {A} `{Truthy A} : Truthy (option A) :=
  fun o => match o with Some a => truthy a | None => false end.

(** [x || null]. *)
Definition or_null {A} `{Truthy A} (x : option A) : option A :=
  if truthy x then x else None.

(** [x || d] where [d] is a proper value. *)
Definition or_else {A} `{Truthy A} (x : option A) (d : A) : A :=
  match x with
  | Some a => if truthy a then a else d
  | None => d
  end.

(** [x == null]: [null] or [undefined]. *)
Definition is_nullish {A} (x : option A) : bool :=
  match x with None => true | Some _ => false end.

(** A number as [Math.min] and subtraction can produce it. *)
Inductive num : Type :=
| Fin (z : Z)
| PInf
| NInf
| NaN.

Definition num_sub (a b : num) : num :=
  match a, b with
  | Fin x, Fin y => Fin (x - y)
  | NaN, _ | _, NaN => NaN
  | PInf, PInf | NInf, NInf => NaN
  | PInf, _ | _, NInf => PInf
  | NInf, _ | _, PInf => NInf
  end.

(** [x !== 0] on numbers ([NaN !== 0] holds). *)
Definition num_nonzero (a : num) : bool :=
  match a with Fin z => negb (Z.eqb z 0) | _ => true end.

(** [Math.min(...xs)]; [Infinity] on no argument. *)
Fixpoint Math_min (xs : list Z) : num :=
  match xs with
  | [] => PInf
  | x :: r => match Math_min r with
              | Fin m => Fin (Z.min x m)
              | _ => Fin x
              end
  end.

(** What [Array.prototype.sort] makes of a comparator's result [v]: the
    first argument goes after the second only when [v > 0] ([NaN] counts
    as [0]). *)
Definition num_pos (v : num) : bool :=
  match v with
  | Fin z => 0 <? z
  | PInf => true
  | NInf | NaN => false
  end.

(* ================================================================== *)
(** ** Strings                                                         *)
(* ================================================================== *)

Module JS.

Definition code (c : ascii) : nat := nat_of_ascii c.

(** The class [\s], which is also what [trim] removes: tab, line feed,
    vertical tab, form feed, carriage return, space, no-break space. *)
Definition isSpace (c : ascii) : bool :=
    let n := code c in
    ((9 <=? n) && (n <=? 13) || (n =? 32) || (n =? 160))%nat.

(** [toLowerCase] on one code unit: A-Z, and the Latin-1 capitals
    U+00C0..U+00DE but the multiplication sign U+00D7. *)
Definition lowerChar (c : ascii) : ascii :=
    let n := code c in
    if ((65 <=? n) && (n <=? 90)
        || (192 <=? n) && (n <=? 222) && negb (n =? 215))%nat
    then ascii_of_nat (n + 32) else c.

(** [s.toLowerCase()] on the strings of this development, whose code
    units are below 256: there it goes code unit by code unit. Beyond
    Latin-1 it depends on the context (the final sigma) and can lengthen
    the string; such strings are outside the model. *)
Fixpoint toLowerCase (s : string) : string :=
    match s with
    | EmptyString => EmptyString
    | String c r => String (lowerChar c) (toLowerCase r)
    end.

(** [s.replace(/[class]/g, empty)]: every character of the class goes. *)
Fixpoint removeAll (cls : ascii -> bool) (s : string) : string :=
    match s with
    | EmptyString => EmptyString
    | String c r => if cls c then removeAll cls r else String c (removeAll cls r)
    end.

(** [s.startsWith(p)]. *)
Definition startsWith (s p : string) : bool := String.prefix p s.

(** [s.substring(1)]. *)
Definition substring1 (s : string) : string :=
    match s with
    | EmptyString => EmptyString
    | String _ r => r
    end.

(** [s.length]. *)
Definition length (s : string) : Z := Z.of_nat (String.length s).

(** Leading white space removed. *)
Fixpoint trimStart (s : string) : string :=
    match s with
    | EmptyString => EmptyString
    | String c r => if isSpace c then trimStart r else s
    end.

(** Trailing white space removed. *)
Fixpoint trimEnd (s : string) : string :=
    match s with
    | EmptyString => EmptyString
    | String c r =>
        match trimEnd r with
        | EmptyString => if isSpace c then EmptyString else String c EmptyString
        | r' => String c r'
        end
    end.

(** [s.trim()]. *)
Definition trim (s : string) : string := trimEnd (trimStart s).

(** [s.split(sep)] for a one-character separator. *)
Fixpoint splitChar (sep : ascii) (cur : string) (s : string) : list string :=
    match s with
    | EmptyString => [cur]
    | String c r =>
        if Ascii.eqb c sep then cur :: splitChar sep EmptyString r
        else splitChar sep (String.append cur (String c EmptyString)) r
    end.

Definition split (sep : ascii) (s : string) : list string :=
    splitChar sep EmptyString s.

(** [s.split(/\s+/)]: [cur] is the piece being read, [insep] tells that the
    last character read belongs to a separator. *)
Fixpoint splitSpacesFrom (insep : bool) (cur : string) (s : string)
    : list string :=
    match s with
    | EmptyString => [cur]
    | String c r =>
        if isSpace c then
          if insep then splitSpacesFrom true cur r
          else cur :: splitSpacesFrom true EmptyString r
        else splitSpacesFrom false (String.append cur (String c EmptyString)) r
    end.

Definition splitSpaces (s : string) : list string :=
    splitSpacesFrom false EmptyString s.

(** [xs.join(sep)]. *)
Definition join (sep : string) (xs : list string) : string :=
    String.concat sep xs.

End JS.

(** The host's collation. [localeCompare a b] is negative, zero or positive;
    being a collation it is a total preorder, which is all that is used. *)
Class Collator := {
  localeCompare : string -> string -> Z;
  localeCompare_total : forall a b, 0 < localeCompare a b -> localeCompare b a <= 0;
  localeCompare_trans : forall a b c,
      localeCompare a b <= 0 -> localeCompare b c <= 0 -> localeCompare a c <= 0
}.

(** [xs.sort(cmp)]: the sort is stable, and [cmp a b > 0] alone moves [a]
    behind [b]. For a comparator that is a consistent order on the elements
    this determines the result. Where the comparator answers [NaN] for
    some pair (a date that does not parse) the order is left to the engine,
    and no property below rests on it: where the order matters the
    comparator is shown to be consistent, or the dates are assumed valid. *)
Section Sort.
Context {A : Type} (cmp : A -> A -> num).

Fixpoint sort_insert (x : A) (l : list A) : list A :=
    match l with
    | [] => [x]
    | y :: r => if num_pos (cmp x y) then y :: sort_insert x r else x :: l
    end.

Fixpoint sort (l : list A) : list A :=
    match l with
    | [] => []
    | x :: r => sort_insert x (sort r)
    end.
End Sort.

(* ================================================================== *)
(** ** Normalizer and Matcher                                          *)
(* ================================================================== *)

(** The fixed priority table. *)
Record priority := { p_label : string; p_id : Z }.

Definition priorities : list priority :=
  [ {| p_label := "No priority"; p_id := 0 |};
    {| p_label := "urgent"; p_id := 1 |};
    {| p_label := "p0"; p_id := 1 |};
    {| p_label := "1"; p_id := 1 |};
    {| p_label := "u"; p_id := 1 |};
    {| p_label := "high"; p_id := 2 |};
    {| p_label := "p1"; p_id := 2 |};
    {| p_label := "2"; p_id := 2 |};
    {| p_label := "h"; p_id := 2 |};
    {| p_label := "medium"; p_id := 3 |};
    {| p_label := "p2"; p_id := 3 |};
    {| p_label := "3"; p_id := 3 |};
    {| p_label := "m"; p_id := 3 |};
    {| p_label := "low"; p_id := 4 |};
    {| p_label := "p3"; p_id := 4 |};
    {| p_label := "4"; p_id := 4 |};
    {| p_label := "l"; p_id := 4 |} ].

Definition isSeparator (c : ascii) : bool :=
  JS.isSpace c || Ascii.eqb c "_"%char || Ascii.eqb c "-"%char.

Definition sanitise (x : string) : string :=
  JS.toLowerCase (JS.removeAll isSeparator x).

Definition fuzzyMatch (str substr : string) : bool :=
  JS.startsWith (sanitise str) (sanitise substr).

(** [xs.filter(Boolean)] on an array of strings, some of them [null] or
    [undefined]. *)
Fixpoint filterBoolean (xs : list (option string)) : list string :=
  match xs with
  | [] => []
  | Some s :: r => if truthy s then s :: filterBoolean r else filterBoolean r
  | None :: r => filterBoolean r
  end.

Record match_info := {
  original : string;
  sanitized : string;
  isExact : bool;
  isFuzzy : bool
}.

Record candidate (A : Type) := {
  item : A;
  matches : list match_info;
  hasExactMatch : bool;
  shortestMatchLength : num
}.

Section Matcher.
Context {C : Collator} {A : Type}.
Variable getMatchableStrings : A -> list (option string).

Definition matchesOf (searchTerm : string) (x : A) : list match_info :=
    map (fun str => {| original := str;
                       sanitized := sanitise str;
                       isExact := String.eqb (sanitise str) (sanitise searchTerm);
                       isFuzzy := fuzzyMatch str searchTerm |})
        (filterBoolean (getMatchableStrings x)).

Definition qualifying (m : match_info) : bool := isExact m || isFuzzy m.

Definition candidateOf (searchTerm : string) (x : A) : candidate A :=
    let ms := matchesOf searchTerm x in
    {| item := x;
       matches := filter qualifying ms;
       hasExactMatch := existsb isExact ms;
       shortestMatchLength :=
         Math_min (map (fun m => JS.length (original m)) (filter qualifying ms)) |}.

(** [getMatchableStrings(x)[0] || '']. *)
Definition primaryName (x : A) : string :=
    match getMatchableStrings x with
    | o :: _ => or_else o EmptyString
    | [] => EmptyString
    end.

(** The comparator handed to [sort]. *)
Definition compareCandidates (a b : candidate A) : num :=
    if hasExactMatch a && negb (hasExactMatch b) then Fin (-1)
    else if negb (hasExactMatch a) && hasExactMatch b then Fin 1
    else
      let lengthDiff := num_sub (shortestMatchLength a) (shortestMatchLength b) in
      if num_nonzero lengthDiff then lengthDiff
      else Fin (localeCompare (primaryName (item a)) (primaryName (item b))).

Definition findBestMatch (word : string) (collection : list A) : option A :=
    if negb (truthy word) then None
    else
      let searchTerm := JS.substring1 word in
      let candidatesWithMatches :=
        filter (fun c => 0 <? Z.of_nat (List.length (matches c)))
               (map (candidateOf searchTerm) collection) in
      match candidatesWithMatches with
      | [] => None
      | _ => match sort compareCandidates candidatesWithMatches with
             | best :: _ => Some (item best)
             | [] => None
             end
      end.
End Matcher.

(* ================================================================== *)
(** ** Entities and metadata                                           *)
(* ================================================================== *)

Record member := { m_id : string; m_isMe : bool }.

(** [t_createdAt] is the time value of [new Date(team.createdAt)]:
    milliseconds, or [NaN] when the date does not parse.
    [t_members] is [team.members.nodes]. *)
Record team := {
  t_id : string;
  t_name : option string;
  t_key : option string;
  t_createdAt : num;
  t_members : list member
}.

(** [pr_teams] is [project.teams?.nodes], the identifiers of the owning
    teams; [None] when [teams] or [nodes] is absent. *)
Record project := {
  pr_id : string;
  pr_name : option string;
  pr_teams : option (list string)
}.

Record user := {
  u_id : string;
  u_name : option string;
  u_displayName : option string;
  u_email : option string;
  u_isMe : bool
}.

(** The metadata object, which is also the content of the preference file:
    the entity lists ([prioritiesList] is its member [priorities], a copy of
    the fixed table), the error of a failed fetch, and for each field the
    last explicit choice and its timestamp. *)
Record prefs := {
  teams : option (list team);
  projects : option (list project);
  users : option (list user);
  prioritiesList : option (list priority);
  error : option string;
  teamsChoice : option string;
  projectsChoice : option string;
  usersChoice : option string;
  prioritiesChoice : option Z;
  teamsChoiceTimestamp : option Z;
  projectsChoiceTimestamp : option Z;
  usersChoiceTimestamp : option Z;
  prioritiesChoiceTimestamp : option Z
}.

(** The object [{}]. *)
Definition emptyPrefs : prefs :=
  {| teams := None; projects := None; users := None; prioritiesList := None;
     error := None;
     teamsChoice := None; projectsChoice := None; usersChoice := None;
     prioritiesChoice := None;
     teamsChoiceTimestamp := None; projectsChoiceTimestamp := None;
     usersChoiceTimestamp := None; prioritiesChoiceTimestamp := None |}.

#[global] Instance truthy_prefs : Truthy prefs := fun _ => true.

(** [a || b] on two values that may be absent. *)
Definition js_or {A} `{Truthy A} (a b : option A) : option A :=
  if truthy a then a else b.

(** The matchable strings of each kind, as [processParameters] passes them. *)
Definition teamStrings (t : team) : list (option string) := [t_name t; t_key t].
Definition projectStrings (p : project) : list (option string) := [pr_name p].

(** [user.email?.split("@")[0]]. *)
Definition emailLocalPart (u : user) : option string :=
  match u_email u with
  | Some e => hd_error (JS.split "@"%char e)
  | None => None
  end.

Definition userStrings (u : user) : list (option string) :=
  [u_name u; u_displayName u; emailLocalPart u].
Definition priorityStrings (p : priority) : list (option string) := [Some (p_label p)].

(* ================================================================== *)
(** ** Input Parser                                                    *)
(* ================================================================== *)

(** [input.replace(/^\s*ln\s*/, empty)]: the match is tried at the start only;
    after the leading white space the letters [ln] must follow, or nothing
    is replaced. *)
Definition stripCommand (input : string) : string :=
  match JS.trimStart input with
  | String "l"%char (String "n"%char rest) => JS.trimStart rest
  | _ => input
  end.

Definition isParamWord (word : string) : bool :=
  JS.startsWith word "-" && (1 <? JS.length word).

Definition isTitleWord (word : string) : bool :=
  negb (JS.startsWith word "-") || (JS.length word =? 1).

Record parsed := { paramWords : list string; titleWords : list string }.

Definition parseInput (input : string) : parsed :=
  let inputWords := JS.split " "%char (stripCommand input) in
  {| paramWords := filter isParamWord inputWords;
     titleWords := filter isTitleWord inputWords |}.

(* ================================================================== *)
(** ** Parameter Resolver                                              *)
(* ================================================================== *)

Record params := {
  teamId : option string;
  projectId : option string;
  assigneeId : option string;
  priorityId : option Z;
  teamName : option string;
  projectName : option string;
  assigneeName : option string;
  priorityLabel : option string;
  unmatched : list string
}.

Inductive kind := Priorities | Users | Teams | Projects.

Definition processingOrder : list kind := [Priorities; Users; Teams; Projects].

(** [xs.splice(i, 1)]. *)
Definition splice1 {A} (i : nat) (xs : list A) : list A :=
  firstn i xs ++ skipn (S i) xs.

(** [project.teams?.nodes?.some((team) => team.id === teamId)]; an absent
    list gives [undefined], which is falsy. *)
Definition ownedBy (teamId : string) (p : project) : bool :=
  match pr_teams p with
  | Some nodes => existsb (String.eqb teamId) nodes
  | None => false
  end.

Section Resolver.
Context {C : Collator}.

Definition setTeam (t : team) (r : params) : params :=
    {| teamId := Some (t_id t); projectId := projectId r;
       assigneeId := assigneeId r; priorityId := priorityId r;
       teamName := t_name t; projectName := projectName r;
       assigneeName := assigneeName r; priorityLabel := priorityLabel r;
       unmatched := unmatched r |}.

Definition setProject (p : project) (r : params) : params :=
    {| teamId := teamId r; projectId := Some (pr_id p);
       assigneeId := assigneeId r; priorityId := priorityId r;
       teamName := teamName r; projectName := pr_name p;
       assigneeName := assigneeName r; priorityLabel := priorityLabel r;
       unmatched := unmatched r |}.

Definition setUser (u : user) (r : params) : params :=
    {| teamId := teamId r; projectId := projectId r;
       assigneeId := Some (u_id u); priorityId := priorityId r;
       teamName := teamName r; projectName := projectName r;
       assigneeName := js_or (u_displayName u) (u_name u);
       priorityLabel := priorityLabel r;
       unmatched := unmatched r |}.

Definition setPriority (p : priority) (r : params) : params :=
    {| teamId := teamId r; projectId := projectId r;
       assigneeId := assigneeId r; priorityId := Some (p_id p);
       teamName := teamName r; projectName := projectName r;
       assigneeName := assigneeName r; priorityLabel := Some (p_label p);
       unmatched := unmatched r |}.

Definition setUnmatched (ws : list string) (r : params) : params :=
    {| teamId := teamId r; projectId := projectId r;
       assigneeId := assigneeId r; priorityId := priorityId r;
       teamName := teamName r; projectName := projectName r;
       assigneeName := assigneeName r; priorityLabel := priorityLabel r;
       unmatched := ws |}.

(** The projects a word may name: all of them, or those of the team
    already resolved. *)
Definition filteredProjects (metadata : prefs) (r : params) : list project :=
    filter (fun p => match teamId r with
                     | None => true
                     | Some tid => ownedBy tid p
                     end)
           (or_else (projects metadata) []).

(** The body of the inner loop for one word: the match, applied by the
    setter of the kind. *)
Definition matchWord (key : kind) (metadata : prefs) (r : params)
             (word : string) : option params :=
    match key with
    | Projects =>
        option_map (fun p => setProject p r)
                   (findBestMatch projectStrings word (filteredProjects metadata r))
    | Teams =>
        option_map (fun t => setTeam t r)
                   (findBestMatch teamStrings word (or_else (teams metadata) []))
    | Users =>
        option_map (fun u => setUser u r)
                   (findBestMatch userStrings word (or_else (users metadata) []))
    | Priorities =>
        option_map (fun p => setPriority p r)
                   (findBestMatch priorityStrings word priorities)
    end.

(** [for (let i = n - 1; i >= 0; i--)] over [results.unmatched], left at
    the first match, which removes the word. *)
Fixpoint scanWords (key : kind) (metadata : prefs) (r : params) (n : nat)
    : params :=
    match n with
    | O => r
    | S i =>
        match nth_error (unmatched r) i with
        | Some word =>
            match matchWord key metadata r word with
            | Some r' => setUnmatched (splice1 i (unmatched r)) r'
            | None => scanWords key metadata r i
            end
        | None => scanWords key metadata r i
        end
    end.

Definition processKind (metadata : prefs) (r : params) (key : kind) : params :=
    scanWords key metadata r (List.length (unmatched r)).

Definition initialResults (paramWords : list string) : params :=
    {| teamId := None; projectId := None; assigneeId := None; priorityId := None;
       teamName := None; projectName := None; assigneeName := None;
       priorityLabel := None; unmatched := paramWords |}.

Definition processParameters (paramWords : list string) (metadata : prefs)
    : params :=
    fold_left (processKind metadata) processingOrder (initialResults paramWords).
End Resolver.

(* ================================================================== *)
(** ** Default Applier                                                 *)
(* ================================================================== *)

Definition set_teamId (v : option string) (r : params) : params :=
  {| teamId := v; projectId := projectId r;
     assigneeId := assigneeId r; priorityId := priorityId r;
     teamName := teamName r; projectName := projectName r;
     assigneeName := assigneeName r; priorityLabel := priorityLabel r;
     unmatched := unmatched r |}.

Definition set_projectId (v : option string) (r : params) : params :=
  {| teamId := teamId r; projectId := v;
     assigneeId := assigneeId r; priorityId := priorityId r;
     teamName := teamName r; projectName := projectName r;
     assigneeName := assigneeName r; priorityLabel := priorityLabel r;
     unmatched := unmatched r |}.

Definition set_assigneeId (v : option string) (r : params) : params :=
  {| teamId := teamId r; projectId := projectId r;
     assigneeId := v; priorityId := priorityId r;
     teamName := teamName r; projectName := projectName r;
     assigneeName := assigneeName r; priorityLabel := priorityLabel r;
     unmatched := unmatched r |}.

Definition set_priorityId (v : option Z) (r : params) : params :=
  {| teamId := teamId r; projectId := projectId r;
     assigneeId := assigneeId r; priorityId := v;
     teamName := teamName r; projectName := projectName r;
     assigneeName := assigneeName r; priorityLabel := priorityLabel r;
     unmatched := unmatched r |}.

Definition set_teamName (v : option string) (r : params) : params :=
  {| teamId := teamId r; projectId := projectId r;
     assigneeId := assigneeId r; priorityId := priorityId r;
     teamName := v; projectName := projectName r;
     assigneeName := assigneeName r; priorityLabel := priorityLabel r;
     unmatched := unmatched r |}.

Definition set_projectName (v : option string) (r : params) : params :=
  {| teamId := teamId r; projectId := projectId r;
     assigneeId := assigneeId r; priorityId := priorityId r;
     teamName := teamName r; projectName := v;
     assigneeName := assigneeName r; priorityLabel := priorityLabel r;
     unmatched := unmatched r |}.

Definition set_assigneeName (v : option string) (r : params) : params :=
  {| teamId := teamId r; projectId := projectId r;
     assigneeId := assigneeId r; priorityId := priorityId r;
     teamName := teamName r; projectName := projectName r;
     assigneeName := v; priorityLabel := priorityLabel r;
     unmatched := unmatched r |}.

Definition set_priorityLabel (v : option string) (r : params) : params :=
  {| teamId := teamId r; projectId := projectId r;
     assigneeId := assigneeId r; priorityId := priorityId r;
     teamName := teamName r; projectName := projectName r;
     assigneeName := assigneeName r; priorityLabel := v;
     unmatched := unmatched r |}.

(** [x === id] for a field [x] that may be absent. *)
Definition id_is (x : option string) (id : string) : bool :=
  match x with Some s => String.eqb id s | None => false end.

(** The user's oldest team:
    [metadata.teams?.filter(isMine).sort(byCreation)[0]?.id]. *)
Definition defaultTeamID (metadata : prefs) : option string :=
  match teams metadata with
  | Some ts =>
      option_map t_id
        (hd_error
           (sort (fun a b => num_sub (t_createdAt a) (t_createdAt b))
                 (filter (fun t => existsb m_isMe (t_members t)) ts)))
  | None => None
  end.

(** [metadata.projects?.find((p) => p.id === results.projectId)]. *)
Definition findProject (metadata : prefs) (r : params) : option project :=
  match projects metadata with
  | Some ps => find (fun p => id_is (projectId r) (pr_id p)) ps
  | None => None
  end.

(** The team and project fallbacks. *)
Definition applyTeamProjectFallbacks (metadata : prefs) (r : params) : params :=
  if is_nullish (teamId r) && is_nullish (projectId r) then
    set_teamId (teamsChoice metadata) (set_projectId (projectsChoice metadata) r)
  else if is_nullish (teamId r) && negb (is_nullish (projectId r)) then
    match findProject metadata r with
    | Some {| pr_teams := Some (first :: _) |} => set_teamId (Some first) r
    | _ => set_teamId (teamsChoice metadata) r
    end
  else r.

Definition applyDefaultTeam (metadata : prefs) (r : params) : params :=
  if negb (truthy (teamId r)) && negb (truthy (projectId r))
     && truthy (defaultTeamID metadata)
  then set_teamId (defaultTeamID metadata) r
  else r.

Definition applyAssignee (metadata : prefs) (r : params) : params :=
  if is_nullish (assigneeId r) then set_assigneeId (usersChoice metadata) r else r.

Definition applyPriority (metadata : prefs) (r : params) : params :=
  if is_nullish (priorityId r) then set_priorityId (prioritiesChoice metadata) r else r.

Definition lookupTeamName (metadata : prefs) (r : params) : params :=
  if truthy (teamId r) && negb (truthy (teamName r)) && truthy (teams metadata) then
    match find (fun t => id_is (teamId r) (t_id t)) (or_else (teams metadata) []) with
    | Some t => set_teamName (t_name t) r
    | None => r
    end
  else r.

Definition lookupProjectName (metadata : prefs) (r : params) : params :=
  if truthy (projectId r) && negb (truthy (projectName r)) && truthy (projects metadata) then
    match find (fun p => id_is (projectId r) (pr_id p)) (or_else (projects metadata) []) with
    | Some p => set_projectName (pr_name p) r
    | None => r
    end
  else r.

Definition lookupAssigneeName (metadata : prefs) (r : params) : params :=
  if truthy (assigneeId r) && negb (truthy (assigneeName r)) && truthy (users metadata) then
    match find (fun u => id_is (assigneeId r) (u_id u)) (or_else (users metadata) []) with
    | Some u => set_assigneeName (js_or (u_displayName u) (u_name u)) r
    | None => r
    end
  else r.

(** [priorities.find((p) => p.id === results.priorityId)]; an absent
    identifier equals no [id] of the table. *)
Definition lookupPriorityLabel (r : params) : params :=
  match priorityId r with
  | Some n =>
      match find (fun p => Z.eqb (p_id p) n) priorities with
      | Some p => set_priorityLabel (Some (p_label p)) r
      | None => r
      end
  | None => r
  end.

Definition applyDefaultPreferences (ps : params) (metadata : prefs) : params :=
  let results := ps in
  let results := applyTeamProjectFallbacks metadata results in
  let results := applyDefaultTeam metadata results in
  let results := applyAssignee metadata results in
  let results := applyPriority metadata results in
  let results := lookupTeamName metadata results in
  let results := lookupProjectName metadata results in
  let results := lookupAssigneeName metadata results in
  let results := lookupPriorityLabel results in
  {| teamId := teamId results; projectId := projectId results;
     assigneeId := assigneeId results; priorityId := priorityId results;
     teamName := teamName results; projectName := projectName results;
     assigneeName := assigneeName results; priorityLabel := priorityLabel results;
     unmatched := unmatched ps |}.

(* ================================================================== *)
(** ** Title Validator                                                 *)
(* ================================================================== *)

Record validation := { valid : bool; message : option string }.

Definition validateTitle (title : string) : validation :=
  if negb (truthy title) then
    {| valid := false; message := Some "Please provide a title"%string |}
  else if (Z.of_nat (List.length (JS.splitSpaces (JS.trim title))) =? 1) then
    {| valid := false;
       message := Some "Please provide a more descriptive title with multiple words"%string |}
  else {| valid := true; message := None |}.

(* ================================================================== *)
(** ** Workflow, from the metadata on                                  *)
(* ================================================================== *)

Record explicit_choices := {
  e_teamId : option string;
  e_projectId : option string;
  e_assigneeId : option string;
  e_priorityId : option Z
}.

Record workflow := {
  w_metadata : prefs;
  w_params : params;
  w_explicitChoices : explicit_choices;
  w_title : string;
  w_titleValidation : validation;
  w_input : string
}.

Section Workflow.
Context {C : Collator}.

(** [processWorkflow] after [getUnifiedMetadata] has answered with
    metadata that carries no error. *)
Definition processWorkflowWith (input : string) (metadata : prefs) : workflow :=
    let pw := parseInput input in
    let ps := processParameters (paramWords pw) metadata in
    let explicitChoices :=
      {| e_teamId := teamId ps; e_projectId := projectId ps;
         e_assigneeId := assigneeId ps; e_priorityId := priorityId ps |} in
    let finalParams := applyDefaultPreferences ps metadata in
    let titleWords := unmatched ps ++ titleWords pw in
    let title := JS.join " " (map JS.trim titleWords) in
    {| w_metadata := metadata; w_params := finalParams;
       w_explicitChoices := explicitChoices;
       w_title := title; w_titleValidation := validateTitle title;
       w_input := input |}.
End Workflow.

(* ================================================================== *)
(** ** The host: file system, clock, network and log                   *)
(* ================================================================== *)

(** A thrown error, by its message. *)
Definition js_error := string.

Inductive outcome (A : Type) : Type :=
| Ret (a : A)
| Throw (e : js_error).
Arguments Ret {A} a.
Arguments Throw {A} e.

(** The [data] of a metadata answer: the three [nodes] lists. *)
Record api_data := {
  d_teams : list team;
  d_projects : list project;
  d_users : list user
}.

(** An HTTP answer: [ok], and what [json()] gives: an error, or the [data]
    member of the body, which a GraphQL failure leaves undefined. *)
Record response := { ok : bool; json : outcome (option api_data) }.

(** The state of the host as the code can see and change it. There is one
    [user-data] directory and one cache file in it, those below the working
    directory. [clock] lists the successive readings of [Date.now()]. *)
Record world := {
  cwd : outcome string;
  dirExists : bool;
  mkdirError : option js_error;
  cacheFile : outcome string;
  writeError : option js_error;
  clock : nat -> Z;
  clockReads : nat;
  env_LINEAR_API_KEY : option string;
  linearApi : string -> outcome response;
  requests : list string;
  logged : list (js_error * string)
}.

Definition set_dirExists (b : bool) (w : world) : world :=
  {| cwd := cwd w; dirExists := b; mkdirError := mkdirError w;
     cacheFile := cacheFile w; writeError := writeError w;
     clock := clock w; clockReads := clockReads w;
     env_LINEAR_API_KEY := env_LINEAR_API_KEY w; linearApi := linearApi w;
     requests := requests w; logged := logged w |}.

Definition set_cacheFile (f : outcome string) (w : world) : world :=
  {| cwd := cwd w; dirExists := dirExists w; mkdirError := mkdirError w;
     cacheFile := f; writeError := writeError w;
     clock := clock w; clockReads := clockReads w;
     env_LINEAR_API_KEY := env_LINEAR_API_KEY w; linearApi := linearApi w;
     requests := requests w; logged := logged w |}.

Definition set_clockReads (n : nat) (w : world) : world :=
  {| cwd := cwd w; dirExists := dirExists w; mkdirError := mkdirError w;
     cacheFile := cacheFile w; writeError := writeError w;
     clock := clock w; clockReads := n;
     env_LINEAR_API_KEY := env_LINEAR_API_KEY w; linearApi := linearApi w;
     requests := requests w; logged := logged w |}.

Definition set_requests (r : list string) (w : world) : world :=
  {| cwd := cwd w; dirExists := dirExists w; mkdirError := mkdirError w;
     cacheFile := cacheFile w; writeError := writeError w;
     clock := clock w; clockReads := clockReads w;
     env_LINEAR_API_KEY := env_LINEAR_API_KEY w; linearApi := linearApi w;
     requests := r; logged := logged w |}.

Definition set_logged (l : list (js_error * string)) (w : world) : world :=
  {| cwd := cwd w; dirExists := dirExists w; mkdirError := mkdirError w;
     cacheFile := cacheFile w; writeError := writeError w;
     clock := clock w; clockReads := clockReads w;
     env_LINEAR_API_KEY := env_LINEAR_API_KEY w; linearApi := linearApi w;
     requests := requests w; logged := l |}.

(** Computations that read and change the host and may throw. *)
Definition M (A : Type) : Type := world -> outcome A * world.

Definition ret {A} (a : A) : M A := fun w => (Ret a, w).

Definition throw {A} (e : js_error) : M A := fun w => (Throw e, w).

Definition bind {A B} (m : M A) (k : A -> M B) : M B :=
  fun w => match m w with
           | (Ret a, w') => k a w'
           | (Throw e, w') => (Throw e, w')
           end.

(** [try { m } catch (e) { h(e) }]. *)
Definition try_catch {A} (m : M A) (h : js_error -> M A) : M A :=
  fun w => match m w with
           | (Ret a, w') => (Ret a, w')
           | (Throw e, w') => h e w'
           end.

Declare Scope host_scope.
Delimit Scope host_scope with host.
Notation "x <- m ;; k" := (bind m (fun x => k))
  (at level 61, m at next level, right associativity) : host_scope.
Notation "m ;;; k" := (bind m (fun _ => k))
  (at level 61, right associativity) : host_scope.
Local Open Scope host_scope.

Definition process_cwd : M string := fun w => (cwd w, w).

(** [require("path").join(a, b)]. *)
Definition path_join (a b : string) : string := String.append a (String "/" b).

Definition fs_existsSync (path : string) : M bool :=
  fun w => (Ret (dirExists w), w).

Definition fs_mkdirSync (path : string) : M unit :=
  fun w => match mkdirError w with
           | Some e => (Throw e, w)
           | None => (Ret tt, set_dirExists true w)
           end.

Definition fs_readFileSync (path : string) : M string :=
  fun w => (cacheFile w, w).

Definition fs_writeFileSync (path data : string) : M unit :=
  fun w => match writeError w with
           | Some e => (Throw e, w)
           | None => (Ret tt, set_cacheFile (Ret data) w)
           end.

Definition Date_now : M Z :=
  fun w => (Ret (clock w (clockReads w)), set_clockReads (S (clockReads w)) w).

(** [await fetch("https://api.linear.app/graphql", ...)] with the
    [Authorization] header [token]. *)
Definition fetch (token : string) : M response :=
  fun w => (linearApi w token, set_requests (requests w ++ [token]) w).

(** Modelled from the spec: [logError] of the module [./error-logger],
    which is not among the sources. Logging records the error with the name
    of the place it comes from, and does not throw. *)
Definition logError (e : js_error) (context : string) : M unit :=
  fun w => (Ret tt, set_logged (logged w ++ [(e, context)]) w).

(** Modelled from the spec: [logFetchResponseError] of the module
    [./error-logger], which is not among the sources. It records that the
    answer was not [ok], and does not throw. *)
Definition logFetchResponseError (r : response) (context : string) : M unit :=
  fun w => (Ret tt, set_logged (logged w ++ [("response not ok"%string, context)]) w).

(** The JSON codec of the host for the preference file. [JSON_parse] throws
    on a text that is no JSON, the empty text among them, gives [None] for
    a text that denotes a falsy value ([null], [false], [0]), and the record
    for a text that denotes an object. A text that denotes another truthy
    value (a number, a string, an array) is not in this typed model; the
    code hands such a value back as it is. The second argument of
    [JSON_stringify] is the indentation. *)
Class JSONCodec := {
  JSON_parse : string -> outcome (option prefs);
  JSON_stringify : prefs -> option Z -> string;
  JSON_parse_empty : exists e, JSON_parse EmptyString = Throw e
}.

(* ================================================================== *)
(** ** Preference Store                                                *)
(* ================================================================== *)

Definition cacheFileName : string := "create-linear-issue-cache.json".

(** [savedPrefs.teams = savedPrefs.teams || []], and so on. *)
Definition ensureArrays (p : prefs) : prefs :=
  {| teams := Some (or_else (teams p) []);
     projects := Some (or_else (projects p) []);
     users := Some (or_else (users p) []);
     prioritiesList := prioritiesList p;
     error := error p;
     teamsChoice := teamsChoice p; projectsChoice := projectsChoice p;
     usersChoice := usersChoice p; prioritiesChoice := prioritiesChoice p;
     teamsChoiceTimestamp := teamsChoiceTimestamp p;
     projectsChoiceTimestamp := projectsChoiceTimestamp p;
     usersChoiceTimestamp := usersChoiceTimestamp p;
     prioritiesChoiceTimestamp := prioritiesChoiceTimestamp p |}.

(** [choice ? Date.now() : timestamp || null]. *)
Definition stamp {A} `{Truthy A} (choice : option A) (timestamp : option Z)
  : M (option Z) :=
  if truthy choice then (t <- Date_now ;; ret (Some t))
  else ret (or_null timestamp).

Section Store.
Context {J : JSONCodec}.

Definition readPrefs : M prefs :=
    let savedPrefs : option prefs := None in
    tried <-
      try_catch
        (cwd <- process_cwd ;;
         let userDataDir := path_join cwd "user-data" in
         dirThere <- fs_existsSync userDataDir ;;
         (if negb dirThere then fs_mkdirSync userDataDir else ret tt) ;;;
         savedPrefs <-
           (if negb (truthy savedPrefs) then
              try_catch
                (let cacheFilePath := path_join userDataDir cacheFileName in
                 text <- fs_readFileSync cacheFilePath ;;
                 match JSON_parse text with
                 | Ret v => ret v
                 | Throw e => throw e
                 end)
                (fun _ => ret savedPrefs)
            else ret savedPrefs) ;;
         let savedPrefs :=
           match savedPrefs with
           | Some p => Some (ensureArrays p)
           | None => None
           end in
         ret (inr savedPrefs))
        (fun e => logError e "readPrefs" ;;; ret (inl emptyPrefs)) ;;
    match tried with
    | inl returned => ret returned
    | inr savedPrefs => ret (or_else savedPrefs emptyPrefs)
    end.

(** The object that [writePrefs] writes and returns. *)
Definition prefsWithTimestamps (p : prefs) : M prefs :=
    t1 <- stamp (teamsChoice p) (teamsChoiceTimestamp p) ;;
    t2 <- stamp (projectsChoice p) (projectsChoiceTimestamp p) ;;
    t3 <- stamp (usersChoice p) (usersChoiceTimestamp p) ;;
    t4 <- stamp (prioritiesChoice p) (prioritiesChoiceTimestamp p) ;;
    ret {| teams := teams p; projects := projects p; users := users p;
           prioritiesList := prioritiesList p; error := error p;
           teamsChoice := or_null (teamsChoice p);
           projectsChoice := or_null (projectsChoice p);
           usersChoice := or_null (usersChoice p);
           prioritiesChoice := or_null (prioritiesChoice p);
           teamsChoiceTimestamp := t1;
           projectsChoiceTimestamp := t2;
           usersChoiceTimestamp := t3;
           prioritiesChoiceTimestamp := t4 |}.

Definition writePrefs (p : prefs) (isDryRun : bool) : M prefs :=
    prefsWithTimestamps <- prefsWithTimestamps p ;;
    cwd <- process_cwd ;;
    let userDataDir := path_join cwd "user-data" in
    dirThere <- fs_existsSync userDataDir ;;
    (if negb dirThere then fs_mkdirSync userDataDir else ret tt) ;;;
    let cacheFilePath := path_join userDataDir cacheFileName in
    fs_writeFileSync cacheFilePath
      (JSON_stringify prefsWithTimestamps (if isDryRun then Some 2 else None)) ;;;
    ret prefsWithTimestamps.

(** The call of [writePrefs] in [main]: the metadata of the run, with the
    explicit choices of the run in the choice fields. *)
Definition explicitPrefs (metadata : prefs) (e : explicit_choices) : prefs :=
    {| teams := teams metadata; projects := projects metadata;
       users := users metadata; prioritiesList := prioritiesList metadata;
       error := error metadata;
       teamsChoice := e_teamId e; projectsChoice := e_projectId e;
       usersChoice := e_assigneeId e; prioritiesChoice := e_priorityId e;
       teamsChoiceTimestamp := teamsChoiceTimestamp metadata;
       projectsChoiceTimestamp := projectsChoiceTimestamp metadata;
       usersChoiceTimestamp := usersChoiceTimestamp metadata;
       prioritiesChoiceTimestamp := prioritiesChoiceTimestamp metadata |}.

Definition main_writePrefs (wf : workflow) (dryRun : bool) : M prefs :=
    writePrefs (explicitPrefs (w_metadata wf) (w_explicitChoices wf)) dryRun.

(** The object [{ error }]. *)
Definition errorPrefs (msg : string) : prefs :=
    {| teams := None; projects := None; users := None; prioritiesList := None;
       error := Some msg;
       teamsChoice := None; projectsChoice := None; usersChoice := None;
       prioritiesChoice := None;
       teamsChoiceTimestamp := None; projectsChoiceTimestamp := None;
       usersChoiceTimestamp := None; prioritiesChoiceTimestamp := None |}.

(** The object built from a successful answer. *)
Definition fetchedPrefs (d : api_data) : prefs :=
    {| teams := Some (d_teams d); projects := Some (d_projects d);
       users := Some (d_users d); prioritiesList := Some priorities;
       error := None;
       teamsChoice := None; projectsChoice := None; usersChoice := None;
       prioritiesChoice := None;
       teamsChoiceTimestamp := None; projectsChoiceTimestamp := None;
       usersChoiceTimestamp := None; prioritiesChoiceTimestamp := None |}.

(** The message of the [TypeError] raised by [data.teams] on an undefined
    [data]. *)
Definition undefinedDataMessage : string :=
    "Cannot read properties of undefined (reading 'teams')".

Definition getMetadata (linearToken : option string) : M prefs :=
    fun w =>
      let linearToken :=
        if negb (truthy linearToken) then env_LINEAR_API_KEY w else linearToken in
      if negb (truthy linearToken) then
        (Ret (errorPrefs "LINEAR_API_KEY is not set"), w)
      else
        try_catch
          (response <- fetch (or_else linearToken EmptyString) ;;
           if negb (ok response) then
             logFetchResponseError response "getMetadata" ;;;
             ret (errorPrefs "Failed to fetch metadata from Linear API")
           else
             match json response with
             | Throw e => throw e
             | Ret None => throw undefinedDataMessage
             | Ret (Some data) => ret (fetchedPrefs data)
             end)
          (fun e => logError e "createLinearIssueLogic" ;;; ret (errorPrefs e))
          w.

(** [!metadata.xs?.length]. *)
Definition noLength {A} (xs : option (list A)) : bool :=
    match xs with
    | Some l => negb (truthy (Z.of_nat (List.length l)))
    | None => true
    end.

Definition isStale (metadata : prefs) : bool :=
    negb (truthy metadata)
    || noLength (teams metadata)
    || noLength (projects metadata)
    || noLength (users metadata).

Section Unified.
(** Modelled from the spec: [createLinearIssueCacheAsync] of the module
    [./create-linear-issue-cache-async], which is not among the sources.
    It starts a refresh of the cache in the background and hands back a
    promise; whatever the refresh does to the host, and however it ends,
    is the parameter. *)
Variable createLinearIssueCacheAsync : option string -> world -> world.

(** A call whose promise is dropped: nothing is awaited, no value and no
    error comes back. *)
Definition fireAndForget (refresh : world -> world) : M unit :=
      fun w => (Ret tt, refresh w).

Definition getUnifiedMetadata (linearToken : option string) : M prefs :=
      metadata <- readPrefs ;;
      if isStale metadata then
        metadata <- getMetadata linearToken ;;
        writePrefs metadata false ;;;
        ret metadata
      else
        fireAndForget (createLinearIssueCacheAsync linearToken) ;;;
        ret metadata.

Context {C : Collator}.

Definition processWorkflow (input : string) (linearToken : option string)
      : M (js_error + workflow) :=
      metadata <- getUnifiedMetadata linearToken ;;
      match error metadata with
      | Some msg =>
          if truthy msg then ret (inl msg)
          else ret (inr (processWorkflowWith input metadata))
      | None => ret (inr (processWorkflowWith input metadata))
      end.
End Unified.
End Store.

(* ================================================================== *)
(** ** A concrete host, for the examples                               *)
(* ================================================================== *)

(** Comparison by code units, a collation as good as any for the examples. *)
Definition codeUnitCompare (a b : string) : Z :=
  match String.compare a b with
  | Lt => -1
  | Eq => 0
  | Gt => 1
  end.

(** A writer for the examples: the sizes of the entity lists, the error, the
    choices and the timestamps, indented or not. *)
Definition showString (o : option string) : string :=
  match o with
  | Some s => String.append "'" (String.append s "'")
  | None => "null"
  end.

Definition showNumber (o : option Z) : string :=
  match o with
  | Some z => DecimalString.NilZero.string_of_int (Z.to_int z)
  | None => "null"
  end.

Definition showSize {A} (o : option (list A)) : string :=
  match o with
  | Some l => DecimalString.NilZero.string_of_uint (Nat.to_uint (List.length l))
  | None => "null"
  end.

Definition sampleStringify (p : prefs) (indent : option Z) : string :=
  String.concat (match indent with Some _ => ", " | None => "," end)
    [ String.append "teams:" (showSize (teams p));
      String.append "projects:" (showSize (projects p));
      String.append "users:" (showSize (users p));
      String.append "error:" (showString (error p));
      String.append "teamsChoice:" (showString (teamsChoice p));
      String.append "projectsChoice:" (showString (projectsChoice p));
      String.append "usersChoice:" (showString (usersChoice p));
      String.append "prioritiesChoice:" (showNumber (prioritiesChoice p));
      String.append "teamsChoiceTimestamp:" (showNumber (teamsChoiceTimestamp p));
      String.append "projectsChoiceTimestamp:" (showNumber (projectsChoiceTimestamp p));
      String.append "usersChoiceTimestamp:" (showNumber (usersChoiceTimestamp p));
      String.append "prioritiesChoiceTimestamp:"
                    (showNumber (prioritiesChoiceTimestamp p)) ]%string.

(** A reader for the examples: it knows the text written for [p], and the
    text [null]; the empty text and every other text are refused. *)
Definition sampleParse (p : prefs) (s : string) : outcome (option prefs) :=
  match s with
  | EmptyString => Throw "Unexpected end of JSON input"%string
  | _ => if String.eqb s (sampleStringify p None) then Ret (Some p)
         else if String.eqb s "null" then Ret None
         else Throw "Unexpected token"%string
  end.

#[global, refine] Instance codeUnitCollator : Collator :=
  {| localeCompare := codeUnitCompare |}.
Proof.
  - intros a b. unfold codeUnitCompare.
    rewrite (String.compare_antisym b a).
    destruct (String.compare a b); simpl; lia.
  - intros a b c. unfold codeUnitCompare.
    destruct (String.compare a b) eqn:Hab; try lia;
      destruct (String.compare b c) eqn:Hbc; try lia; intros _ _.
    + apply String.compare_eq_iff in Hab. subst. rewrite Hbc. lia.
    + apply String.compare_eq_iff in Hab. subst. rewrite Hbc. lia.
    + apply String.compare_eq_iff in Hbc. subst. rewrite Hab. lia.
    + assert (Hac : String.compare a c = Lt).
      { apply OrderedTypeEx.String_as_OT.cmp_lt.
        eapply OrderedTypeEx.String_as_OT.lt_trans;
          apply OrderedTypeEx.String_as_OT.cmp_lt; eassumption. }
      rewrite Hac. lia.
Defined.

#[global, refine] Instance sampleCodec (p : prefs) : JSONCodec :=
  {| JSON_parse := sampleParse p;
     JSON_stringify := sampleStringify |}.
Proof.
  eexists. reflexivity.
Defined.

(** Sample metadata, records and hosts. *)

Definition loginBugInput : string := "ln -u -h fix the login bug".

Definition ursula : user :=
  {| u_id := "user-1"; u_name := Some "Ursula Major"%string;
     u_displayName := Some "u"%string;
     u_email := Some "ursula@example.com"%string; u_isMe := true |}.

Definition uma : user :=
  {| u_id := "user-2"; u_name := Some "Uma Lind"%string;
     u_displayName := Some "uma"%string;
     u_email := Some "uma@example.com"%string; u_isMe := false |}.

Definition twoUsers : prefs :=
  {| teams := Some []; projects := Some []; users := Some [uma; ursula];
     prioritiesList := Some priorities; error := None;
     teamsChoice := None; projectsChoice := None; usersChoice := None;
     prioritiesChoice := None;
     teamsChoiceTimestamp := None; projectsChoiceTimestamp := None;
     usersChoiceTimestamp := None; prioritiesChoiceTimestamp := None |}.



(** A host in good order, with [file] for the reading of the cache file. *)
Definition quietWorld (file : outcome string) : world :=
  {| cwd := Ret "/Users/me/fv-alfred"%string;
     dirExists := true; mkdirError := None;
     cacheFile := file; writeError := None;
     clock := fun n => Z.of_nat n + 1700000000000; clockReads := 0;
     env_LINEAR_API_KEY := Some "lin_api_key"%string;
     linearApi := fun _ => Throw "fetch failed"%string;
     requests := []; logged := [] |}.

Definition coreTeam : team :=
  {| t_id := "team-A"; t_name := Some "Core"%string; t_key := Some "COR"%string;
     t_createdAt := Fin 1500000000000;
     t_members := [ {| m_id := "user-1"; m_isMe := true |} ] |}.

Definition webProject : project :=
  {| pr_id := "proj-W"; pr_name := Some "Website"%string;
     pr_teams := Some ["team-A"%string] |}.

(** A snapshot as an earlier run with [-core] left it. *)
Definition previousPrefs : prefs :=
  {| teams := Some [coreTeam]; projects := Some [webProject];
     users := Some [uma; ursula];
     prioritiesList := Some priorities; error := None;
     teamsChoice := Some "team-A"%string; projectsChoice := None;
     usersChoice := None; prioritiesChoice := None;
     teamsChoiceTimestamp := Some 1600000000000; projectsChoiceTimestamp := None;
     usersChoiceTimestamp := None; prioritiesChoiceTimestamp := None |}.

Definition previousText : string := sampleStringify previousPrefs None.

(** The record of a run that chose no priority after a run that chose one. *)
Definition noPriorityPrefs : prefs :=
  {| teams := Some [coreTeam]; projects := Some [webProject];
     users := Some [uma; ursula];
     prioritiesList := Some priorities; error := None;
     teamsChoice := None; projectsChoice := None;
     usersChoice := None; prioritiesChoice := Some 0;
     teamsChoiceTimestamp := None; projectsChoiceTimestamp := None;
     usersChoiceTimestamp := None;
     prioritiesChoiceTimestamp := Some 1600000000000 |}.

(** The record of a choice of no priority whose earlier timestamp is 0. *)
Definition epochPrefs : prefs :=
  {| teams := Some [coreTeam]; projects := Some [webProject];
     users := Some [uma; ursula];
     prioritiesList := Some priorities; error := None;
     teamsChoice := None; projectsChoice := None;
     usersChoice := None; prioritiesChoice := Some 0;
     teamsChoiceTimestamp := None; projectsChoiceTimestamp := None;
     usersChoiceTimestamp := None;
     prioritiesChoiceTimestamp := Some 0 |}.

(** A team whose identifier is empty, next to the team of the user. *)
Definition designTeam : team :=
  {| t_id := EmptyString; t_name := Some "Design"%string;
     t_key := Some "DES"%string; t_createdAt := Fin 1550000000000;
     t_members := [] |}.

Definition twoTeams : prefs :=
  {| teams := Some [coreTeam; designTeam]; projects := Some [webProject];
     users := Some [uma; ursula];
     prioritiesList := Some priorities; error := None;
     teamsChoice := None; projectsChoice := None; usersChoice := None;
     prioritiesChoice := None;
     teamsChoiceTimestamp := None; projectsChoiceTimestamp := None;
     usersChoiceTimestamp := None; prioritiesChoiceTimestamp := None |}.

Definition designResolved : params :=
  {| teamId := Some EmptyString; projectId := None; assigneeId := None;
     priorityId := None;
     teamName := Some "Design"%string; projectName := None; assigneeName := None;
     priorityLabel := None; unmatched := [] |}.


(** A project whose identifier is empty and which no team owns. *)
Definition inboxProject : project :=
  {| pr_id := EmptyString; pr_name := Some "Inbox"%string; pr_teams := Some [] |}.

Definition inboxMetadata : prefs :=
  {| teams := Some [coreTeam]; projects := Some [inboxProject];
     users := Some [uma; ursula];
     prioritiesList := Some priorities; error := None;
     teamsChoice := None; projectsChoice := None; usersChoice := None;
     prioritiesChoice := None;
     teamsChoiceTimestamp := None; projectsChoiceTimestamp := None;
     usersChoiceTimestamp := None; prioritiesChoiceTimestamp := None |}.

Definition inboxResolved : params :=
  {| teamId := None; projectId := Some EmptyString; assigneeId := None;
     priorityId := None;
     teamName := None; projectName := Some "Inbox"%string; assigneeName := None;
     priorityLabel := None; unmatched := [] |}.

(* ================================================================== *)
(** ** The words of the specification                                  *)
(* ================================================================== *)

(** The ranking of the Matcher, said without the code: what it is for a
    candidate to qualify, to have an exact match, and what its shortest
    qualifying matchable string is. *)
Section RankingWords.
Context {C : Collator} {A : Type}.
Variable strs : A -> list (option string).
Variable term : string.

(** [s] is a matchable string of [x]: one of its strings, present and not
    empty. *)
Definition Matchable (x : A) (s : string) : Prop :=
  In (Some s) (strs x) /\ s <> EmptyString.

Definition PrefixMatch (s : string) : Prop :=
  JS.startsWith (sanitise s) (sanitise term) = true.

Definition ExactMatch (s : string) : Prop := sanitise s = sanitise term.

Definition QualifyingString (x : A) (s : string) : Prop :=
  Matchable x s /\ (PrefixMatch s \/ ExactMatch s).

Definition Qualifies (x : A) : Prop := exists s, QualifyingString x s.

Definition HasExact (x : A) : Prop := exists s, Matchable x s /\ ExactMatch s.

(** [n] is the length of the shortest qualifying matchable string of [x]. *)
Definition ShortestQualifying (x : A) (n : Z) : Prop :=
  (exists s, QualifyingString x s /\ JS.length s = n) /\
  (forall s, QualifyingString x s -> n <= JS.length s).

(** The primary matchable string of [x]: the first of its strings, the
    empty string when it is absent. *)
Definition primary (x : A) : string :=
  match strs x with
  | Some s :: _ => s
  | _ => EmptyString
  end.

(** [r] is ranked before [c], or level with it: an exact match is not beaten
    by a candidate without one; with both or neither exact the shorter
    shortest qualifying string is not beaten; these being equal, the
    collation of the primary strings decides. *)
Definition RankedFirst (r c : A) : Prop :=
  (HasExact c -> HasExact r) /\
  (forall nr nc, ShortestQualifying r nr -> ShortestQualifying c nc ->
     (HasExact r <-> HasExact c) ->
     nr <= nc /\
     (nr = nc -> localeCompare (primary r) (primary c) <= 0)).
End RankingWords.

(** A candidate that went through the filter: its shortest length is a
    number. *)
Definition finiteLength {A : Type} (c : candidate A) : Prop :=
  exists n, shortestMatchLength c = Fin n.

(** A token that normalizes to nothing. *)
Section EmptyTermWords.
Context {C : Collator} {A : Type}.
Variable strs : A -> list (option string).

(** [x] has a matchable string made of separators only. *)
Definition SeparatorOnly (x : A) : Prop :=
  exists s, Matchable strs x s /\ sanitise s = EmptyString.

(** [n] is the length of the shortest matchable string of [x]. *)
Definition ShortestMatchable (x : A) (n : Z) : Prop :=
  (exists s, Matchable strs x s /\ JS.length s = n) /\
  (forall s, Matchable strs x s -> n <= JS.length s).

(** The claim as it was stated: the candidate returned has the shortest
    matchable string of all. *)
Definition ShortestWins (word : string) (coll : list A) : Prop :=
  forall r, findBestMatch strs word coll = Some r ->
  forall c s, In c coll -> Matchable strs c s ->
  exists s', Matchable strs r s' /\ JS.length s' <= JS.length s.

End EmptyTermWords.

(** The title. *)
(** Every character of [s] is white space. *)
Fixpoint allSpaces (s : string) : bool :=
  match s with
  | EmptyString => true
  | String c r => JS.isSpace c && allSpaces r
  end.

(** Some character of [s] is white space. *)
Fixpoint hasSpace (s : string) : bool :=
  match s with
  | EmptyString => false
  | String c r => JS.isSpace c || hasSpace r
  end.

(** A title of white space and nothing else. *)
Definition WhitespaceOnly (title : string) : Prop :=
  title <> EmptyString /\ allSpaces title = true.

(** A title of one word: white space around it at most, none inside. *)
Definition SingleWord (title : string) : Prop :=
  JS.trim title <> EmptyString /\ hasSpace (JS.trim title) = false.

(** A title of several words: white space inside, between two of them. *)
Definition SeveralWords (title : string) : Prop :=
  hasSpace (JS.trim title) = true.

Definition titleMissing : validation :=
  {| valid := false; message := Some "Please provide a title"%string |}.

Definition titleTooShort : validation :=
  {| valid := false;
     message := Some "Please provide a more descriptive title with multiple words"%string |}.

Definition titleValid : validation := {| valid := true; message := None |}.

(** Writing the preferences. *)
(** The host lets the cache file be written: the working directory is
    known, the [user-data] directory is there or can be made, and the write
    goes through. *)
Definition Writable (w : world) : Prop :=
  (exists d, cwd w = Ret d) /\
  (dirExists w = true \/ mkdirError w = None) /\
  writeError w = None.

(** The timestamp that [stamp] gives when the next reading of the clock is
    the [k]-th, and the number of the reading after it. *)
Definition stampValue {A} `{Truthy A} (w : world) (k : nat)
    (choice : option A) (timestamp : option Z) : option Z :=
  if truthy choice then Some (clock w k) else or_null timestamp.

Definition stampNext {A} `{Truthy A} (k : nat) (choice : option A) : nat :=
  if truthy choice then S k else k.

(** The record that [writePrefs] builds from [p] in the host [w]. *)
Definition stamped (p : prefs) (w : world) : prefs :=
  let k0 := clockReads w in
  let k1 := stampNext k0 (teamsChoice p) in
  let k2 := stampNext k1 (projectsChoice p) in
  let k3 := stampNext k2 (usersChoice p) in
  {| teams := teams p; projects := projects p; users := users p;
     prioritiesList := prioritiesList p; error := error p;
     teamsChoice := or_null (teamsChoice p);
     projectsChoice := or_null (projectsChoice p);
     usersChoice := or_null (usersChoice p);
     prioritiesChoice := or_null (prioritiesChoice p);
     teamsChoiceTimestamp := stampValue w k0 (teamsChoice p) (teamsChoiceTimestamp p);
     projectsChoiceTimestamp :=
       stampValue w k1 (projectsChoice p) (projectsChoiceTimestamp p);
     usersChoiceTimestamp := stampValue w k2 (usersChoice p) (usersChoiceTimestamp p);
     prioritiesChoiceTimestamp :=
       stampValue w k3 (prioritiesChoice p) (prioritiesChoiceTimestamp p) |}.

(** The number of the next reading of the clock after [writePrefs]. *)
Definition readsAfter (p : prefs) (w : world) : nat :=
  stampNext (stampNext (stampNext (stampNext (clockReads w) (teamsChoice p))
                                  (projectsChoice p))
                       (usersChoice p))
            (prioritiesChoice p).

(** What is written for one field, from the choice and the timestamp of the
    record given, between the hosts [w] and [w']: a choice that is specified
    is written as it is, with a reading of the clock made during the call;
    a choice that is not is written as [null], and the timestamp is the one
    of the record given, [null] for an absent or zero one. *)
Definition FieldWritten {A} `{Truthy A} (w w' : world)
    (choice : option A) (timestamp : option Z)
    (choice' : option A) (timestamp' : option Z) : Prop :=
  if truthy choice then
    choice' = choice /\
    exists k, (clockReads w <= k < clockReads w')%nat /\ timestamp' = Some (clock w k)
  else
    choice' = None /\ timestamp' = or_null timestamp.

(** The claim on unspecified fields as it was stated: the field keeps the
    value persisted before. *)
Definition KeepsPriorChoice (previous written : prefs) : Prop :=
  teamsChoice written = teamsChoice previous.

(** Reading the preferences. *)
(** Something goes wrong while the preferences are read: the working
    directory is not to be had, the [user-data] directory is missing and
    cannot be made, the file cannot be read (it is missing, or the read
    fails), or its text is empty or is no JSON. *)
Definition ReadFails {J : JSONCodec} (w : world) : Prop :=
  (exists e, cwd w = Throw e) \/
  (dirExists w = false /\ exists e, mkdirError w = Some e) \/
  (exists e, cacheFile w = Throw e) \/
  cacheFile w = Ret EmptyString \/
  (exists text e, cacheFile w = Ret text /\ JSON_parse text = Throw e).

Section ReadWords.
Context {J : JSONCodec}.

(** What [readPrefs] returns, by cases on the host. *)
Definition readResult (w : world) : prefs :=
  match cwd w with
  | Throw _ => emptyPrefs
  | Ret _ =>
      match (if dirExists w then None else mkdirError w) with
      | Some _ => emptyPrefs
      | None =>
          match cacheFile w with
          | Throw _ => emptyPrefs
          | Ret text =>
              match JSON_parse text with
              | Ret (Some p) => ensureArrays p
              | _ => emptyPrefs
              end
          end
      end
  end.

(** Reading makes the directory when it can, and logs the error that the
    outer handler caught; nothing else of the host changes. *)
Definition readWorld (w : world) : world :=
  match cwd w with
  | Throw e => set_logged (logged w ++ [(e, "readPrefs"%string)]) w
  | Ret _ =>
      if dirExists w then w
      else match mkdirError w with
           | Some e => set_logged (logged w ++ [(e, "readPrefs"%string)]) w
           | None => set_dirExists true w
           end
  end.

End ReadWords.

(** An entity list that is absent or empty. *)
Definition NoEntities {A} (xs : option (list A)) : Prop :=
  xs = None \/ xs = Some [].

(* ================================================================== *)
(** ** The plain matchers                                              *)
(* ================================================================== *)

(** [matchers.teams], [matchers.users] and [matchers.priorities]: some
    matchable string of the item starts, normalized, with the normalized
    token. *)
Definition matchers_teams (t : team) (word : string) : bool :=
  existsb (fun s => fuzzyMatch s (JS.substring1 word))
          (filterBoolean [t_name t; t_key t]).

Definition matchers_users (u : user) (word : string) : bool :=
  existsb (fun s => fuzzyMatch s (JS.substring1 word))
          (filterBoolean [u_name u; u_displayName u; emailLocalPart u]).

Definition matchers_priorities (p : priority) (word : string) : bool :=
  fuzzyMatch (p_label p) (JS.substring1 word).

(** [findMatch] on a collection that is there: nothing for an empty word,
    else the first item of the collection that the matcher takes. *)
Definition findMatch {A : Type} (word : string) (collection : list A)
    (matcher : A -> string -> bool) : option A :=
  if negb (truthy word) then None
  else find (fun item => matcher item word) collection.

(** [l] is [m] with some elements left out, the others in their order. *)
Inductive Subseq {A : Type} : list A -> list A -> Prop :=
| Subseq_nil : Subseq [] []
| Subseq_skip : forall x l m, Subseq l m -> Subseq l (x :: m)
| Subseq_keep : forall x l m, Subseq l m -> Subseq (x :: l) (x :: m).

(** The number of references that a resolution result holds. *)
Definition isSet {A : Type} (x : option A) : nat :=
  match x with Some _ => 1 | None => 0 end.

Definition resolvedCount (r : params) : nat :=
  isSet (teamId r) + isSet (projectId r) + isSet (assigneeId r)
  + isSet (priorityId r).

(** The words of the command line after the command name. *)
Definition inputWords (input : string) : list string :=
  JS.split " "%char (stripCommand input).

(** Where the references of a resolution result come from: each one is
    the identifier of an entity of the metadata (of the priority table for
    a priority), with the name of that entity beside it, and some flag
    token of the input qualifies for the entity; the project, moreover, is
    owned by the team when a team is resolved. *)
Definition ResolvedFrom (pw : list string) (metadata : prefs) (ps : params) : Prop :=
  (forall n, priorityId ps = Some n ->
     exists p w, In p priorities /\ p_id p = n /\
       priorityLabel ps = Some (p_label p) /\
       In w pw /\ Qualifies priorityStrings (JS.substring1 w) p) /\
  (forall id, assigneeId ps = Some id ->
     exists u w, In u (or_else (users metadata) []) /\ u_id u = id /\
       assigneeName ps = js_or (u_displayName u) (u_name u) /\
       In w pw /\ Qualifies userStrings (JS.substring1 w) u) /\
  (forall id, teamId ps = Some id ->
     exists t w, In t (or_else (teams metadata) []) /\ t_id t = id /\
       teamName ps = t_name t /\
       In w pw /\ Qualifies teamStrings (JS.substring1 w) t) /\
  (forall id, projectId ps = Some id ->
     exists p w, In p (or_else (projects metadata) []) /\ pr_id p = id /\
       projectName ps = pr_name p /\
       In w pw /\ Qualifies projectStrings (JS.substring1 w) p /\
       (forall tid, teamId ps = Some tid -> ownedBy tid p = true)).

(** The reference of a kind is not set. *)
Definition fieldUnset (key : kind) (r : params) : Prop :=
  match key with
  | Priorities => priorityId r = None
  | Users => assigneeId r = None
  | Teams => teamId r = None
  | Projects => projectId r = None
  end.


(** The full names of the five priority levels, by identifier. *)
Definition priorityNames : list string :=
  ["No priority"; "urgent"; "high"; "medium"; "low"]%string.

(** The team is one of the user's own. *)
Definition isMine (t : team) : bool := existsb m_isMe (t_members t).


(** What a match of each kind is. *)
Definition matchedBy {C : Collator} (metadata : prefs) (key : kind)
    (r : params) (w : string) (r' : params) : Prop :=
  match key with
  | Priorities =>
      exists p, findBestMatch priorityStrings w priorities = Some p /\
                r' = setPriority p r
  | Users =>
      exists u, findBestMatch userStrings w (or_else (users metadata) []) = Some u /\
                r' = setUser u r
  | Teams =>
      exists t, findBestMatch teamStrings w (or_else (teams metadata) []) = Some t /\
                r' = setTeam t r
  | Projects =>
      exists p, findBestMatch projectStrings w (filteredProjects metadata r) = Some p /\
                r' = setProject p r
  end.

(** What holds between the passes. *)
Definition ResolverInv (metadata : prefs) (pw : list string) (r : params) : Prop :=
  Subseq (unmatched r) pw /\
  List.length pw = (List.length (unmatched r) + resolvedCount r)%nat /\
  ResolvedFrom pw metadata r.


(* ================================================================== *)
(** ** Result filters ([filter-logic.js])                              *)
(* ================================================================== *)

(** [s.includes(word)]: [word] occurs in [s] as a run of characters. *)
Fixpoint includes (s word : string) : bool :=
  String.prefix word s ||
  match s with
  | EmptyString => false
  | String _ r => includes r word
  end.

(** An item of a result list, as [createFilterItem] makes it, with a title
    and a subtitle that are strings. [fi_iconPath] is [icon.path];
    [fi_date] is the time value of [new Date(item.date)] in milliseconds,
    [None] for a date that does not parse. *)
Record filter_item := {
  fi_title : string;
  fi_subtitle : string;
  fi_arg : option string;
  fi_iconPath : option string;
  fi_source : option string;
  fi_date : option Z;
  fi_uid : option string
}.

(** The number that a date is in a subtraction: [NaN] when invalid. *)
Definition timeValue (d : option Z) : num :=
  match d with Some z => Fin z | None => NaN end.

(** [items.sort((a, b) => new Date(b.date) - new Date(a.date))]: the array
    is sorted in place and handed back; the list here is its content after
    the call. *)
Definition sortByDateDescending (items : list filter_item) : list filter_item :=
  sort (fun a b => num_sub (timeValue (fi_date b)) (timeValue (fi_date a))) items.

(** [createNavigationItem]: [createFilterItem] with the date [new Date(0)];
    the subtitle is the empty string when none is given. *)
Definition createNavigationItem (title : string) (subtitle : option string)
    (arg iconPath source uid : option string) : filter_item :=
  {| fi_title := title;
     fi_subtitle := match subtitle with Some s => s | None => EmptyString end;
     fi_arg := arg; fi_iconPath := iconPath; fi_source := source;
     fi_date := Some 0; fi_uid := uid |}.

(** [createErrorItem]: [createFilterItem] with the date [new Date(0)]. *)
Definition createErrorItem (title subtitle : string)
    (arg iconPath source uid : option string) : filter_item :=
  {| fi_title := title; fi_subtitle := subtitle;
     fi_arg := arg; fi_iconPath := iconPath; fi_source := source;
     fi_date := Some 0; fi_uid := uid |}.

(** [sortByDateDescending(items.concat([navigationItem]))]. *)
Definition wrapFilterResults (items : list filter_item)
    (navigationItem : filter_item) : list filter_item :=
  sortByDateDescending (items ++ [navigationItem]).

(** [query.toLowerCase().trim().split(/\s+/).filter((word) => word.length > 0)]. *)
Definition queryWords (query : string) : list string :=
  filter (fun word => 0 <? JS.length word)
         (JS.splitSpaces (JS.trim (JS.toLowerCase query))).

(** The text of an item that the words are looked for in. *)
Definition searchText (item : filter_item) : string :=
  JS.toLowerCase
    (String.append (fi_title item) (String.append " " (fi_subtitle item))).

(** [filterByWords(items, query)]; an absent query is [None]. *)
Definition filterByWords (items : list filter_item) (query : option string)
    : list filter_item :=
  match query with
  | None => items
  | Some q =>
      if negb (truthy q) || String.eqb (JS.trim q) EmptyString then items
      else
        let queryWords := queryWords q in
        if (Z.of_nat (List.length queryWords) =? 0) then items
        else
          filter (fun item =>
                    forallb (fun word => includes (searchText item) word)
                            queryWords)
                 items
  end.

(** One string occurs in another. *)
Definition Occurs (word s : string) : Prop :=
  exists a b, s = String.append a (String.append word b).

(** Newest first: no item is followed by one with a later date. *)
Definition NewestFirst (items : list filter_item) : Prop :=
  forall i j a b x y, (i < j)%nat ->
    nth_error items i = Some a -> nth_error items j = Some b ->
    fi_date a = Some x -> fi_date b = Some y -> y <= x.


(** A whole number in a template literal: decimal digits, with a sign when
    negative. *)
Definition numberToString (z : Z) : string :=
  DecimalString.NilZero.string_of_int (Z.to_int z).

(** The time of day and the long date that the host prints for the locale
    [en-US]: [inputDate.toLocaleTimeString("en-US", { hour: "numeric",
    minute: "2-digit" })] and [inputDate.toLocaleDateString("en-US",
    { year: "numeric", month: "long", day: "numeric" })], of a valid date
    given by its time value. Both print [Invalid Date] for an invalid
    date. *)
Class DateLocale := {
  toLocaleTimeString : Z -> string;
  toLocaleDateString : Z -> string
}.

Section RelativeDate.
Context {L : DateLocale}.

(** The body of [formatRelativeDate] once [new Date()] has been read as
    [now] and [new Date(date)] as [inputDate], both time values in
    milliseconds ([None]: the date does not parse). With an invalid date
    [diffTime] and [diffDays] are [NaN], every comparison fails and the
    last branch prints the invalid date. Time values are whole numbers
    below 2^53 in size, on which the division and [Math.floor] are exact. *)
Definition formatRelativeDateAt (now : Z) (inputDate : option Z)
    (includeTime : bool) : string :=
    match inputDate with
    | None => "Invalid Date"%string
    | Some inputDate =>
        let diffTime := now - inputDate in
        let diffDays := diffTime / (1000 * 60 * 60 * 24) in
        let timeStr :=
          if includeTime then String.append " @ " (toLocaleTimeString inputDate)
          else EmptyString in
        if diffDays =? 0 then
          let diffHours := diffTime / (1000 * 60 * 60) in
          if diffHours =? 0 then
            let diffMinutes := diffTime / (1000 * 60) in
            if diffMinutes <? 2 then "just now"%string
            else String.append (numberToString diffMinutes) " minutes ago"
          else if diffHours <=? 8 then
            String.append (numberToString diffHours)
              (String.append " "
                 (String.append (if diffHours =? 1 then "hour" else "hours")
                                " ago"))
          else String.append "Today" timeStr
        else if diffDays =? 1 then String.append "Yesterday" timeStr
        else if diffDays <? 7 then
          String.append (numberToString diffDays)
                        (String.append " days ago" timeStr)
        else if diffDays <? 30 then
          let weeks := diffDays / 7 in
          String.append (numberToString weeks)
            (String.append " "
               (String.append (if weeks =? 1 then "week" else "weeks") " ago"))
        else if diffDays <? 365 then
          let months := diffDays / 30 in
          String.append (numberToString months)
            (String.append " "
               (String.append (if months =? 1 then "month" else "months") " ago"))
        else toLocaleDateString inputDate
    end.

(** [formatRelativeDate(date, includeTime)], [date] given by the time
    value of [new Date(date)]. *)
Definition formatRelativeDate (date : option Z) (includeTime : bool) : M string :=
    (now <- Date_now ;; ret (formatRelativeDateAt now date includeTime))%host.
End RelativeDate.

(** Milliseconds. *)
Definition minutes (n : Z) : Z := n * 60000.
Definition hours (n : Z) : Z := n * 3600000.
Definition days (n : Z) : Z := n * 86400000.

(** The time of day after a relative date, when it is asked for. *)
Definition timeOfDay {L : DateLocale} (inputDate : Z) (includeTime : bool) : string :=
  if includeTime then String.append " @ " (toLocaleTimeString inputDate)
  else EmptyString.

(** A locale for the examples: the time of day as the minute of the day,
    the date as the day since the epoch. *)
Definition sampleLocale : DateLocale :=
  {| toLocaleTimeString := fun t => numberToString ((t / 60000) mod 1440);
     toLocaleDateString := fun t => numberToString (t / 86400000) |}.


(* ================================================================== *)
(** ** The command ([create-linear-issue-mutation.js])                 *)
(* ================================================================== *)

(** The [input] of the mutation [issueCreate]. *)
Record issue_input := {
  in_teamId : option string;
  in_projectId : option string;
  in_assigneeId : option string;
  in_priority : Z;
  in_title : string
}.

(** What [data.issueCreate.issue] is in an answer: [None] for [null], or
    the issue, given by its [identifier]. *)
Definition issue_value : Type := option (option string).

(** The body of an answer to the mutation: the messages of [errors],
    absent when there is no such member, and what the evaluation of
    [data.issueCreate.issue] gives, which throws when [data] or
    [issueCreate] is missing. *)
Record issue_body := {
  b_errors : option (list string);
  b_issue : outcome issue_value
}.

(** An HTTP answer to the mutation; [r_json] is what [json()] gives,
    [None] for a body that is [null]. *)
Record issue_response := {
  r_ok : bool;
  r_statusText : option string;
  r_json : outcome (option issue_body)
}.

(** What is handed to [console.log] or [console.error] in one call. *)
Inductive printed :=
| Text (s : string)
| Undefined
| Echo (teamId projectId assigneeId : option string) (priority : Z) (title : string)
| Request (input : issue_input)
| ErrorObject (e : js_error)
| ResponseObject (r : option issue_response)
| ResponseBody (b : option issue_body).

(** The host of the command: the host of the store, the first argument of
    the command line, the two streams of the console, the remote API for
    the mutation, and the mutations sent so far. *)
Record shell := {
  host : world;
  argv2 : option string;
  stdout : list printed;
  stderr : list printed;
  issueApi : issue_input -> outcome issue_response;
  mutations : list issue_input
}.

Definition set_host (w : world) (s : shell) : shell :=
  {| host := w; argv2 := argv2 s; stdout := stdout s; stderr := stderr s;
     issueApi := issueApi s; mutations := mutations s |}.

Definition set_stdout (l : list printed) (s : shell) : shell :=
  {| host := host s; argv2 := argv2 s; stdout := l; stderr := stderr s;
     issueApi := issueApi s; mutations := mutations s |}.

Definition set_stderr (l : list printed) (s : shell) : shell :=
  {| host := host s; argv2 := argv2 s; stdout := stdout s; stderr := l;
     issueApi := issueApi s; mutations := mutations s |}.

Definition set_mutations (l : list issue_input) (s : shell) : shell :=
  {| host := host s; argv2 := argv2 s; stdout := stdout s; stderr := stderr s;
     issueApi := issueApi s; mutations := l |}.

(** Computations of the command. *)
Definition MS (A : Type) : Type := shell -> outcome A * shell.

Definition ret_s {A} (a : A) : MS A := fun s => (Ret a, s).

Definition throw_s {A} (e : js_error) : MS A := fun s => (Throw e, s).

Definition bind_s {A B} (m : MS A) (k : A -> MS B) : MS B :=
  fun s => match m s with
           | (Ret a, s') => k a s'
           | (Throw e, s') => (Throw e, s')
           end.

Definition try_s {A} (m : MS A) (h : js_error -> MS A) : MS A :=
  fun s => match m s with
           | (Ret a, s') => (Ret a, s')
           | (Throw e, s') => h e s'
           end.

(** A computation of the store, run on the host of the command. *)
Definition lift {A} (m : M A) : MS A :=
  fun s => match m (host s) with (o, w') => (o, set_host w' s) end.

Declare Scope shell_scope.
Delimit Scope shell_scope with shell.
Notation "x <- m ;; k" := (bind_s m (fun x => k))
  (at level 61, m at next level, right associativity) : shell_scope.
Notation "m ;;; k" := (bind_s m (fun _ => k))
  (at level 61, right associativity) : shell_scope.

Definition console_log (p : printed) : MS unit :=
  fun s => (Ret tt, set_stdout (stdout s ++ [p]) s).

Definition console_error (p : printed) : MS unit :=
  fun s => (Ret tt, set_stderr (stderr s ++ [p]) s).

(** [await fetch("https://api.linear.app/graphql", ...)] with the mutation
    and its [input] in the body. *)
Definition fetch_issue (input : issue_input) : MS issue_response :=
  fun s => (issueApi s input, set_mutations (mutations s ++ [input]) s).

(** [x?.slice(0, 4) || null]. *)
Definition slice4 (x : option string) : option string :=
  or_null (option_map (String.substring 0 4) x).

(** The messages of the [TypeError]s that the code can run into. *)
Definition undefinedStatusText : string :=
  "Cannot read properties of undefined (reading 'statusText')".
Definition undefinedMessage : string :=
  "Cannot read properties of undefined (reading 'message')".
Definition cannotDestructure : string :=
  "Cannot destructure property 'data' of '(intermediate value)' as it is null.".

Section Command.
Context {J : JSONCodec} {C : Collator}.

(** Modelled from the spec: [createLinearIssueCacheAsync] and
    [filterCacheAsync] of the modules [./create-linear-issue-cache-async]
    and [./filter-cache-async], which are not among the sources. Each
    starts a refresh of a cache in the background; what the refresh does
    to the host of the store is the parameter, and nothing comes back. *)
Variable createLinearIssueCacheAsync : option string -> world -> world.
Variable filterCacheAsync : world -> world.

(** The constants of the module: [linearToken], the key of the
    environment, which the module refuses to load without; and [dryRun],
    which the module works out when loaded from the environment and the
    state of the working copy. *)
Variable linearToken : string.
Variable dryRun : bool.

Definition createIssueMutation (teamId projectId assigneeId : option string)
    (priority : Z) (title : string) : MS issue_value :=
    let input := {| in_teamId := teamId; in_projectId := projectId;
                    in_assigneeId := assigneeId; in_priority := priority;
                    in_title := title |} in
    ((if dryRun then
        console_log (Echo (slice4 teamId) (slice4 projectId) (slice4 assigneeId)
                          priority title)
      else ret_s tt) ;;;
     response <-
       (if dryRun then console_log (Request input) ;;; ret_s None
        else r <- fetch_issue input ;; ret_s (Some r)) ;;
     lift (fireAndForget filterCacheAsync) ;;;
     match response with
     | None =>
         console_error (ResponseObject None) ;;;
         try_s (throw_s undefinedStatusText) (fun _ => ret_s tt) ;;;
         throw_s undefinedStatusText
     | Some r =>
         if negb (r_ok r) then
           console_error (ResponseObject (Some r)) ;;;
           try_s
             (match r_json r with
              | Ret errorBody => console_error (ResponseBody errorBody)
              | Throw e => throw_s e
              end)
             (fun _ => ret_s tt) ;;;
           throw_s (String.append "Fetch Error: "
                      (match r_statusText r with
                       | Some t => t
                       | None => "unknown"
                       end))
         else
           match r_json r with
           | Throw e => throw_s e
           | Ret None => throw_s cannotDestructure
           | Ret (Some body) =>
               match b_errors body with
               | Some [] => throw_s undefinedMessage
               | Some (m :: _) =>
                   console_log (Text (String.append "GraphQL Error: " m)) ;;;
                   throw_s m
               | None =>
                   match b_issue body with
                   | Throw e => throw_s e
                   | Ret issue => ret_s issue
                   end
               end
           end
     end)%shell.

(** [console.log(x)] for a string that may be [undefined]. *)
Definition console_log_value (x : option string) : MS unit :=
    console_log (match x with Some s => Text s | None => Undefined end).

(** The message of the [TypeError] on [issue.identifier] for a [null]
    issue. *)
Definition nullIdentifier : string :=
    "Cannot read properties of null (reading 'identifier')".

Definition main : MS unit :=
    (try_s
       (fun s =>
          let input := argv2 s in
          (if negb (truthy input) then
             console_error (Text "Missing required input") ;;;
             console_log (Text "Please provide an issue title")
           else
             workflow <-
               lift (processWorkflow createLinearIssueCacheAsync
                       (or_else input EmptyString) (Some linearToken)) ;;
             match workflow with
             | inl error => console_error (Text error)
             | inr workflow =>
                 let finalParams := w_params workflow in
                 let titleValidation := w_titleValidation workflow in
                 if negb (valid titleValidation) then
                   console_log_value (message titleValidation)
                 else
                   lift (main_writePrefs workflow dryRun) ;;;
                   try_s
                     (issue <-
                        createIssueMutation
                          (or_null (teamId finalParams))
                          (or_null (projectId finalParams))
                          (or_null (assigneeId finalParams))
                          (or_else (priorityId finalParams) 0)
                          (w_title workflow) ;;
                      match issue with
                      | Some identifier => console_log_value identifier
                      | None => throw_s nullIdentifier
                      end)
                     (fun error =>
                        console_error (ErrorObject error) ;;;
                        console_log (Text "Failed to create the issue."))
             end) s)
       (fun error =>
          console_error (ErrorObject error) ;;;
          console_log (Text "An unexpected error occurred.")))%shell.
End Command.


(** What the two handlers of [main] leave. *)
Definition failed (e : js_error) (s : shell) : shell :=
  set_stdout (stdout s ++ [Text "Failed to create the issue."])
    (set_stderr (stderr s ++ [ErrorObject e]) s).

Definition unexpected (e : js_error) (s : shell) : shell :=
  set_stdout (stdout s ++ [Text "An unexpected error occurred."])
    (set_stderr (stderr s ++ [ErrorObject e]) s).

(** The arguments that [main] hands to [createIssueMutation]. *)
Definition mutationOf (wf : workflow) : issue_input :=
  {| in_teamId := or_null (teamId (w_params wf));
     in_projectId := or_null (projectId (w_params wf));
     in_assigneeId := or_null (assigneeId (w_params wf));
     in_priority := or_else (priorityId (w_params wf)) 0;
     in_title := w_title wf |}.

(** [createIssueMutation] on the fields of an input. *)
Definition createIssue (filterCacheAsync : world -> world) (dryRun : bool)
    (i : issue_input) : MS issue_value :=
  createIssueMutation filterCacheAsync dryRun
    (in_teamId i) (in_projectId i) (in_assigneeId i) (in_priority i) (in_title i).

(** What [createIssueMutation] does with the answer of the API. *)
Definition answered (r : issue_response) (s : shell) : outcome issue_value * shell :=
  if negb (r_ok r) then
    (Throw (String.append "Fetch Error: "
              (match r_statusText r with Some t => t | None => "unknown"%string end)),
     set_stderr
       (stderr s ++ ResponseObject (Some r) ::
          match r_json r with
          | Ret errorBody => [ResponseBody errorBody]
          | Throw _ => []
          end) s)
  else
    match r_json r with
    | Throw e => (Throw e, s)
    | Ret None => (Throw cannotDestructure, s)
    | Ret (Some body) =>
        match b_errors body with
        | Some [] => (Throw undefinedMessage, s)
        | Some (m :: _) =>
            (Throw m,
             set_stdout (stdout s ++ [Text (String.append "GraphQL Error: " m)]) s)
        | None =>
            match b_issue body with
            | Throw e => (Throw e, s)
            | Ret issue => (Ret issue, s)
            end
        end
    end.

(** What [main] prints for the issue that came back. *)
Definition reported (r : outcome issue_value * shell) : shell :=
  match r with
  | (Ret (Some (Some identifier)), s) => set_stdout (stdout s ++ [Text identifier]) s
  | (Ret (Some None), s) => set_stdout (stdout s ++ [Undefined]) s
  | (Ret None, s) => failed nullIdentifier s
  | (Throw e, s) => failed e s
  end.


(** A host of the command for the examples: the snapshot of an earlier run
    in the cache file, the command line [ln -u -h fix the login bug]. *)
Definition sampleShell (api : issue_input -> outcome issue_response) : shell :=
  {| host := quietWorld (Ret previousText);
     argv2 := Some loginBugInput;
     stdout := []; stderr := [];
     issueApi := api; mutations := [] |}.

(** An API that creates the issue [COR-7]. *)
Definition createsIssue (i : issue_input) : outcome issue_response :=
  Ret {| r_ok := true; r_statusText := Some "OK"%string;
         r_json := Ret (Some {| b_errors := None;
                                b_issue := Ret (Some (Some "COR-7"%string)) |}) |}.


(** [parts.splice(-2, 0, ...items)]: the items go in before the last two
    elements (before all of them when there are fewer than two). *)
Definition spliceBeforeLastTwo {A} (parts items : list A) : list A :=
  let start := (List.length parts - 2)%nat in
  firstn start parts ++ items ++ skipn start parts.

Section Subtitle.
Context {L : DateLocale}.

(** The two glyphs of the subtitle, an arrow with a blank before it and a
    bullet. They lie outside the characters that a [string] holds here,
    so they are left open; the code uses nothing of them but that they are
    strings. *)
Variable arrow bullet : string.

(** The body of [formatSubtitle] once the date is formatted. A missing
    [user] is [None]. *)
Definition subtitleParts (user : option string) (additionalInfo : list string)
    (relativeDate : string) : list (option string) :=
    let parts := [Some arrow; user; Some bullet; Some relativeDate] in
    if (0 <? Z.of_nat (List.length additionalInfo)) then
      spliceBeforeLastTwo parts (map Some additionalInfo ++ [Some bullet])
    else parts.

(** [formatSubtitle(user, date, additionalInfo, includeTime)]. *)
Definition formatSubtitle (user : option string) (date : option Z)
    (additionalInfo : list string) (includeTime : bool) : M string :=
    (relativeDate <- formatRelativeDate date includeTime ;;
     ret (JS.join " " (filterBoolean (subtitleParts user additionalInfo relativeDate))))%host.
End Subtitle.


(** What [getMetadata] makes of the answer of the API to its request. *)
Definition metadataOf (a : outcome response) : prefs :=
  match a with
  | Throw e => errorPrefs e
  | Ret r =>
      if negb (ok r) then errorPrefs "Failed to fetch metadata from Linear API"
      else match json r with
           | Throw e => errorPrefs e
           | Ret None => errorPrefs undefinedDataMessage
           | Ret (Some d) => fetchedPrefs d
           end
  end.


(** An answer of the API with one team, one project and two users, and a
    host without a cache file whose API gives that answer. *)
Definition sampleData : api_data :=
  {| d_teams := [coreTeam]; d_projects := [webProject]; d_users := [uma; ursula] |}.

Definition onlineWorld : world :=
  {| cwd := Ret "/Users/me/fv-alfred"%string;
     dirExists := true; mkdirError := None;
     cacheFile := Throw "ENOENT: no such file or directory"%string;
     writeError := None;
     clock := fun n => Z.of_nat n + 1700000000000; clockReads := 0;
     env_LINEAR_API_KEY := Some "lin_api_key"%string;
     linearApi := fun _ => Ret {| ok := true; json := Ret (Some sampleData) |};
     requests := []; logged := [] |}.

(* ================================================================== *)
(** * Properties                                                       *)
(* ================================================================== *)

(** ** Sorting *)

Section SortFacts.
Context {A : Type} (cmp : A -> A -> num) (P : A -> Prop).
Hypothesis cmp_total : forall a b,
    P a -> P b -> num_pos (cmp a b) = true -> num_pos (cmp b a) = false.
Hypothesis cmp_trans : forall a b c,
    P a -> P b -> P c ->
    num_pos (cmp a b) = false -> num_pos (cmp b c) = false ->
    num_pos (cmp a c) = false.

Lemma sort_insert_In x l y : In y (sort_insert cmp x l) <-> y = x \/ In y l.
Proof.
  induction l as [|z l IH]; simpl.
  - intuition.
  - destruct (num_pos (cmp x z)); simpl; rewrite ?IH; intuition.
Qed.

Lemma sort_In l y : In y (sort cmp l) <-> In y l.
Proof.
  induction l as [|x l IH]; simpl.
  - tauto.
  - rewrite sort_insert_In, IH. intuition.
Qed.

Lemma sort_nonempty l : l <> [] -> sort cmp l <> [].
Proof.
  destruct l as [|x l]; [congruence|]. intros _ H.
  assert (In x (sort cmp (x :: l))) by (apply sort_In; left; reflexivity).
  rewrite H in *. contradiction.
Qed.

Lemma cmp_refl a : P a -> num_pos (cmp a a) = false.
Proof.
  intros Pa. destruct (num_pos (cmp a a)) eqn:E; [|reflexivity].
  rewrite (cmp_total Pa Pa E) in E. discriminate.
Qed.

(** The first element of the sorted array is behind no other. *)
Lemma sort_head_min l : Forall P l ->
  forall h t, sort cmp l = h :: t ->
  forall y, In y l -> num_pos (cmp h y) = false.
Proof.
  induction l as [|x l IH]; intros HP h t Hs y Hy; [contradiction|].
  inversion HP as [|? ? Px Pl]; subst.
  simpl in Hs.
  assert (Ph : P h).
  { assert (In h (x :: l)) as Hin.
    { apply sort_In. simpl. rewrite Hs. left. reflexivity. }
    rewrite Forall_forall in HP. apply HP. exact Hin. }
  assert (Py : P y) by (rewrite Forall_forall in HP; apply HP; exact Hy).
  destruct (sort cmp l) as [|z s] eqn:Es.
  - simpl in Hs. inversion Hs; subst.
    destruct l as [|? ?].
    + destruct Hy as [->|[]]. apply cmp_refl. exact Ph.
    + exfalso. eapply sort_nonempty; [|exact Es]. discriminate.
  - assert (Pz : P z).
    { rewrite Forall_forall in Pl. apply Pl. apply sort_In.
      rewrite Es. left. reflexivity. }
    simpl in Hs. destruct (num_pos (cmp x z)) eqn:Exz; inversion Hs; subst.
    + destruct Hy as [->|Hy].
      * apply cmp_total; assumption.
      * eapply IH; eauto.
    + destruct Hy as [->|Hy].
      * apply cmp_refl. exact Px.
      * apply cmp_trans with (b := z); try assumption.
        eapply IH; eauto.
Qed.
End SortFacts.

(** ** Matcher *)

Lemma filterBoolean_In xs s :
  In s (filterBoolean xs) <-> In (Some s) xs /\ s <> EmptyString.
Proof.
  induction xs as [|[t|] xs IH]; simpl.
  - tauto.
  - destruct t as [|c t]; simpl; rewrite IH.
    + split; [tauto|]. intros [[H|H] Hs]; [|tauto]. inversion H; subst. congruence.
    + split.
      * intros [<-|[H Hs]]; split; auto; discriminate.
      * intros [[H|H] Hs]; [left; congruence | right; tauto].
  - rewrite IH. split; [tauto|]. intros [[H|H] Hs]; [discriminate|tauto].
Qed.

Lemma Math_min_spec xs :
  match Math_min xs with
  | Fin m => In m xs /\ forall y, In y xs -> m <= y
  | PInf => xs = []
  | _ => False
  end.
Proof.
  induction xs as [|x xs IH]; simpl; [reflexivity|].
  destruct (Math_min xs) as [m| | |]; try contradiction.
  - destruct IH as [Hm Hle]. split.
    + destruct (Z.min_spec x m) as [[_ ->]|[_ ->]]; auto.
    + intros y [<-|Hy]; [lia|]. specialize (Hle y Hy). lia.
  - subst. split; [auto|]. intros y [<-|[]]. lia.
Qed.

Section MatcherFacts.
Context {C : Collator} {A : Type}.
Variable strs : A -> list (option string).
Variable term : string.

Lemma primaryName_primary x : primaryName strs x = primary strs x.
Proof.
  unfold primaryName, primary. destruct (strs x) as [|[s|] r]; try reflexivity.
  simpl. destruct s; reflexivity.
Qed.

Lemma matchesOf_In x m :
  In m (matchesOf strs term x) <->
  exists s, Matchable strs x s /\
    m = {| original := s; sanitized := sanitise s;
           isExact := String.eqb (sanitise s) (sanitise term);
           isFuzzy := fuzzyMatch s term |}.
Proof.
  unfold matchesOf. rewrite in_map_iff. split.
  - intros (s & <- & Hs). apply filterBoolean_In in Hs. exists s. split; auto.
  - intros (s & Hs & ->). exists s. split; auto. apply filterBoolean_In. exact Hs.
Qed.

Lemma qualifying_In x m :
  In m (filter qualifying (matchesOf strs term x)) <->
  exists s, QualifyingString strs term x s /\
    m = {| original := s; sanitized := sanitise s;
           isExact := String.eqb (sanitise s) (sanitise term);
           isFuzzy := fuzzyMatch s term |}.
Proof.
  rewrite filter_In, matchesOf_In. unfold QualifyingString, PrefixMatch, ExactMatch.
  split.
  - intros ((s & Hs & ->) & Hq). exists s. split; [|reflexivity]. split; [exact Hs|].
    unfold qualifying in Hq. simpl in Hq. apply orb_true_iff in Hq.
    destruct Hq as [Hq|Hq]; [right; apply String.eqb_eq; exact Hq | left; exact Hq].
  - intros (s & (Hs & Hq) & ->). split; [exists s; auto|].
    unfold qualifying. simpl. apply orb_true_iff.
    destruct Hq as [Hq|Hq]; [right; exact Hq | left; apply String.eqb_eq; exact Hq].
Qed.

Lemma candidate_qualifies x :
  (0 <? Z.of_nat (List.length (matches (candidateOf strs term x)))) = true <->
  Qualifies strs term x.
Proof.
  simpl. split.
  - intros H. destruct (filter qualifying (matchesOf strs term x)) as [|m l] eqn:E.
    + simpl in H. discriminate.
    + assert (Hm : In m (filter qualifying (matchesOf strs term x)))
        by (rewrite E; left; reflexivity).
      apply qualifying_In in Hm. destruct Hm as (s & Hs & _). exists s. exact Hs.
  - intros (s & Hs).
    assert (Hm : In {| original := s; sanitized := sanitise s;
                       isExact := String.eqb (sanitise s) (sanitise term);
                       isFuzzy := fuzzyMatch s term |}
                    (filter qualifying (matchesOf strs term x))).
    { apply qualifying_In. exists s. auto. }
    destruct (filter qualifying (matchesOf strs term x)); [contradiction|].
    simpl. apply Z.ltb_lt. lia.
Qed.

Lemma candidate_exact x :
  hasExactMatch (candidateOf strs term x) = true <-> HasExact strs term x.
Proof.
  simpl. rewrite existsb_exists. unfold HasExact, ExactMatch. split.
  - intros (m & Hm & He). apply matchesOf_In in Hm. destruct Hm as (s & Hs & ->).
    simpl in He. exists s. split; [exact Hs|]. apply String.eqb_eq. exact He.
  - intros (s & Hs & He). eexists. split.
    + apply matchesOf_In. exists s. split; [exact Hs|reflexivity].
    + simpl. apply String.eqb_eq. exact He.
Qed.

Lemma candidate_shortest x :
  Qualifies strs term x ->
  exists n, shortestMatchLength (candidateOf strs term x) = Fin n /\
            ShortestQualifying strs term x n.
Proof.
  intros (s0 & Hs0). simpl.
  pose proof (Math_min_spec
    (map (fun m => JS.length (original m))
         (filter qualifying (matchesOf strs term x)))) as Hmin.
  destruct (Math_min _) as [n| | |]; try contradiction.
  - exists n. split; [reflexivity|]. destruct Hmin as [Hin Hle]. split.
    + apply in_map_iff in Hin. destruct Hin as (m & <- & Hm).
      apply qualifying_In in Hm. destruct Hm as (s & Hs & ->).
      exists s. split; [exact Hs|reflexivity].
    + intros s Hs. apply Hle. apply in_map_iff. eexists. split.
      2:{ apply qualifying_In. exists s. split; [exact Hs|reflexivity]. }
      reflexivity.
  - exfalso. apply map_eq_nil in Hmin.
    assert (Hm : In {| original := s0; sanitized := sanitise s0;
                       isExact := String.eqb (sanitise s0) (sanitise term);
                       isFuzzy := fuzzyMatch s0 term |}
                    (filter qualifying (matchesOf strs term x))).
    { apply qualifying_In. exists s0. auto. }
    rewrite Hmin in Hm. contradiction.
Qed.

Lemma ShortestQualifying_unique x n m :
  ShortestQualifying strs term x n -> ShortestQualifying strs term x m -> n = m.
Proof.
  intros [(s & Hs & Hn) Hle] [(t & Ht & Hm) Hle'].
  specialize (Hle t Ht). specialize (Hle' s Hs). lia.
Qed.

Lemma compareCandidates_total a b :
  finiteLength a -> finiteLength b ->
  num_pos (compareCandidates strs a b) = true ->
  num_pos (compareCandidates strs b a) = false.
Proof.
  intros [na Ha] [nb Hb]. unfold compareCandidates. rewrite Ha, Hb.
  destruct (hasExactMatch a), (hasExactMatch b); simpl; try discriminate; auto.
  all: destruct (Z.eqb_spec (na - nb) 0), (Z.eqb_spec (nb - na) 0); simpl;
    try lia; rewrite ?Z.ltb_lt, ?Z.ltb_ge; try lia;
    intros H; apply localeCompare_total in H; lia.
Qed.

Lemma compareCandidates_trans a b c :
  finiteLength a -> finiteLength b -> finiteLength c ->
  num_pos (compareCandidates strs a b) = false ->
  num_pos (compareCandidates strs b c) = false ->
  num_pos (compareCandidates strs a c) = false.
Proof.
  intros [na Ha] [nb Hb] [nc Hc]. unfold compareCandidates. rewrite Ha, Hb, Hc.
  destruct (hasExactMatch a), (hasExactMatch b), (hasExactMatch c);
    simpl; try discriminate; auto.
  all: destruct (Z.eqb_spec (na - nb) 0), (Z.eqb_spec (nb - nc) 0),
         (Z.eqb_spec (na - nc) 0); simpl;
    rewrite ?Z.ltb_lt, ?Z.ltb_ge; try lia;
    intros H1 H2; eapply localeCompare_trans; eassumption.
Qed.

Lemma compareCandidates_not_behind a b na nb :
  shortestMatchLength a = Fin na -> shortestMatchLength b = Fin nb ->
  num_pos (compareCandidates strs a b) = false ->
  (hasExactMatch b = true -> hasExactMatch a = true) /\
  (hasExactMatch a = hasExactMatch b ->
   na <= nb /\
   (na = nb ->
    localeCompare (primaryName strs (item a)) (primaryName strs (item b)) <= 0)).
Proof.
  intros Ha Hb. unfold compareCandidates. rewrite Ha, Hb.
  destruct (hasExactMatch a), (hasExactMatch b); simpl; try discriminate;
    try (intros _; split; [auto | discriminate]).
  all: destruct (Z.eqb_spec (na - nb) 0); simpl; rewrite Z.ltb_ge; intros H;
    (split; [auto|]); intros _; split; lia.
Qed.
End MatcherFacts.

Section MatcherRanking.
Context {C : Collator} {A : Type}.
Variable strs : A -> list (option string).

Lemma findBestMatch_unfold word coll :
  word <> EmptyString ->
  findBestMatch strs word coll =
  match sort (compareCandidates strs)
             (filter (fun c => 0 <? Z.of_nat (List.length (matches c)))
                     (map (candidateOf strs (JS.substring1 word)) coll)) with
  | best :: _ => Some (item best)
  | [] => None
  end.
Proof.
  intros Hw. unfold findBestMatch.
  destruct word as [|ch w]; [congruence|]. simpl negb. cbv iota.
  destruct (filter _ _) eqn:E; reflexivity.
Qed.

Lemma candidates_In word coll c :
  In c (filter (fun c => 0 <? Z.of_nat (List.length (matches c)))
               (map (candidateOf strs (JS.substring1 word)) coll)) <->
  exists x, In x coll /\ Qualifies strs (JS.substring1 word) x /\
            c = candidateOf strs (JS.substring1 word) x.
Proof.
  rewrite filter_In, in_map_iff. split.
  - intros ((x & <- & Hx) & Hq). exists x. split; [exact Hx|]. split; [|reflexivity].
    apply candidate_qualifies. exact Hq.
  - intros (x & Hx & Hq & ->). split; [exists x; auto|].
    apply candidate_qualifies. exact Hq.
Qed.

Lemma candidates_finite word coll :
  Forall (@finiteLength A)
    (filter (fun c => 0 <? Z.of_nat (List.length (matches c)))
            (map (candidateOf strs (JS.substring1 word)) coll)).
Proof.
  apply Forall_forall. intros c Hc. apply candidates_In in Hc.
  destruct Hc as (x & _ & Hq & ->).
  destruct (candidate_shortest Hq) as (n & Hn & _). exists n. exact Hn.
Qed.

(** What [findBestMatch] returns qualifies and is ranked first. *)
Lemma findBestMatch_first word coll r :
  findBestMatch strs word coll = Some r ->
  In r coll /\ Qualifies strs (JS.substring1 word) r /\
  forall c, In c coll -> Qualifies strs (JS.substring1 word) c ->
            RankedFirst strs (JS.substring1 word) r c.
Proof.
  intros H.
  assert (Hw : word <> EmptyString).
  { intros ->. unfold findBestMatch in H. simpl in H. discriminate. }
  rewrite (findBestMatch_unfold coll Hw) in H.
  set (term := JS.substring1 word) in *.
  destruct (sort _ _) as [|best rest] eqn:Es; [discriminate|].
  inversion H; subst r; clear H.
  assert (Hb : In best (best :: rest)) by (left; reflexivity).
  rewrite <- Es in Hb. apply sort_In in Hb. apply candidates_In in Hb.
  destruct Hb as (x & Hx & Hq & Hbest).
  assert (Hitem : item best = x) by (rewrite Hbest; reflexivity).
  rewrite Hitem. split; [exact Hx|]. split; [exact Hq|].
  intros c Hc Hqc.
  assert (Hmin : num_pos (compareCandidates strs best (candidateOf strs term c)) = false).
  { eapply sort_head_min with (P := @finiteLength A).
    - intros a b. apply compareCandidates_total.
    - intros a b d. apply compareCandidates_trans.
    - apply candidates_finite.
    - exact Es.
    - apply candidates_In. exists c. auto. }
  destruct (candidate_shortest Hq) as (n & Hn & HSn).
  destruct (candidate_shortest Hqc) as (m & Hm & HSm).
  rewrite Hbest in Hmin.
  destruct (compareCandidates_not_behind strs _ _ Hn Hm Hmin) as [Hex Hrest].
  split.
  - intros Hc'. apply candidate_exact. apply Hex. apply candidate_exact. exact Hc'.
  - intros nr nc Hnr Hnc Hiff.
    rewrite (ShortestQualifying_unique Hnr HSn), (ShortestQualifying_unique Hnc HSm).
    simpl item in Hrest. rewrite !primaryName_primary in Hrest. apply Hrest.
    apply Bool.eq_true_iff_eq. subst term. rewrite !candidate_exact. exact Hiff.
Qed.

(** A token that is not empty is answered as soon as a candidate
    qualifies. *)
Lemma findBestMatch_some word coll :
  word <> EmptyString ->
  (exists c, In c coll /\ Qualifies strs (JS.substring1 word) c) ->
  exists r, findBestMatch strs word coll = Some r.
Proof.
  intros Hw (c & Hc & Hq). rewrite (findBestMatch_unfold coll Hw).
  destruct (sort _ _) as [|best rest] eqn:Es.
  - exfalso. eapply sort_nonempty; [|exact Es].
    intros E.
    assert (Hin : In (candidateOf strs (JS.substring1 word) c)
                     (filter (fun c => 0 <? Z.of_nat (List.length (matches c)))
                             (map (candidateOf strs (JS.substring1 word)) coll))).
    { apply candidates_In. exists c. auto. }
    rewrite E in Hin. contradiction.
  - eexists. reflexivity.
Qed.

(** Nothing qualifies, nothing is returned. *)
Lemma findBestMatch_none word coll :
  (forall c, In c coll -> ~ Qualifies strs (JS.substring1 word) c) ->
  findBestMatch strs word coll = None.
Proof.
  intros H. destruct (findBestMatch strs word coll) as [r|] eqn:E; [|reflexivity].
  apply findBestMatch_first in E. destruct E as (Hr & Hq & _).
  exfalso. exact (H r Hr Hq).
Qed.
End MatcherRanking.

(** C1. The ranking of [findBestMatch]: the candidate returned qualifies,
    and against every qualifying candidate of the list it has an exact match
    if that one has, whatever the lengths; exactness being level, its
    shortest qualifying matchable string is not longer; the lengths being
    equal too, its primary matchable string does not come later in the
    collation of the host. A candidate is returned whenever one qualifies.
    From [m] and [medium] the term [m] picks [m], in either order. *)
Theorem findBestMatch_ranking {C : Collator} {A : Type}
    (strs : A -> list (option string)) (word : string) (coll : list A) :
  (forall r, findBestMatch strs word coll = Some r ->
     In r coll /\ Qualifies strs (JS.substring1 word) r /\
     forall c, In c coll -> Qualifies strs (JS.substring1 word) c ->
               RankedFirst strs (JS.substring1 word) r c) /\
  (word <> EmptyString ->
   (exists c, In c coll /\ Qualifies strs (JS.substring1 word) c) ->
   exists r, findBestMatch strs word coll = Some r) /\
  findBestMatch (fun s => [Some s]) "-m" ["m"; "medium"]%string = Some "m"%string /\
  findBestMatch (fun s => [Some s]) "-m" ["medium"; "m"]%string = Some "m"%string.
Proof.
  split; [|split; [|split]].
  - intros r. apply findBestMatch_first.
  - apply findBestMatch_some.
  - reflexivity.
  - reflexivity.
Qed.

(** ** A token that normalizes to nothing *)

Section EmptyTermFacts.
Context {C : Collator} {A : Type}.
Variable strs : A -> list (option string).

Lemma startsWith_empty s : JS.startsWith s EmptyString = true.
Proof. destruct s; reflexivity. Qed.

Variable term : string.
Hypothesis term_empty : sanitise term = EmptyString.

Lemma empty_term_qualifying x s :
  QualifyingString strs term x s <-> Matchable strs x s.
Proof.
  unfold QualifyingString, PrefixMatch. rewrite term_empty. split.
  - tauto.
  - intros H. split; [exact H|]. left. apply startsWith_empty.
Qed.

Lemma empty_term_qualifies x :
  Qualifies strs term x <-> exists s, Matchable strs x s.
Proof.
  unfold Qualifies. split; intros (s & H); exists s.
  - apply (proj1 (empty_term_qualifying x s)). exact H.
  - apply (proj2 (empty_term_qualifying x s)). exact H.
Qed.

Lemma empty_term_exact x : HasExact strs term x <-> SeparatorOnly strs x.
Proof.
  unfold HasExact, SeparatorOnly, ExactMatch. rewrite term_empty. tauto.
Qed.

Lemma empty_term_shortest x n :
  ShortestQualifying strs term x n <-> ShortestMatchable strs x n.
Proof.
  unfold ShortestQualifying, ShortestMatchable. split; intros [(s & Hs & Hn) Hle]; split.
  - exists s. split; [apply (proj1 (empty_term_qualifying x s)); exact Hs | exact Hn].
  - intros t Ht. apply Hle. apply (proj2 (empty_term_qualifying x t)). exact Ht.
  - exists s. split; [apply (proj2 (empty_term_qualifying x s)); exact Hs | exact Hn].
  - intros t Ht. apply Hle. apply (proj1 (empty_term_qualifying x t)). exact Ht.
Qed.
End EmptyTermFacts.

Lemma isParamWord_nonempty word : isParamWord word = true -> word <> EmptyString.
Proof. intros H ->. discriminate. Qed.

(** C9, as amended. A flag token whose characters after the dash normalize
    to the empty string is answered with a candidate as soon as one
    candidate of the list has a matchable string. Every candidate with a
    matchable string qualifies, and the one returned is ranked first among
    them: a candidate with a matchable string made of separators only,
    which the empty term matches exactly, goes before the others; with both
    or neither so, the shorter shortest matchable string goes first, and the
    collation of the primary strings decides between equal lengths. *)
Theorem findBestMatch_empty_term {C : Collator} {A : Type}
    (strs : A -> list (option string)) (word : string) (coll : list A) :
  isParamWord word = true ->
  sanitise (JS.substring1 word) = EmptyString ->
  (exists c s, In c coll /\ Matchable strs c s) ->
  exists r, findBestMatch strs word coll = Some r /\
    In r coll /\ (exists s, Matchable strs r s) /\
    forall c, In c coll -> (exists s, Matchable strs c s) ->
      (SeparatorOnly strs c -> SeparatorOnly strs r) /\
      (forall nr nc, ShortestMatchable strs r nr -> ShortestMatchable strs c nc ->
         (SeparatorOnly strs r <-> SeparatorOnly strs c) ->
         nr <= nc /\ (nr = nc -> localeCompare (primary strs r) (primary strs c) <= 0)).
Proof.
  intros Hflag Hterm (c0 & s0 & Hc0 & Hs0).
  pose proof (empty_term_qualifies strs _ Hterm) as Hqual.
  pose proof (empty_term_exact strs _ Hterm) as Hexact.
  pose proof (empty_term_shortest strs _ Hterm) as Hshort.
  destruct (@findBestMatch_some C A strs word coll) as [r Hr].
  - apply isParamWord_nonempty. exact Hflag.
  - exists c0. split; [exact Hc0|]. apply Hqual. exists s0. exact Hs0.
  - exists r. split; [exact Hr|].
    destruct (findBestMatch_first _ _ _ Hr) as (Hin & Hq & Hrank).
    split; [exact Hin|]. split; [apply Hqual; exact Hq|].
    intros c Hc Hmc.
    destruct (Hrank c Hc) as [Hex Hlen].
    { apply Hqual. exact Hmc. }
    split.
    + intros Hsc. apply Hexact. apply Hex. apply Hexact. exact Hsc.
    + intros nr nc Hnr Hnc Hiff. apply Hlen.
      * apply Hshort. exact Hnr.
      * apply Hshort. exact Hnc.
      * rewrite !Hexact. exact Hiff.
Qed.

(** The priorities pass consumes the token [--]. *)
Lemma findBestMatch_empty_term_witness :
  exists r, findBestMatch priorityStrings "--" priorities = Some r /\
    In r priorities /\ (exists s, Matchable priorityStrings r s) /\
    forall c, In c priorities -> (exists s, Matchable priorityStrings c s) ->
      (SeparatorOnly priorityStrings c -> SeparatorOnly priorityStrings r) /\
      (forall nr nc, ShortestMatchable priorityStrings r nr ->
         ShortestMatchable priorityStrings c nc ->
         (SeparatorOnly priorityStrings r <-> SeparatorOnly priorityStrings c) ->
         nr <= nc /\
         (nr = nc -> localeCompare (primary priorityStrings r)
                                   (primary priorityStrings c) <= 0)).
Proof.
  apply (@findBestMatch_empty_term codeUnitCollator priority priorityStrings
           "--" priorities).
  - reflexivity.
  - reflexivity.
  - exists {| p_label := "urgent"; p_id := 1 |}, "urgent"%string.
    split; [simpl; tauto|]. split; [left; reflexivity | discriminate].
Defined.

(** C9, refuted as stated. Of the candidates [a] and [---] the token [--]
    picks [---], which the empty term matches exactly, though [a] is the
    shorter. *)
Lemma findBestMatch_empty_term_not_shortest :
  findBestMatch (C := codeUnitCollator) (fun s => [Some s]) "--"
                ["a"; "---"]%string = Some "---"%string /\
  ~ ShortestWins (C := codeUnitCollator) (fun s => [Some s]) "--"
                 ["a"; "---"]%string.
Proof.
  split; [reflexivity|].
  intros H. destruct (H "---"%string eq_refl "a"%string "a"%string) as (s' & [Hin _] & Hlen).
  - left. reflexivity.
  - split; [left; reflexivity | discriminate].
  - destruct Hin as [Hin|[]]. inversion Hin; subst. vm_compute in Hlen. apply Hlen. reflexivity.
Qed.

(** ** Parser and Resolver on the login bug *)


Section LoginBug.
Context {C : Collator}.
Variable metadata : prefs.



End LoginBug.




(** In the sample metadata [ursula] alone has the alias [u], and the run
    assigns the issue to her. *)
Example resolve_login_bug_ursula :
  (forall o, In o (or_else (users twoUsers) []) ->
             HasExact userStrings "u" o -> u_id o = u_id ursula) /\
  assigneeId (processParameters (C := codeUnitCollator)
                (paramWords (parseInput loginBugInput)) twoUsers)
    = Some "user-1"%string.
Proof.
  split; [|vm_compute; reflexivity].
  intros o [<-|[<-|[]]] (s & [Hs _] & He); [|reflexivity].
  exfalso. destruct Hs as [Hs|[Hs|[Hs|[]]]]; inversion Hs; subst s;
    vm_compute in He; discriminate.
Qed.

(** ** Title Validator *)

Lemma splitSpacesFrom_no_space insep cur s :
  hasSpace s = false ->
  JS.splitSpacesFrom insep cur s = [String.append cur s].
Proof.
  revert insep cur. induction s as [|c r IH]; intros insep cur H; simpl in *.
  - f_equal. induction cur; simpl; congruence.
  - apply orb_false_iff in H. destruct H as [Hc Hr]. rewrite Hc.
    rewrite IH by exact Hr. f_equal.
    clear. induction cur; simpl; congruence.
Qed.

Lemma splitSpacesFrom_length_pos insep cur s :
  (1 <= List.length (JS.splitSpacesFrom insep cur s))%nat.
Proof.
  revert insep cur. induction s as [|c r IH]; intros insep cur; simpl.
  - lia.
  - destruct (JS.isSpace c); [destruct insep|]; simpl; try apply IH.
    specialize (IH true EmptyString). lia.
Qed.

Lemma splitSpaces_has_space cur s :
  hasSpace s = true ->
  (2 <= List.length (JS.splitSpacesFrom false cur s))%nat.
Proof.
  revert cur. induction s as [|c r IH]; intros cur H; simpl in *.
  - discriminate.
  - destruct (JS.isSpace c) eqn:Hc.
    + simpl. pose proof (splitSpacesFrom_length_pos true EmptyString r). lia.
    + simpl in H. apply IH. exact H.
Qed.

(** The array of [split(/\s+/)] has one element exactly when no white
    space is in the string. *)
Lemma splitSpaces_one s :
  (Z.of_nat (List.length (JS.splitSpaces s)) =? 1) = negb (hasSpace s).
Proof.
  unfold JS.splitSpaces. destruct (hasSpace s) eqn:H; simpl.
  - apply Z.eqb_neq. pose proof (splitSpaces_has_space EmptyString s H). lia.
  - rewrite splitSpacesFrom_no_space by exact H. reflexivity.
Qed.

Lemma trimStart_allSpaces s : allSpaces s = true -> JS.trimStart s = EmptyString.
Proof.
  induction s as [|c r IH]; simpl; [reflexivity|].
  intros H. apply andb_true_iff in H. destruct H as [Hc Hr]. rewrite Hc. auto.
Qed.

Lemma validateTitle_nonempty title :
  title <> EmptyString ->
  validateTitle title =
  if hasSpace (JS.trim title) then titleValid else titleTooShort.
Proof.
  intros H. unfold validateTitle. destruct title as [|c r]; [congruence|].
  cbn [truthy truthy_string negb]. rewrite splitSpaces_one.
  destruct (hasSpace _); reflexivity.
Qed.

(** C3, as amended. [validateTitle] refuses the empty title with
    [Please provide a title]; it refuses a title of white space only and a
    title of a single word, both with
    [Please provide a more descriptive title with multiple words]; it
    accepts every other title, one with white space between words. These are
    all the titles. [bug] is refused as a single word, [fix login bug] is
    accepted. *)
Theorem validateTitle_cases :
  validateTitle EmptyString = titleMissing /\
  (forall title, WhitespaceOnly title -> validateTitle title = titleTooShort) /\
  (forall title, SingleWord title -> validateTitle title = titleTooShort) /\
  (forall title, SeveralWords title -> validateTitle title = titleValid) /\
  (forall title, title = EmptyString \/ WhitespaceOnly title \/
                 SingleWord title \/ SeveralWords title) /\
  validateTitle "bug" = titleTooShort /\
  validateTitle "fix login bug" = titleValid.
Proof.
  split; [reflexivity|]. split; [|split; [|split; [|split; [|split]]]].
  - intros title [Hne Hall]. rewrite validateTitle_nonempty by exact Hne.
    unfold JS.trim. rewrite trimStart_allSpaces by exact Hall. reflexivity.
  - intros title [Hne Hno]. rewrite validateTitle_nonempty.
    + rewrite Hno. reflexivity.
    + intros ->. apply Hne. reflexivity.
  - intros title Hsp. unfold SeveralWords in Hsp. rewrite validateTitle_nonempty.
    + rewrite Hsp. reflexivity.
    + intros ->. discriminate.
  - intros title. destruct title as [|c r]; [left; reflexivity|right].
    destruct (hasSpace (JS.trim (String c r))) eqn:Hsp; [right; right; exact Hsp|].
    destruct (allSpaces (String c r)) eqn:Hall.
    + left. split; [discriminate | exact Hall].
    + right. left. split; [|exact Hsp].
      intros Htrim. clear Hsp. revert Hall Htrim. generalize (String c r). clear.
      intros s. unfold JS.trim. induction s as [|c r IH]; simpl; [discriminate|].
      destruct (JS.isSpace c) eqn:Hc; simpl.
      * exact IH.
      * intros _. destruct (JS.trimEnd r); [rewrite Hc|]; discriminate.
  - reflexivity.
  - reflexivity.
Qed.

(** C3, refuted as stated. The title of one space is not empty for the
    code: it is refused with the message of the single word. *)
Lemma validateTitle_whitespace_message :
  WhitespaceOnly " " /\
  validateTitle " " = titleTooShort /\
  message (validateTitle " ") <> Some "Please provide a title"%string.
Proof.
  split; [split; [discriminate | reflexivity]|].
  split; [reflexivity | discriminate].
Qed.

(** ** Preference Store: writing *)

Section StoreFacts.
Context {J : JSONCodec}.

Lemma writePrefs_run (p : prefs) (isDryRun : bool) (w : world) :
  Writable w ->
  writePrefs p isDryRun w =
  (Ret (stamped p w),
   set_cacheFile
     (Ret (JSON_stringify (stamped p w) (if isDryRun then Some 2 else None)))
     (set_dirExists true (set_clockReads (readsAfter p w) w))).
Proof.
  intros ((d & Hd) & Hdir & Hwr).
  destruct w as [cw de me cf we cl cr env api rq lg]. simpl in *. subst.
  unfold writePrefs, prefsWithTimestamps, stamped, readsAfter, stamp,
    stampValue, stampNext, bind, ret, Date_now, process_cwd, fs_existsSync,
    fs_mkdirSync, fs_writeFileSync, set_cacheFile, set_dirExists, set_clockReads.
  destruct (truthy (teamsChoice p)), (truthy (projectsChoice p)),
    (truthy (usersChoice p)), (truthy (prioritiesChoice p));
    cbn -[JSON_stringify or_null];
    destruct de; cbn -[JSON_stringify or_null];
    try reflexivity;
    destruct Hdir as [Hdir|Hdir]; try discriminate; subst;
    cbn -[JSON_stringify or_null]; reflexivity.
Qed.
End StoreFacts.

Lemma or_null_truthy {A} `{Truthy A} (x : option A) :
  truthy x = true -> or_null x = x.
Proof. intros E. unfold or_null. rewrite E. reflexivity. Qed.

Lemma or_null_falsy {A} `{Truthy A} (x : option A) :
  truthy x = false -> or_null x = None.
Proof. intros E. unfold or_null. rewrite E. reflexivity. Qed.

Section WriteFacts.
Context {J : JSONCodec}.

(** What [writePrefs] writes, field by field. *)
Lemma writePrefs_written (p : prefs) (isDryRun : bool) (w : world) :
  Writable w ->
  exists q w',
    writePrefs p isDryRun w = (Ret q, w') /\
    cacheFile w' = Ret (JSON_stringify q (if isDryRun then Some 2 else None)) /\
    teams q = teams p /\ projects q = projects p /\ users q = users p /\
    FieldWritten w w' (teamsChoice p) (teamsChoiceTimestamp p)
                 (teamsChoice q) (teamsChoiceTimestamp q) /\
    FieldWritten w w' (projectsChoice p) (projectsChoiceTimestamp p)
                 (projectsChoice q) (projectsChoiceTimestamp q) /\
    FieldWritten w w' (usersChoice p) (usersChoiceTimestamp p)
                 (usersChoice q) (usersChoiceTimestamp q) /\
    FieldWritten w w' (prioritiesChoice p) (prioritiesChoiceTimestamp p)
                 (prioritiesChoice q) (prioritiesChoiceTimestamp q).
Proof.
  intros HW. eexists _, _. split; [apply writePrefs_run; exact HW|].
  split; [reflexivity|]. split; [reflexivity|]. split; [reflexivity|].
  split; [reflexivity|].
  assert (HF : forall (A : Type) (T : Truthy A) (c : option A) (t : option Z) k,
             (clockReads w <= k)%nat -> (stampNext k c <= readsAfter p w)%nat ->
             FieldWritten w
               (set_cacheFile
                  (Ret (JSON_stringify (stamped p w) (if isDryRun then Some 2 else None)))
                  (set_dirExists true (set_clockReads (readsAfter p w) w)))
               c t (or_null c) (stampValue w k c t)).
  { intros A T c t k Hk Hn. unfold FieldWritten, stampValue, stampNext in *.
    destruct (truthy c) eqn:E.
    - split; [apply or_null_truthy; exact E|]. exists k. simpl. split; [lia|reflexivity].
    - split; [apply or_null_falsy; exact E|reflexivity]. }
  assert (Hmono : forall (A : Type) (T : Truthy A) k (c : option A),
             (k <= stampNext k c)%nat).
  { intros A T k c. unfold stampNext. destruct (truthy c); lia. }
  pose proof (Hmono _ _ (clockReads w) (teamsChoice p)) as H1.
  pose proof (Hmono _ _ (stampNext (clockReads w) (teamsChoice p)) (projectsChoice p)) as H2.
  pose proof (Hmono _ _ (stampNext (stampNext (clockReads w) (teamsChoice p))
                                   (projectsChoice p)) (usersChoice p)) as H3.
  pose proof (Hmono _ _ (stampNext (stampNext (stampNext (clockReads w) (teamsChoice p))
                                   (projectsChoice p)) (usersChoice p))
                    (prioritiesChoice p)) as H4.
  repeat split; apply HF; unfold readsAfter; lia.
Qed.
End WriteFacts.

(** C4, as amended. Where the host lets the file be written, [writePrefs]
    returns a record and leaves its JSON text in the cache file. The entity
    lists of the record given are in it unchanged. Each choice that is
    specified in the record given is in it as given, stamped with a reading
    of the clock made during the call. Each choice that is not specified
    (absent, [null], or falsy) is in it as [null], whatever was persisted
    before, and its timestamp is the timestamp of the record given ([null]
    if that one is absent or zero). In the call of [main] the choices are
    the explicit choices of the run and the timestamps those of the
    metadata read at the start of the run: a field without an explicit
    choice is written as [null] with the timestamp of the snapshot. *)
Theorem writePrefs_merge {J : JSONCodec}
    (p : prefs) (wf : workflow) (isDryRun : bool) (w : world) :
  Writable w ->
  (exists q w',
     writePrefs p isDryRun w = (Ret q, w') /\
     cacheFile w' = Ret (JSON_stringify q (if isDryRun then Some 2 else None)) /\
     teams q = teams p /\ projects q = projects p /\ users q = users p /\
     FieldWritten w w' (teamsChoice p) (teamsChoiceTimestamp p)
                  (teamsChoice q) (teamsChoiceTimestamp q) /\
     FieldWritten w w' (projectsChoice p) (projectsChoiceTimestamp p)
                  (projectsChoice q) (projectsChoiceTimestamp q) /\
     FieldWritten w w' (usersChoice p) (usersChoiceTimestamp p)
                  (usersChoice q) (usersChoiceTimestamp q) /\
     FieldWritten w w' (prioritiesChoice p) (prioritiesChoiceTimestamp p)
                  (prioritiesChoice q) (prioritiesChoiceTimestamp q)) /\
  (exists q w',
     main_writePrefs wf isDryRun w = (Ret q, w') /\
     cacheFile w' = Ret (JSON_stringify q (if isDryRun then Some 2 else None)) /\
     teams q = teams (w_metadata wf) /\ projects q = projects (w_metadata wf) /\
     users q = users (w_metadata wf) /\
     FieldWritten w w' (e_teamId (w_explicitChoices wf))
                  (teamsChoiceTimestamp (w_metadata wf))
                  (teamsChoice q) (teamsChoiceTimestamp q) /\
     FieldWritten w w' (e_projectId (w_explicitChoices wf))
                  (projectsChoiceTimestamp (w_metadata wf))
                  (projectsChoice q) (projectsChoiceTimestamp q) /\
     FieldWritten w w' (e_assigneeId (w_explicitChoices wf))
                  (usersChoiceTimestamp (w_metadata wf))
                  (usersChoice q) (usersChoiceTimestamp q) /\
     FieldWritten w w' (e_priorityId (w_explicitChoices wf))
                  (prioritiesChoiceTimestamp (w_metadata wf))
                  (prioritiesChoice q) (prioritiesChoiceTimestamp q)).
Proof.
  intros HW. split.
  - apply writePrefs_written. exact HW.
  - unfold main_writePrefs.
    apply (writePrefs_written
             (explicitPrefs (w_metadata wf) (w_explicitChoices wf)) isDryRun HW).
Qed.

(** The run [ln -u -h fix the login bug] after the snapshot. *)
Lemma writePrefs_merge_witness :
  let wf := processWorkflowWith (C := codeUnitCollator) loginBugInput previousPrefs in
  let w := quietWorld (Ret previousText) in
  (exists q w',
     writePrefs (J := sampleCodec previousPrefs) previousPrefs false w = (Ret q, w') /\
     cacheFile w' = Ret (sampleStringify q None) /\
     teams q = teams previousPrefs /\ projects q = projects previousPrefs /\
     users q = users previousPrefs /\
     FieldWritten w w' (teamsChoice previousPrefs) (teamsChoiceTimestamp previousPrefs)
                  (teamsChoice q) (teamsChoiceTimestamp q) /\
     FieldWritten w w' (projectsChoice previousPrefs)
                  (projectsChoiceTimestamp previousPrefs)
                  (projectsChoice q) (projectsChoiceTimestamp q) /\
     FieldWritten w w' (usersChoice previousPrefs) (usersChoiceTimestamp previousPrefs)
                  (usersChoice q) (usersChoiceTimestamp q) /\
     FieldWritten w w' (prioritiesChoice previousPrefs)
                  (prioritiesChoiceTimestamp previousPrefs)
                  (prioritiesChoice q) (prioritiesChoiceTimestamp q)) /\
  (exists q w',
     main_writePrefs (J := sampleCodec previousPrefs) wf false w = (Ret q, w') /\
     cacheFile w' = Ret (sampleStringify q None) /\
     teams q = teams (w_metadata wf) /\ projects q = projects (w_metadata wf) /\
     users q = users (w_metadata wf) /\
     FieldWritten w w' (e_teamId (w_explicitChoices wf))
                  (teamsChoiceTimestamp (w_metadata wf))
                  (teamsChoice q) (teamsChoiceTimestamp q) /\
     FieldWritten w w' (e_projectId (w_explicitChoices wf))
                  (projectsChoiceTimestamp (w_metadata wf))
                  (projectsChoice q) (projectsChoiceTimestamp q) /\
     FieldWritten w w' (e_assigneeId (w_explicitChoices wf))
                  (usersChoiceTimestamp (w_metadata wf))
                  (usersChoice q) (usersChoiceTimestamp q) /\
     FieldWritten w w' (e_priorityId (w_explicitChoices wf))
                  (prioritiesChoiceTimestamp (w_metadata wf))
                  (prioritiesChoice q) (prioritiesChoiceTimestamp q)).
Proof.
  apply (@writePrefs_merge (sampleCodec previousPrefs) previousPrefs
           (processWorkflowWith (C := codeUnitCollator) loginBugInput previousPrefs)
           false (quietWorld (Ret previousText))).
  split; [eexists; reflexivity|]. split; [left; reflexivity | reflexivity].
Defined.

(** C4, refuted as stated. The snapshot read at the start of the run holds
    the team choice [team-A]. The run [ln fix the login bug] names no team:
    it takes [team-A] as the default, and then [main] calls [writePrefs]
    with the snapshot and no explicit choice. The record written holds no
    team choice: the one persisted before is gone, its timestamp alone is
    kept. *)
Lemma writePrefs_forgets_prior_choice :
  let wf := processWorkflowWith (C := codeUnitCollator)
              "ln fix the login bug" previousPrefs in
  fst (readPrefs (J := sampleCodec previousPrefs)
                 (quietWorld (Ret previousText))) = Ret previousPrefs /\
  teamsChoice previousPrefs = Some "team-A"%string /\
  e_teamId (w_explicitChoices wf) = None /\
  teamId (w_params wf) = Some "team-A"%string /\
  exists q w',
    main_writePrefs (J := sampleCodec previousPrefs) wf false
                    (quietWorld (Ret previousText)) = (Ret q, w') /\
    teamsChoice q = None /\
    teamsChoiceTimestamp q = teamsChoiceTimestamp previousPrefs /\
    ~ KeepsPriorChoice previousPrefs q.
Proof.
  cbv zeta. split; [reflexivity|]. split; [reflexivity|].
  split; [vm_compute; reflexivity|]. split; [vm_compute; reflexivity|].
  eexists _, _. split; [vm_compute; reflexivity|].
  split; [reflexivity|]. split; [reflexivity|].
  unfold KeepsPriorChoice. simpl. discriminate.
Qed.

(** C10. [writePrefs] takes a falsy choice for none. For a record whose
    [prioritiesChoice] is 0, the level of no priority, and whose
    [prioritiesChoiceTimestamp] is one that the program writes (a reading
    of the clock, which is not 0, or [null]), the record returned and
    written, where the host lets the file be written, has no
    [prioritiesChoice] and the timestamp of the record given: the choice of
    no priority is not persisted and does not refresh its timestamp. The
    other choices, when falsy, are written as [null] likewise. *)
Theorem writePrefs_priority_zero {J : JSONCodec}
    (p : prefs) (isDryRun : bool) (w : world) :
  Writable w ->
  prioritiesChoice p = Some 0 ->
  prioritiesChoiceTimestamp p <> Some 0 ->
  exists q w',
    writePrefs p isDryRun w = (Ret q, w') /\
    cacheFile w' = Ret (JSON_stringify q (if isDryRun then Some 2 else None)) /\
    prioritiesChoice q = None /\
    prioritiesChoiceTimestamp q = prioritiesChoiceTimestamp p /\
    (truthy (teamsChoice p) = false -> teamsChoice q = None) /\
    (truthy (projectsChoice p) = false -> projectsChoice q = None) /\
    (truthy (usersChoice p) = false -> usersChoice q = None).
Proof.
  intros HW H0 Hts. eexists _, _. split; [apply writePrefs_run; exact HW|].
  split; [reflexivity|].
  unfold stamped, stampValue.
  cbn [teamsChoice projectsChoice usersChoice prioritiesChoice
       teamsChoiceTimestamp projectsChoiceTimestamp usersChoiceTimestamp
       prioritiesChoiceTimestamp].
  rewrite H0. change (truthy (Some 0)) with false. cbv iota.
  split; [reflexivity|]. split.
  - destruct (prioritiesChoiceTimestamp p) as [t|]; [|reflexivity].
    unfold or_null. change (truthy (Some t)) with (negb (Z.eqb t 0)).
    destruct (Z.eqb_spec t 0) as [->|_]; [congruence | reflexivity].
  - repeat split; intros E; apply or_null_falsy; exact E.
Qed.

Lemma writePrefs_priority_zero_witness :
  exists q w',
    writePrefs (J := sampleCodec previousPrefs)
               noPriorityPrefs true (quietWorld (Ret previousText)) = (Ret q, w') /\
    cacheFile w' = Ret (sampleStringify q (Some 2)) /\
    prioritiesChoice q = None /\
    prioritiesChoiceTimestamp q = Some 1600000000000 /\
    (truthy (teamsChoice noPriorityPrefs) = false -> teamsChoice q = None) /\
    (truthy (projectsChoice noPriorityPrefs) = false -> projectsChoice q = None) /\
    (truthy (usersChoice noPriorityPrefs) = false -> usersChoice q = None).
Proof.
  apply (@writePrefs_priority_zero (sampleCodec previousPrefs)
           noPriorityPrefs true (quietWorld (Ret previousText))).
  - split; [eexists; reflexivity|]. split; [left; reflexivity | reflexivity].
  - reflexivity.
  - discriminate.
Defined.

(** A remark on the timestamp 0, which is no reading of the clock and
    which the statement above leaves out: it is falsy itself, and is
    written as [null]. *)
Remark writePrefs_priority_zero_epoch :
  exists q w',
    writePrefs (J := sampleCodec previousPrefs)
               epochPrefs false (quietWorld (Ret previousText)) = (Ret q, w') /\
    prioritiesChoice q = None /\
    prioritiesChoiceTimestamp epochPrefs = Some 0 /\
    prioritiesChoiceTimestamp q = None.
Proof.
  eexists _, _. split; [vm_compute; reflexivity|]. repeat split.
Qed.

(** ** Default Applier *)

Ltac step_cases :=
  repeat match goal with
         | |- context [if ?b then _ else _] => destruct b
         | |- context [match find ?f ?l with _ => _ end] => destruct (find f l)
         end; try reflexivity.

(** The look-up of names leaves the identifiers alone. *)
Lemma lookupTeamName_ids metadata r :
  teamId (lookupTeamName metadata r) = teamId r /\
  projectId (lookupTeamName metadata r) = projectId r /\
  assigneeId (lookupTeamName metadata r) = assigneeId r /\
  priorityId (lookupTeamName metadata r) = priorityId r.
Proof. unfold lookupTeamName. repeat split; step_cases. Qed.

Lemma lookupProjectName_ids metadata r :
  teamId (lookupProjectName metadata r) = teamId r /\
  projectId (lookupProjectName metadata r) = projectId r /\
  assigneeId (lookupProjectName metadata r) = assigneeId r /\
  priorityId (lookupProjectName metadata r) = priorityId r.
Proof. unfold lookupProjectName. repeat split; step_cases. Qed.

Lemma lookupAssigneeName_ids metadata r :
  teamId (lookupAssigneeName metadata r) = teamId r /\
  projectId (lookupAssigneeName metadata r) = projectId r /\
  assigneeId (lookupAssigneeName metadata r) = assigneeId r /\
  priorityId (lookupAssigneeName metadata r) = priorityId r.
Proof. unfold lookupAssigneeName. repeat split; step_cases. Qed.

Lemma lookupPriorityLabel_ids r :
  teamId (lookupPriorityLabel r) = teamId r /\
  projectId (lookupPriorityLabel r) = projectId r /\
  assigneeId (lookupPriorityLabel r) = assigneeId r /\
  priorityId (lookupPriorityLabel r) = priorityId r.
Proof.
  unfold lookupPriorityLabel. destruct (priorityId r) as [n|] eqn:E.
  - destruct (find _ priorities); cbn; rewrite ?E; repeat split.
  - rewrite E. repeat split.
Qed.

(** The identifiers after the four fallback steps are the identifiers of
    the result. *)
Lemma applyDefaultPreferences_ids ps metadata :
  let r := applyPriority metadata
             (applyAssignee metadata
                (applyDefaultTeam metadata
                   (applyTeamProjectFallbacks metadata ps))) in
  teamId (applyDefaultPreferences ps metadata) = teamId r /\
  projectId (applyDefaultPreferences ps metadata) = projectId r /\
  assigneeId (applyDefaultPreferences ps metadata) = assigneeId r /\
  priorityId (applyDefaultPreferences ps metadata) = priorityId r.
Proof.
  cbv zeta. unfold applyDefaultPreferences. cbn [teamId projectId assigneeId priorityId].
  set (r := applyPriority metadata _).
  destruct (lookupPriorityLabel_ids
              (lookupAssigneeName metadata
                 (lookupProjectName metadata (lookupTeamName metadata r))))
    as (-> & -> & -> & ->).
  destruct (lookupAssigneeName_ids metadata
              (lookupProjectName metadata (lookupTeamName metadata r)))
    as (-> & -> & -> & ->).
  destruct (lookupProjectName_ids metadata (lookupTeamName metadata r))
    as (-> & -> & -> & ->).
  destruct (lookupTeamName_ids metadata r) as (-> & -> & -> & ->).
  repeat split.
Qed.

Lemma applyDefaultPreferences_teamId ps metadata :
  teamId (applyDefaultPreferences ps metadata) =
  teamId (applyDefaultTeam metadata (applyTeamProjectFallbacks metadata ps)).
Proof.
  destruct (applyDefaultPreferences_ids ps metadata) as (-> & _).
  unfold applyPriority, applyAssignee.
  destruct (is_nullish (priorityId _)); destruct (is_nullish (assigneeId _));
    reflexivity.
Qed.

Lemma applyDefaultTeam_projectId metadata r :
  projectId (applyDefaultTeam metadata r) = projectId r.
Proof. unfold applyDefaultTeam. destruct (_ && _ && _); reflexivity. Qed.

Lemma applyDefaultTeam_other metadata r :
  assigneeId (applyDefaultTeam metadata r) = assigneeId r /\
  priorityId (applyDefaultTeam metadata r) = priorityId r.
Proof. unfold applyDefaultTeam. destruct (_ && _ && _); split; reflexivity. Qed.

Lemma applyTeamProjectFallbacks_other metadata r :
  assigneeId (applyTeamProjectFallbacks metadata r) = assigneeId r /\
  priorityId (applyTeamProjectFallbacks metadata r) = priorityId r.
Proof.
  unfold applyTeamProjectFallbacks.
  destruct (is_nullish (teamId r) && is_nullish (projectId r)); [split; reflexivity|].
  destruct (is_nullish (teamId r) && negb (is_nullish (projectId r))); [|split; reflexivity].
  destruct (findProject metadata r) as [[i n [[|f l]|]]|]; split; reflexivity.
Qed.

Lemma applyDefaultPreferences_projectId ps metadata :
  projectId (applyDefaultPreferences ps metadata) =
  projectId (applyTeamProjectFallbacks metadata ps).
Proof.
  destruct (applyDefaultPreferences_ids ps metadata) as (_ & -> & _).
  unfold applyPriority, applyAssignee.
  destruct (is_nullish (priorityId _)); destruct (is_nullish (assigneeId _));
    cbn [projectId set_priorityId set_assigneeId];
    apply applyDefaultTeam_projectId.
Qed.

Lemma applyDefaultPreferences_assigneeId ps metadata :
  assigneeId (applyDefaultPreferences ps metadata) =
  if is_nullish (assigneeId ps) then usersChoice metadata else assigneeId ps.
Proof.
  destruct (applyDefaultPreferences_ids ps metadata) as (_ & _ & -> & _).
  pose proof (applyDefaultTeam_other metadata
                (applyTeamProjectFallbacks metadata ps)) as [Ha _].
  pose proof (applyTeamProjectFallbacks_other metadata ps) as [Hb _].
  unfold applyPriority, applyAssignee. rewrite Ha, Hb.
  destruct (is_nullish (assigneeId ps)) eqn:E.
  - destruct (is_nullish (priorityId _)); reflexivity.
  - destruct (is_nullish (priorityId _)); cbn; rewrite Ha, Hb; reflexivity.
Qed.

Lemma applyDefaultPreferences_priorityId ps metadata :
  priorityId (applyDefaultPreferences ps metadata) =
  if is_nullish (priorityId ps) then prioritiesChoice metadata else priorityId ps.
Proof.
  destruct (applyDefaultPreferences_ids ps metadata) as (_ & _ & _ & ->).
  pose proof (applyDefaultTeam_other metadata
                (applyTeamProjectFallbacks metadata ps)) as [_ Ha].
  pose proof (applyTeamProjectFallbacks_other metadata ps) as [_ Hb].
  assert (Hp : priorityId (applyAssignee metadata
                 (applyDefaultTeam metadata (applyTeamProjectFallbacks metadata ps)))
               = priorityId ps).
  { unfold applyAssignee. destruct (is_nullish (assigneeId _)); cbn; rewrite Ha, Hb;
      reflexivity. }
  unfold applyPriority. rewrite Hp.
  destruct (is_nullish (priorityId ps)); [reflexivity | exact Hp].
Qed.

(** With a team in the input, the team and project fallbacks do nothing. *)
Lemma applyTeamProjectFallbacks_team ps metadata v :
  teamId ps = Some v -> applyTeamProjectFallbacks metadata ps = ps.
Proof.
  intros H. unfold applyTeamProjectFallbacks. rewrite H. reflexivity.
Qed.

Lemma applyTeamProjectFallbacks_projectId ps metadata v :
  projectId ps = Some v ->
  projectId (applyTeamProjectFallbacks metadata ps) = Some v.
Proof.
  intros H. unfold applyTeamProjectFallbacks. rewrite H.
  rewrite andb_false_r. cbn [is_nullish negb].
  destruct (is_nullish (teamId ps)); cbn [andb]; [|exact H].
  destruct (findProject metadata ps) as [[i n [[|f l]|]]|]; exact H.
Qed.

(** C6. [applyDefaultPreferences] never changes a reference that the
    Parameter Resolver has set: a project, an assignee and a priority of
    the input that is not [null] is the same in the result, the priority 0
    too, and so is a team, whose identifier, as every identifier that the
    API issues, is not empty. Defaults fill the fields that were unset. *)
Theorem applyDefaultPreferences_keeps_resolved (ps : params) (metadata : prefs) :
  (forall v, projectId ps = Some v ->
             projectId (applyDefaultPreferences ps metadata) = Some v) /\
  (forall v, assigneeId ps = Some v ->
             assigneeId (applyDefaultPreferences ps metadata) = Some v) /\
  (forall v, priorityId ps = Some v ->
             priorityId (applyDefaultPreferences ps metadata) = Some v) /\
  (forall v, teamId ps = Some v -> v <> EmptyString ->
             teamId (applyDefaultPreferences ps metadata) = Some v).
Proof.
  split; [|split; [|split]].
  - intros v H. rewrite applyDefaultPreferences_projectId.
    apply applyTeamProjectFallbacks_projectId. exact H.
  - intros v H. rewrite applyDefaultPreferences_assigneeId, H. reflexivity.
  - intros v H. rewrite applyDefaultPreferences_priorityId, H. reflexivity.
  - intros v H Hne. rewrite applyDefaultPreferences_teamId.
    rewrite (@applyTeamProjectFallbacks_team ps metadata _ H). unfold applyDefaultTeam.
    rewrite H. change (truthy (Some v)) with (truthy v).
    destruct v; [congruence|]. exact H.
Qed.

(** A remark on the empty identifier, which the API does not issue and
    the statement above leaves out: a team of that identifier counts as
    unset in the test for the default team. *)
Remark applyDefaultPreferences_replaces_empty_team :
  processParameters (C := codeUnitCollator) ["-design"%string] twoTeams
    = designResolved /\
  teamId designResolved = Some EmptyString /\
  teamId (applyDefaultPreferences designResolved twoTeams) = Some "team-A"%string.
Proof.
  split; [vm_compute; reflexivity|]. split; [reflexivity|].
  vm_compute; reflexivity.
Qed.



(** A remark on the empty identifier, which the API does not issue and
    the statement above leaves out: a project of that identifier counts as
    unset in the test for the default team. *)
Remark applyDefaultPreferences_empty_project :
  processParameters (C := codeUnitCollator) ["-inbox"%string] inboxMetadata
    = inboxResolved /\
  projectId inboxResolved = Some EmptyString /\
  teamId (applyDefaultPreferences inboxResolved inboxMetadata) = Some "team-A"%string.
Proof.
  split; [vm_compute; reflexivity|]. split; [reflexivity|].
  vm_compute; reflexivity.
Qed.

(** ** Preference Store: reading *)

Section ReadFacts.
Context {J : JSONCodec}.

Lemma readPrefs_run (w : world) :
  readPrefs w = (Ret (readResult w), readWorld w).
Proof.
  destruct w as [cw de me cf we cl cr env api rq lg].
  unfold readPrefs, readResult, readWorld, bind, try_catch, ret, throw,
    process_cwd, fs_existsSync, fs_mkdirSync, fs_readFileSync, logError,
    set_logged, set_dirExists.
  cbn -[JSON_parse ensureArrays emptyPrefs].
  destruct cw as [d|e]; cbn -[JSON_parse ensureArrays emptyPrefs]; [|reflexivity].
  destruct de; cbn -[JSON_parse ensureArrays emptyPrefs].
  - destruct cf as [text|e]; cbn -[JSON_parse ensureArrays emptyPrefs]; [|reflexivity].
    destruct (JSON_parse text) as [[p|]|e]; reflexivity.
  - destruct me as [e|]; cbn -[JSON_parse ensureArrays emptyPrefs]; [reflexivity|].
    destruct cf as [text|e]; cbn -[JSON_parse ensureArrays emptyPrefs]; [|reflexivity].
    destruct (JSON_parse text) as [[p|]|e]; reflexivity.
Qed.
End ReadFacts.

(** C7. [readPrefs] does not throw: in every state of the host it returns a
    preference set. When something goes wrong while reading (the file is
    missing or unreadable, it is empty, its text is no JSON, the directory
    cannot be made, the working directory is not to be had) the set returned
    is the empty one. *)
Theorem readPrefs_fails_soft {J : JSONCodec} (w : world) :
  exists p w',
    readPrefs w = (Ret p, w') /\
    (ReadFails w -> p = emptyPrefs).
Proof.
  exists (readResult w), (readWorld w). split; [apply readPrefs_run|].
  unfold ReadFails, readResult.
  intros [(e & He) | [(Hd & e & He) | [(e & He) | [He | (text & e & Hf & He)]]]].
  - rewrite He. reflexivity.
  - rewrite Hd, He. destruct (cwd w); reflexivity.
  - rewrite He. destruct (cwd w); [|reflexivity].
    destruct (if dirExists w then None else mkdirError w); reflexivity.
  - rewrite He. destruct JSON_parse_empty as [e Hp]. rewrite Hp.
    destruct (cwd w); [|reflexivity].
    destruct (if dirExists w then None else mkdirError w); reflexivity.
  - rewrite Hf, He. destruct (cwd w); [|reflexivity].
    destruct (if dirExists w then None else mkdirError w); reflexivity.
Qed.

(** ** Staleness policy *)

Lemma noLength_NoEntities {A} (xs : option (list A)) :
  noLength xs = true <-> NoEntities xs.
Proof.
  unfold noLength, NoEntities. destruct xs as [[|x l]|]; cbn.
  - split; auto.
  - split; [discriminate|]. intros [H|H]; discriminate.
  - split; auto.
Qed.

Lemma isStale_NoEntities (metadata : prefs) :
  isStale metadata = true <->
  NoEntities (teams metadata) \/ NoEntities (projects metadata) \/
  NoEntities (users metadata).
Proof.
  unfold isStale. cbn [truthy truthy_prefs negb orb].
  rewrite !orb_true_iff, !noLength_NoEntities. tauto.
Qed.

Section FetchFacts.
Context {J : JSONCodec}.

(** [getMetadata] does not throw, and leaves the file system and the clock
    as they are. *)
Lemma getMetadata_run (linearToken : option string) (w : world) :
  exists m w',
    getMetadata linearToken w = (Ret m, w') /\
    cwd w' = cwd w /\ dirExists w' = dirExists w /\
    mkdirError w' = mkdirError w /\ writeError w' = writeError w /\
    cacheFile w' = cacheFile w.
Proof.
  destruct w as [cw de me cf we cl cr env api rq lg].
  unfold getMetadata. cbn [env_LINEAR_API_KEY].
  destruct (negb (truthy (if negb (truthy linearToken) then env else linearToken))).
  - eexists _, _. split; [reflexivity|]. repeat split.
  - unfold try_catch, bind, fetch, ret, throw, logError, logFetchResponseError,
      set_requests, set_logged.
    cbn [linearApi requests logged cwd dirExists mkdirError cacheFile writeError
         clock clockReads env_LINEAR_API_KEY].
    destruct (api _) as [[o js]|e]; cbn [ok json].
    + destruct o; cbn [negb].
      * destruct js as [[d|]|e]; eexists _, _; (split; [reflexivity|]); repeat split.
      * eexists _, _. split; [reflexivity|]. repeat split.
    + eexists _, _. split; [reflexivity|]. repeat split.
Qed.

Lemma readWorld_Writable (w : world) : Writable w -> Writable (readWorld w).
Proof.
  intros ((d & Hd) & Hdir & Hwr). unfold readWorld. rewrite Hd.
  destruct (dirExists w) eqn:E.
  - split; [exists d; exact Hd|]. split; [left; exact E | exact Hwr].
  - destruct Hdir as [Hdir|Hdir]; [discriminate|]. rewrite Hdir.
    split; [exists d; exact Hd|]. split; [left; reflexivity | exact Hwr].
Qed.
End FetchFacts.

(** Reading the preferences leaves the API, the key of the environment and
    the record of requests as they are. *)
Lemma readWorld_api {J : JSONCodec} (w : world) :
  linearApi (readWorld w) = linearApi w /\
  env_LINEAR_API_KEY (readWorld w) = env_LINEAR_API_KEY w /\
  requests (readWorld w) = requests w.
Proof.
  unfold readWorld. destruct (cwd w); [|repeat split].
  destruct (dirExists w); [repeat split|]. destruct (mkdirError w); repeat split.
Qed.

(** The answer of [getMetadata], from the key and the answer of the API. *)
Lemma getMetadata_answer (linearToken : option string) (w w' : world) (m : prefs) :
  getMetadata linearToken w = (Ret m, w') ->
  (truthy (js_or linearToken (env_LINEAR_API_KEY w)) = false ->
   m = errorPrefs "LINEAR_API_KEY is not set" /\ w' = w) /\
  (forall k, js_or linearToken (env_LINEAR_API_KEY w) = Some k -> truthy k = true ->
     requests w' = requests w ++ [k] /\ m = metadataOf (linearApi w k)).
Proof.
  destruct w as [cw de me cf we cl cr env api rq lg].
  unfold getMetadata, js_or. cbn [env_LINEAR_API_KEY linearApi requests].
  set (key := if truthy linearToken then linearToken else env).
  assert (Ek : (if negb (truthy linearToken) then env else linearToken) = key).
  { unfold key. destruct (truthy linearToken); reflexivity. }
  rewrite Ek. clear Ek. destruct key as [k|]; cbn [truthy truthy_option negb].
  2:{ intros H. inversion H; subst. split; [intros _; split; reflexivity|].
      intros k Hk. discriminate Hk. }
  destruct (truthy k) eqn:Et; cbn [negb].
  2:{ intros H. inversion H; subst. split; [intros _; split; reflexivity|].
      intros k' Hk Ht. inversion Hk; subst. congruence. }
  cbn [or_else]. rewrite Et.
  unfold try_catch, bind, fetch, ret, throw, logError, logFetchResponseError,
    set_requests, set_logged, metadataOf.
  cbn [linearApi requests logged].
  intros H. split; [discriminate|]. intros k' Hk _. inversion Hk; subst k'.
  destruct (api k) as [[o js]|e]; cbn [ok json] in *.
  - destruct o; cbn [negb] in *.
    + destruct js as [[d|]|e]; inversion H; subst; split; reflexivity.
    + inversion H; subst; split; reflexivity.
  - inversion H; subst; split; reflexivity.
Qed.

(** C8. [getUnifiedMetadata] reads the cached metadata, which always
    succeeds, and holds it stale exactly when the list of teams, of projects
    or of users is absent or empty. On a stale read, where the host lets the
    file be written, it awaits [getMetadata], has [writePrefs] write the
    answer into the cache file, and returns the answer. The answer is a
    full fetch: with a key (the token given, else the key of the
    environment) one request is sent to the API with that key, and the
    answer holds the three lists of the API's answer when that is [ok] and
    carries data, and the error otherwise; without a key no request is
    sent and the answer is the error of the missing key. Where the write
    fails, its error is thrown and nothing is returned. On a fresh read it
    returns the cached metadata as read, and does nothing but start the
    background refresh: whatever the refresh does, the value returned is the
    same. *)
Theorem getUnifiedMetadata_policy {J : JSONCodec}
    (createLinearIssueCacheAsync : option string -> world -> world)
    (linearToken : option string) (w : world) :
  exists cached w1,
    readPrefs w = (Ret cached, w1) /\
    (isStale cached = true <->
     NoEntities (teams cached) \/ NoEntities (projects cached) \/
     NoEntities (users cached)) /\
    (isStale cached = true -> Writable w ->
     exists fetched w2 written w3,
       getMetadata linearToken w1 = (Ret fetched, w2) /\
       writePrefs fetched false w2 = (Ret written, w3) /\
       cacheFile w3 = Ret (JSON_stringify written None) /\
       teams written = teams fetched /\ projects written = projects fetched /\
       users written = users fetched /\ error written = error fetched /\
       getUnifiedMetadata createLinearIssueCacheAsync linearToken w
         = (Ret fetched, w3) /\
       (truthy (js_or linearToken (env_LINEAR_API_KEY w)) = false ->
        fetched = errorPrefs "LINEAR_API_KEY is not set" /\
        requests w3 = requests w) /\
       (forall k,
          js_or linearToken (env_LINEAR_API_KEY w) = Some k -> truthy k = true ->
          requests w3 = requests w ++ [k] /\
          (forall r d, linearApi w k = Ret r -> ok r = true ->
                       json r = Ret (Some d) ->
                       fetched = fetchedPrefs d /\
                       teams fetched = Some (d_teams d) /\
                       projects fetched = Some (d_projects d) /\
                       users fetched = Some (d_users d)) /\
          (forall r, linearApi w k = Ret r -> ok r = false ->
                     fetched = errorPrefs "Failed to fetch metadata from Linear API") /\
          (forall r e, linearApi w k = Ret r -> ok r = true -> json r = Throw e ->
                       fetched = errorPrefs e) /\
          (forall r, linearApi w k = Ret r -> ok r = true -> json r = Ret None ->
                     fetched = errorPrefs undefinedDataMessage) /\
          (forall e, linearApi w k = Throw e -> fetched = errorPrefs e))) /\
    (isStale cached = true ->
     forall fetched w2 e w3,
       getMetadata linearToken w1 = (Ret fetched, w2) ->
       writePrefs fetched false w2 = (Throw e, w3) ->
       getUnifiedMetadata createLinearIssueCacheAsync linearToken w
         = (Throw e, w3)) /\
    (isStale cached = false ->
     getUnifiedMetadata createLinearIssueCacheAsync linearToken w
       = (Ret cached, createLinearIssueCacheAsync linearToken w1)).
Proof.
  exists (readResult w), (readWorld w).
  split; [apply readPrefs_run|]. split; [apply isStale_NoEntities|].
  split; [|split].
  - intros Hst HW.
    destruct (getMetadata_run linearToken (readWorld w))
      as (m & w2 & Hm & Hc & Hd & Hme & Hwe & _).
    assert (HW2 : Writable w2).
    { destruct (readWorld_Writable HW) as ((d & Hd') & Hdir & Hwr).
      split; [exists d; congruence|]. split; [|congruence].
      destruct Hdir as [Hdir|Hdir]; [left|right]; congruence. }
    destruct (readWorld_api w) as (Hapi & Henv & Hreq).
    destruct (getMetadata_answer _ _ Hm) as (Hnokey & Hkey).
    rewrite Henv in Hnokey, Hkey. rewrite Hapi, Hreq in Hkey.
    exists m, w2. eexists _, _.
    split; [exact Hm|]. split; [apply writePrefs_run; exact HW2|].
    split; [reflexivity|]. split; [reflexivity|]. split; [reflexivity|].
    split; [reflexivity|]. split; [reflexivity|].
    split.
    { unfold getUnifiedMetadata, bind at 1. rewrite readPrefs_run, Hst.
      unfold bind at 1. rewrite Hm. unfold bind at 1.
      rewrite (writePrefs_run m false HW2). reflexivity. }
    split.
    { intros Hno. destruct (Hnokey Hno) as [-> ->]. split; [reflexivity|].
      cbn [requests set_cacheFile set_dirExists set_clockReads]. exact Hreq. }
    intros k Hk Ht. destruct (Hkey k Hk Ht) as [Hrq ->].
    split; [cbn [requests set_cacheFile set_dirExists set_clockReads]; exact Hrq|].
    unfold metadataOf.
    split; [intros r d -> Ho Hj; cbn [ok json]; rewrite Ho, Hj; repeat split|].
    split; [intros r -> Ho; rewrite Ho; reflexivity|].
    split; [intros r e -> Ho Hj; rewrite Ho, Hj; reflexivity|].
    split; [intros r -> Ho Hj; rewrite Ho, Hj; reflexivity|].
    intros e ->. reflexivity.
  - intros Hst fetched w2 e w3 Hm Hwr.
    unfold getUnifiedMetadata, bind at 1. rewrite readPrefs_run, Hst.
    unfold bind at 1. rewrite Hm. unfold bind at 1. rewrite Hwr. reflexivity.
  - intros Hst. unfold getUnifiedMetadata, bind at 1.
    rewrite readPrefs_run, Hst. reflexivity.
Qed.

(** ** The store on sample hosts *)

(** A missing cache file reads as the empty preference set. *)
Example readPrefs_missing_file :
  fst (readPrefs (J := sampleCodec previousPrefs)
                 (quietWorld (Throw "ENOENT: no such file or directory"%string)))
  = Ret emptyPrefs.
Proof. reflexivity. Qed.

(** A fresh cache is returned as read, whatever the refresh does. *)
Example getUnifiedMetadata_fresh (refresh : option string -> world -> world) :
  fst (getUnifiedMetadata (J := sampleCodec previousPrefs)
         refresh (Some "lin_api_key"%string) (quietWorld (Ret previousText)))
  = Ret previousPrefs.
Proof. reflexivity. Qed.

(** With no cache file and the network down, the stale read fetches, gets
    the error, writes it and returns it. *)
Example getUnifiedMetadata_stale_offline (refresh : option string -> world -> world) :
  let run := getUnifiedMetadata (J := sampleCodec previousPrefs)
               refresh (Some "lin_api_key"%string)
               (quietWorld (Throw "ENOENT: no such file or directory"%string)) in
  fst run = Ret (errorPrefs "fetch failed") /\
  requests (snd run) = ["lin_api_key"%string] /\
  cacheFile (snd run)
  = Ret (String.append "teams:null,projects:null,users:null,error:'fetch failed',"
           (String.append "teamsChoice:null,projectsChoice:null,usersChoice:null,"
              (String.append "prioritiesChoice:null,teamsChoiceTimestamp:null,"
                 (String.append "projectsChoiceTimestamp:null,usersChoiceTimestamp:null,"
                                "prioritiesChoiceTimestamp:null")))).
Proof. repeat split. Qed.

(** Without a cache file and with the API answering, the lists of the
    answer are returned and written, after one request with the key of the
    environment. *)
Example getUnifiedMetadata_stale_online (refresh : option string -> world -> world) :
  let run := getUnifiedMetadata (J := sampleCodec previousPrefs)
               refresh None onlineWorld in
  fst run = Ret (fetchedPrefs sampleData) /\
  requests (snd run) = ["lin_api_key"%string] /\
  cacheFile (snd run) = Ret (sampleStringify (fetchedPrefs sampleData) None).
Proof. repeat split. Qed.

(** The run [ln -u -h fix the login bug] after the snapshot: the assignee
    and the priority are stamped with two readings of the clock, the team
    choice of the snapshot is written as [null] under its old timestamp. *)
Example main_writePrefs_loginBug :
  exists q,
    fst (main_writePrefs (J := sampleCodec previousPrefs)
           (processWorkflowWith (C := codeUnitCollator) loginBugInput previousPrefs)
           false (quietWorld (Ret previousText))) = Ret q /\
    teamsChoice q = None /\
    teamsChoiceTimestamp q = Some 1600000000000 /\
    usersChoice q = Some "user-1"%string /\
    usersChoiceTimestamp q = Some 1700000000000 /\
    prioritiesChoice q = Some 2 /\
    prioritiesChoiceTimestamp q = Some 1700000000001.
Proof. eexists. split; [vm_compute; reflexivity|]. repeat split. Qed.

(** The run [ln -website fix the header]: the project is resolved, no team
    is named, and the team is the first owner of the project. *)
Example processWorkflowWith_website :
  let wf := processWorkflowWith (C := codeUnitCollator)
              "ln -website fix the header" twoTeams in
  e_projectId (w_explicitChoices wf) = Some "proj-W"%string /\
  e_teamId (w_explicitChoices wf) = None /\
  projectId (w_params wf) = Some "proj-W"%string /\
  teamId (w_params wf) = Some "team-A"%string /\
  teamName (w_params wf) = Some "Core"%string /\
  w_title wf = "fix the header"%string.
Proof. vm_compute. repeat split. Qed.

(* ================================================================== *)
(** * Further properties of the code                                   *)
(* ================================================================== *)

(** What the code shows beside the specification: on the embedding above,
    and on the embeddings of the command [main] with [createIssueMutation]
    ([src/create-linear-issue-mutation.js]) and of the result filters
    ([src/filter-logic.js], in its later version). *)

(** ** Normalizer *)

Ltac each_char c :=
  destruct c as [[] [] [] [] [] [] [] []]; vm_compute; reflexivity.

Lemma lowerChar_idem c : JS.lowerChar (JS.lowerChar c) = JS.lowerChar c.
Proof. each_char c. Qed.

Lemma isSeparator_lowerChar c : isSeparator (JS.lowerChar c) = isSeparator c.
Proof. each_char c. Qed.

Lemma isSpace_lowerChar c : JS.isSpace (JS.lowerChar c) = JS.isSpace c.
Proof. each_char c. Qed.

Lemma toLowerCase_idem s : JS.toLowerCase (JS.toLowerCase s) = JS.toLowerCase s.
Proof.
  induction s as [|c r IH]; simpl; [reflexivity|].
  rewrite lowerChar_idem, IH. reflexivity.
Qed.

Lemma removeAll_toLowerCase s :
  JS.removeAll isSeparator (JS.toLowerCase s)
  = JS.toLowerCase (JS.removeAll isSeparator s).
Proof.
  induction s as [|c r IH]; simpl; [reflexivity|].
  rewrite isSeparator_lowerChar. destruct (isSeparator c); simpl; rewrite IH; reflexivity.
Qed.

Lemma removeAll_idem cls s : JS.removeAll cls (JS.removeAll cls s) = JS.removeAll cls s.
Proof.
  induction s as [|c r IH]; simpl; [reflexivity|].
  destruct (cls c) eqn:E; simpl; rewrite ?E, IH; reflexivity.
Qed.

Lemma removeAll_chars cls s c :
  In c (list_ascii_of_string (JS.removeAll cls s)) -> cls c = false.
Proof.
  induction s as [|d r IH]; simpl; [tauto|].
  destruct (cls d) eqn:E; simpl; [exact IH|]. intros [<-|H]; auto.
Qed.

Lemma sanitise_idem s : sanitise (sanitise s) = sanitise s.
Proof.
  unfold sanitise. rewrite removeAll_toLowerCase, removeAll_idem, toLowerCase_idem.
  reflexivity.
Qed.

(** X1. The normal form of [sanitise]: normalizing twice is normalizing
    once; no white space, underscore or hyphen is left, and [toLowerCase]
    changes the normal form no more; and [fuzzyMatch] sees its two
    arguments through their normal forms only. *)
Theorem sanitise_normal_form (s : string) :
  sanitise (sanitise s) = sanitise s /\
  (forall c, In c (list_ascii_of_string (sanitise s)) -> isSeparator c = false) /\
  JS.toLowerCase (sanitise s) = sanitise s /\
  (forall t, fuzzyMatch (sanitise s) t = fuzzyMatch s t /\
             fuzzyMatch t (sanitise s) = fuzzyMatch t s).
Proof.
  split; [apply sanitise_idem|]. split; [|split].
  - intros c Hc. unfold sanitise in Hc.
    rewrite <- removeAll_toLowerCase in Hc. apply removeAll_chars in Hc. exact Hc.
  - unfold sanitise. apply toLowerCase_idem.
  - intros t. unfold fuzzyMatch. rewrite sanitise_idem. split; reflexivity.
Qed.

(** ** Prefix matching *)

Lemma prefix_refl s : String.prefix s s = true.
Proof.
  induction s as [|c r IH]; simpl; [reflexivity|].
  destruct (ascii_dec c c); [exact IH | congruence].
Qed.

Lemma prefix_trans a b c :
  String.prefix a b = true -> String.prefix b c = true -> String.prefix a c = true.
Proof.
  revert b c. induction a as [|x a IH]; intros b c Hab Hbc.
  - destruct c; reflexivity.
  - destruct b as [|y b]; [discriminate|]. destruct c as [|z c]; [discriminate|].
    simpl in *. destruct (ascii_dec x y); [|discriminate]. subst y.
    destruct (ascii_dec x z); [|discriminate]. eapply IH; eauto.
Qed.

Lemma prefix_append a b : String.prefix a (String.append a b) = true.
Proof.
  induction a as [|x a IH]; simpl; [destruct b; reflexivity|].
  destruct (ascii_dec x x); [exact IH | congruence].
Qed.

Lemma prefix_length a b :
  String.prefix a b = true -> (String.length a <= String.length b)%nat.
Proof.
  revert b. induction a as [|x a IH]; intros b H; simpl; [lia|].
  destruct b as [|y b]; [discriminate|]. simpl in *.
  destruct (ascii_dec x y); [|discriminate]. specialize (IH b H). lia.
Qed.

Lemma prefix_same_length a b :
  String.prefix a b = true -> String.length a = String.length b -> a = b.
Proof.
  revert b. induction a as [|x a IH]; intros b H L.
  - destruct b; [reflexivity | discriminate].
  - destruct b as [|y b]; [discriminate|]. simpl in *.
    destruct (ascii_dec x y); [|discriminate]. subst. f_equal. apply IH; [exact H | lia].
Qed.

(** X2. [fuzzyMatch] is a prefix order on normal forms: every string matches
    itself, and every term that normalizes to nothing; matching is
    transitive; and two strings that match each other have the same normal
    form, which is the exact match of [findBestMatch]. *)
Theorem fuzzyMatch_prefix_order (s t u : string) :
  fuzzyMatch s s = true /\
  (sanitise t = EmptyString -> fuzzyMatch s t = true) /\
  (fuzzyMatch s t = true -> fuzzyMatch t u = true -> fuzzyMatch s u = true) /\
  (fuzzyMatch s t = true -> fuzzyMatch t s = true -> sanitise s = sanitise t).
Proof.
  unfold fuzzyMatch, JS.startsWith. split; [apply prefix_refl|].
  split; [intros ->; destruct (sanitise s); reflexivity|].
  split; [intros H1 H2; eapply prefix_trans; eassumption|].
  intros H1 H2. symmetry. apply prefix_same_length; [exact H1|].
  apply prefix_length in H1. apply prefix_length in H2. lia.
Qed.

(** ** The plain matchers and the ranking matcher *)

Section MatcherAgreement.
Context {C : Collator} {A : Type}.
Variable strs : A -> list (option string).

Lemma existsb_fuzzy_Qualifies term x :
  existsb (fun s => fuzzyMatch s term) (filterBoolean (strs x)) = true <->
  Qualifies strs term x.
Proof.
  rewrite existsb_exists. unfold Qualifies, QualifyingString, Matchable,
    PrefixMatch, ExactMatch. split.
  - intros (s & Hs & Hf). apply filterBoolean_In in Hs. exists s. split; [exact Hs|].
    left. exact Hf.
  - intros (s & Hs & [Hf|He]); exists s; (split; [apply filterBoolean_In; exact Hs|]).
    + exact Hf.
    + unfold fuzzyMatch, JS.startsWith. rewrite He. apply prefix_refl.
Qed.

(** The ranking matcher answers exactly when the plain one does, with an
    item that the plain matcher takes. *)
Lemma findBestMatch_findMatch (matcher : A -> string -> bool) word coll :
  (forall x, In x coll ->
     matcher x word
     = existsb (fun s => fuzzyMatch s (JS.substring1 word)) (filterBoolean (strs x))) ->
  (findMatch word coll matcher = None <-> findBestMatch strs word coll = None) /\
  (forall x, findBestMatch strs word coll = Some x ->
             In x coll /\ matcher x word = true).
Proof.
  intros Hm. split.
  - unfold findMatch. destruct word as [|ch w] eqn:Ew; [split; reflexivity|].
    cbn [truthy truthy_string negb]. rewrite <- Ew in *. split.
    + intros Hn. apply findBestMatch_none. intros c Hc Hq.
      pose proof (find_none _ _ Hn c Hc) as Hf. cbv beta in Hf.
      rewrite (Hm c Hc) in Hf. apply existsb_fuzzy_Qualifies in Hq. congruence.
    + intros Hn. destruct (find _ coll) as [x|] eqn:Ef; [|reflexivity].
      apply find_some in Ef. destruct Ef as [Hx Hf]. rewrite (Hm x Hx) in Hf.
      apply existsb_fuzzy_Qualifies in Hf.
      destruct (@findBestMatch_some C A strs word coll) as [r Hr].
      * rewrite Ew. discriminate.
      * exists x. auto.
      * congruence.
  - intros x Hx. apply findBestMatch_first in Hx. destruct Hx as (Hin & Hq & _).
    split; [exact Hin|]. rewrite (Hm x Hin). apply existsb_fuzzy_Qualifies. exact Hq.
Qed.
End MatcherAgreement.

(** X3. The matcher with ranking, [findBestMatch] as [processParameters]
    calls it, and the plain matchers of [matchers] with [findMatch] agree on
    whether a token names something: for teams, users and the priority
    table the one finds nothing exactly when the other finds nothing, and
    what [findBestMatch] returns is an item of the collection that the plain
    matcher takes. *)
Theorem findBestMatch_agrees_with_matchers {C : Collator} (word : string)
    (ts : list team) (us : list user) :
  ((findMatch word ts matchers_teams = None <->
    findBestMatch teamStrings word ts = None) /\
   (forall t, findBestMatch teamStrings word ts = Some t ->
              In t ts /\ matchers_teams t word = true)) /\
  ((findMatch word us matchers_users = None <->
    findBestMatch userStrings word us = None) /\
   (forall u, findBestMatch userStrings word us = Some u ->
              In u us /\ matchers_users u word = true)) /\
  ((findMatch word priorities matchers_priorities = None <->
    findBestMatch priorityStrings word priorities = None) /\
   (forall p, findBestMatch priorityStrings word priorities = Some p ->
              In p priorities /\ matchers_priorities p word = true)).
Proof.
  split; [|split].
  - apply findBestMatch_findMatch. intros x _. reflexivity.
  - apply findBestMatch_findMatch. intros x _. reflexivity.
  - apply findBestMatch_findMatch. intros p Hp.
    unfold matchers_priorities, priorityStrings. cbn [filterBoolean].
    assert (Hl : truthy (p_label p) = true).
    { simpl in Hp. repeat (destruct Hp as [<-|Hp]; [reflexivity|]). contradiction. }
    rewrite Hl. cbn [existsb]. rewrite orb_false_r. reflexivity.
Qed.

(** ** Input Parser *)

Lemma Subseq_refl {A} (l : list A) : Subseq l l.
Proof. induction l; [apply Subseq_nil | apply Subseq_keep; assumption]. Qed.

Lemma Subseq_trans {A} (l m n : list A) : Subseq l m -> Subseq m n -> Subseq l n.
Proof.
  intros H1 H2. revert l H1. induction H2; intros l0 H1.
  - exact H1.
  - constructor. apply IHSubseq. exact H1.
  - inversion H1; subst.
    + apply Subseq_skip. apply IHSubseq. assumption.
    + apply Subseq_keep. apply IHSubseq. assumption.
Qed.

Lemma Subseq_filter {A} (f : A -> bool) (l : list A) : Subseq (filter f l) l.
Proof.
  induction l as [|x l IH]; simpl; [constructor|].
  destruct (f x); [apply Subseq_keep | apply Subseq_skip]; exact IH.
Qed.

Lemma Subseq_In {A} (l m : list A) x : Subseq l m -> In x l -> In x m.
Proof.
  induction 1; simpl; intros Hx; [contradiction | right; auto |].
  destruct Hx as [->|Hx]; [left; reflexivity | right; auto].
Qed.

Lemma Subseq_app_l {A} (p l m : list A) : Subseq l m -> Subseq (p ++ l) (p ++ m).
Proof. induction p; simpl; intros H; [exact H | apply Subseq_keep; auto]. Qed.

Lemma Subseq_splice1 {A} (i : nat) (l : list A) : Subseq (splice1 i l) l.
Proof.
  unfold splice1. revert i. induction l as [|x l IH]; intros i.
  - destruct i; simpl; constructor.
  - destruct i as [|i]; simpl.
    + apply Subseq_skip. apply Subseq_refl.
    + apply Subseq_keep. apply IH.
Qed.

Lemma splice1_length {A} (i : nat) (l : list A) (x : A) :
  nth_error l i = Some x -> List.length l = S (List.length (splice1 i l)).
Proof.
  unfold splice1. revert i. induction l as [|y l IH]; intros i H.
  - destruct i; discriminate.
  - destruct i as [|i]; simpl in *.
    + reflexivity.
    + rewrite (IH i H) at 1. reflexivity.
Qed.

Lemma filter_partition_Permutation {A} (f g : A -> bool) (l : list A) :
  (forall x, g x = negb (f x)) ->
  Permutation (filter f l ++ filter g l) l.
Proof.
  intros Hg. induction l as [|x l IH]; simpl; [constructor|].
  rewrite Hg. destruct (f x); simpl.
  - constructor. exact IH.
  - apply Permutation_sym, Permutation_cons_app, Permutation_sym. exact IH.
Qed.

Lemma startsWith_dash word :
  JS.startsWith word "-" = true <-> exists rest, word = String "-"%char rest.
Proof.
  unfold JS.startsWith. destruct word as [|c r]; cbn [String.prefix].
  - split; [intros H; discriminate H | intros (rest & H); discriminate H].
  - destruct (ascii_dec "-"%char c) as [<-|Hne].
    + split; [intros _; exists r; reflexivity | intros _; destruct r; reflexivity].
    + split; [intros H; discriminate H | intros (rest & H); inversion H; congruence].
Qed.

Lemma isTitleWord_isParamWord word : isTitleWord word = negb (isParamWord word).
Proof.
  unfold isTitleWord, isParamWord.
  destruct (JS.startsWith word "-") eqn:E; cbn [negb andb orb]; [|reflexivity].
  apply startsWith_dash in E. destruct E as (rest & ->).
  unfold JS.length. cbn [String.length]. destruct rest as [|c r]; cbn [String.length].
  - reflexivity.
  - destruct (Z.eqb_spec (Z.of_nat (S (S (String.length r)))) 1); [lia|].
    destruct (Z.ltb_spec 1 (Z.of_nat (S (S (String.length r))))); [reflexivity | lia].
Qed.

(** X4. [parseInput] sorts the words of the input into two groups and
    loses none: the flag tokens followed by the title words are a
    rearrangement of the words, and each group keeps the order of the
    input. A flag token is a dash followed by at least one character; a
    title word is the lone dash or does not start with a dash. *)
Theorem parseInput_partition (input : string) :
  let p := parseInput input in
  Permutation (paramWords p ++ titleWords p) (inputWords input) /\
  Subseq (paramWords p) (inputWords input) /\
  Subseq (titleWords p) (inputWords input) /\
  (forall w, In w (paramWords p) ->
             exists c rest, w = String "-"%char (String c rest)) /\
  (forall w, In w (titleWords p) ->
             w = "-"%string \/ forall rest, w <> String "-"%char rest).
Proof.
  cbv zeta. unfold parseInput, inputWords. cbn [paramWords titleWords].
  split; [apply filter_partition_Permutation; apply isTitleWord_isParamWord|].
  split; [apply Subseq_filter|]. split; [apply Subseq_filter|]. split.
  - intros w Hw. apply filter_In in Hw. destruct Hw as [_ Hw].
    unfold isParamWord in Hw. apply andb_true_iff in Hw. destruct Hw as [Hd Hl].
    apply startsWith_dash in Hd. destruct Hd as (rest & ->).
    destruct rest as [|c r]; [discriminate|]. exists c, r. reflexivity.
  - intros w Hw. apply filter_In in Hw. destruct Hw as [_ Hw].
    unfold isTitleWord in Hw. apply orb_true_iff in Hw. destruct Hw as [Hd|Hl].
    + right. intros rest ->. apply negb_true_iff in Hd.
      assert (JS.startsWith (String "-" rest) "-" = true)
        by (apply startsWith_dash; eexists; reflexivity).
      congruence.
    + destruct w as [|c [|d r]].
      * discriminate.
      * destruct (ascii_dec c "-"%char) as [->|Hne]; [left; reflexivity|].
        right. intros rest H. inversion H. congruence.
      * exfalso. unfold JS.length in Hl. cbn [String.length] in Hl.
        apply Z.eqb_eq in Hl. lia.
Qed.

(** ** Parameter Resolver *)

Section ResolverFacts.
Context {C : Collator}.
Variable metadata : prefs.

(** A pass either leaves the result alone, no word of the pool matching, or
    takes the last word of the pool that matches. *)
Lemma scanWords_cases (key : kind) (r : params) (n : nat) :
  (scanWords key metadata r n = r /\
   forall i w, (i < n)%nat -> nth_error (unmatched r) i = Some w ->
               matchWord key metadata r w = None) \/
  (exists i w r',
     (i < n)%nat /\ nth_error (unmatched r) i = Some w /\
     matchWord key metadata r w = Some r' /\
     (forall j v, (i < j < n)%nat -> nth_error (unmatched r) j = Some v ->
                  matchWord key metadata r v = None) /\
     scanWords key metadata r n = setUnmatched (splice1 i (unmatched r)) r').
Proof.
  induction n as [|n IH]; simpl.
  - left. split; [reflexivity|]. intros i w Hi. lia.
  - destruct (nth_error (unmatched r) n) as [word|] eqn:En.
    + destruct (matchWord key metadata r word) as [r'|] eqn:Em.
      * right. exists n, word, r'. split; [lia|]. split; [exact En|].
        split; [exact Em|]. split; [intros j v Hj; lia | reflexivity].
      * destruct IH as [[Hr Hall] | (i & w & r' & Hi & Hn & Hm & Hlast & Hs)].
        -- left. split; [exact Hr|]. intros i w Hi Hw.
           destruct (Nat.eq_dec i n) as [->|Hne]; [congruence|].
           apply (Hall i w); [lia | exact Hw].
        -- right. exists i, w, r'. split; [lia|]. split; [exact Hn|].
           split; [exact Hm|]. split; [|exact Hs].
           intros j v Hj Hv. destruct (Nat.eq_dec j n) as [->|Hne]; [congruence|].
           apply (Hlast j v); [lia | exact Hv].
    + destruct IH as [[Hr Hall] | (i & w & r' & Hi & Hn & Hm & Hlast & Hs)].
      * left. split; [exact Hr|]. intros i w Hi Hw.
        destruct (Nat.eq_dec i n) as [->|Hne]; [congruence|].
        apply (Hall i w); [lia | exact Hw].
      * right. exists i, w, r'. split; [lia|]. split; [exact Hn|].
        split; [exact Hm|]. split; [|exact Hs].
        intros j v Hj Hv. destruct (Nat.eq_dec j n) as [->|Hne]; [congruence|].
        apply (Hlast j v); [lia | exact Hv].
Qed.

Lemma matchWord_matchedBy key r w r' :
  matchWord key metadata r w = Some r' -> matchedBy metadata key r w r'.
Proof.
  destruct key; simpl; intros H.
  - destruct (findBestMatch priorityStrings w priorities) as [p|]; [|discriminate].
    inversion H. eauto.
  - destruct (findBestMatch userStrings w _) as [u|]; [|discriminate].
    inversion H. eauto.
  - destruct (findBestMatch teamStrings w _) as [t|]; [|discriminate].
    inversion H. eauto.
  - destruct (findBestMatch projectStrings w _) as [p|]; [|discriminate].
    inversion H. eauto.
Qed.

(** One pass, said by its effect: nothing, or one word taken out of the
    pool and the reference of the kind set from the match. *)
Lemma processKind_cases (key : kind) (r : params) :
  processKind metadata r key = r \/
  exists i w r',
    nth_error (unmatched r) i = Some w /\
    matchedBy metadata key r w r' /\
    processKind metadata r key = setUnmatched (splice1 i (unmatched r)) r'.
Proof.
  unfold processKind.
  destruct (scanWords_cases key r (List.length (unmatched r)))
    as [[Hr _] | (i & w & r' & _ & Hn & Hm & _ & Hs)].
  - left. exact Hr.
  - right. exists i, w, r'. split; [exact Hn|]. split; [|exact Hs].
    apply matchWord_matchedBy. exact Hm.
Qed.
End ResolverFacts.

Section ResolverInvariant.
Context {C : Collator}.
Variable metadata : prefs.
Variable pw : list string.

Lemma nth_error_pool (r : params) i w :
  Subseq (unmatched r) pw -> nth_error (unmatched r) i = Some w -> In w pw.
Proof.
  intros Hs Hn. eapply Subseq_In; [exact Hs|]. eapply nth_error_In. exact Hn.
Qed.

Lemma ResolverInv_step (key : kind) (r : params) :
  ResolverInv metadata pw r ->
  fieldUnset key r ->
  (key = Projects \/ projectId r = None) ->
  ResolverInv metadata pw (processKind metadata r key) /\
  (forall k, k <> key -> fieldUnset k r -> fieldUnset k (processKind metadata r key)).
Proof.
  intros (Hsub & Hlen & Hp & Hu & Ht & Hj) Hunset Hproj.
  destruct (processKind_cases metadata key r) as [-> | (i & w & r' & Hn & Hm & ->)].
  { split; [repeat split; assumption | intros k _ Hk; exact Hk]. }
  pose proof (nth_error_pool r i Hsub Hn) as Hw.
  pose proof (splice1_length i (unmatched r) Hn) as Hl.
  assert (Hsub' : Subseq (splice1 i (unmatched r)) pw).
  { eapply Subseq_trans; [apply Subseq_splice1 | exact Hsub]. }
  destruct key; simpl in Hm, Hunset; destruct Hm as (x & Hx & ->);
    apply findBestMatch_first in Hx; destruct Hx as (Hin & Hq & _).
  - (* priorities *)
    split; [|intros k Hk; destruct k; simpl; auto; congruence].
    split; [exact Hsub'|]. split.
    { unfold resolvedCount in *. simpl. rewrite Hunset in Hlen. simpl in Hlen. lia. }
    split; [|split; [|split]]; simpl.
    + intros n Hn'. inversion Hn'; subst. exists x, w. repeat split; assumption.
    + exact Hu.
    + exact Ht.
    + exact Hj.
  - (* users *)
    split; [|intros k Hk; destruct k; simpl; auto; congruence].
    split; [exact Hsub'|]. split.
    { unfold resolvedCount in *. simpl. rewrite Hunset in Hlen. simpl in Hlen. lia. }
    split; [|split; [|split]]; simpl.
    + exact Hp.
    + intros id Hid. inversion Hid; subst. exists x, w. repeat split; assumption.
    + exact Ht.
    + exact Hj.
  - (* teams *)
    destruct Hproj as [Hproj|Hproj]; [discriminate|].
    split; [|intros k Hk; destruct k; simpl; auto; congruence].
    split; [exact Hsub'|]. split.
    { unfold resolvedCount in *. simpl. rewrite Hunset in Hlen. simpl in Hlen. lia. }
    split; [|split; [|split]]; simpl.
    + exact Hp.
    + exact Hu.
    + intros id Hid. inversion Hid; subst. exists x, w. repeat split; assumption.
    + intros id Hid. congruence.
  - (* projects *)
    split; [|intros k Hk; destruct k; simpl; auto; congruence].
    split; [exact Hsub'|]. split.
    { unfold resolvedCount in *. simpl. rewrite Hunset in Hlen. simpl in Hlen. lia. }
    unfold filteredProjects in Hin. apply filter_In in Hin. destruct Hin as [Hin Hown].
    split; [|split; [|split]]; simpl.
    + exact Hp.
    + exact Hu.
    + exact Ht.
    + intros id Hid. inversion Hid; subst. exists x, w.
      repeat split; try assumption.
      intros tid Htid. rewrite Htid in Hown. exact Hown.
Qed.

Lemma ResolverInv_processParameters :
  ResolverInv metadata pw (fold_left (processKind metadata) processingOrder
                         {| teamId := None; projectId := None; assigneeId := None;
                            priorityId := None;
                            teamName := None; projectName := None;
                            assigneeName := None; priorityLabel := None;
                            unmatched := pw |}).
Proof.
  set (r0 := {| teamId := None; projectId := None; assigneeId := None;
                priorityId := None; teamName := None; projectName := None;
                assigneeName := None; priorityLabel := None; unmatched := pw |}).
  assert (H0 : ResolverInv metadata pw r0).
  { unfold r0. split; [apply Subseq_refl|].
    split; [unfold resolvedCount; simpl; lia|].
    repeat split; simpl; intros ? H; discriminate H. }
  unfold processingOrder. cbn [fold_left].
  destruct (@ResolverInv_step Priorities r0 H0 eq_refl (or_intror eq_refl)) as [H1 F1].
  set (r1 := processKind metadata r0 Priorities) in *.
  assert (U1 : fieldUnset Users r1) by (apply F1; [discriminate | reflexivity]).
  assert (T1 : fieldUnset Teams r1) by (apply F1; [discriminate | reflexivity]).
  assert (P1 : fieldUnset Projects r1) by (apply F1; [discriminate | reflexivity]).
  destruct (@ResolverInv_step Users r1 H1 U1 (or_intror P1)) as [H2 F2].
  set (r2 := processKind metadata r1 Users) in *.
  assert (T2 : fieldUnset Teams r2) by (apply F2; [discriminate | exact T1]).
  assert (P2 : fieldUnset Projects r2) by (apply F2; [discriminate | exact P1]).
  destruct (@ResolverInv_step Teams r2 H2 T2 (or_intror P2)) as [H3 F3].
  set (r3 := processKind metadata r2 Teams) in *.
  assert (P3 : fieldUnset Projects r3) by (apply F3; [discriminate | exact P2]).
  destruct (@ResolverInv_step Projects r3 H3 P3 (or_introl eq_refl)) as [H4 _].
  exact H4.
Qed.
End ResolverInvariant.

(** X5. [processParameters] loses no token and takes at most one for each
    kind: the tokens left unmatched are tokens of the input in their
    order, and the tokens of the input are as many as the tokens left and
    the references set, of which there are four at most. With no token
    nothing is set. *)
Theorem processParameters_conservation {C : Collator}
    (paramWords : list string) (metadata : prefs) :
  let ps := processParameters paramWords metadata in
  Subseq (unmatched ps) paramWords /\
  List.length paramWords = (List.length (unmatched ps) + resolvedCount ps)%nat /\
  (resolvedCount ps <= 4)%nat /\
  (paramWords = [] -> ps = initialResults []).
Proof.
  cbv zeta. destruct (ResolverInv_processParameters metadata paramWords) as (Hs & Hl & _).
  split; [exact Hs|]. split; [exact Hl|]. split.
  - unfold resolvedCount, isSet.
    destruct (teamId _), (projectId _), (assigneeId _), (priorityId _); simpl; lia.
  - intros ->. reflexivity.
Qed.

(** X6. What [processParameters] resolves comes from the metadata and from
    the tokens: a priority is an entry of the priority table, its
    identifier between 0 and 4; an assignee, a team and a project are
    entities of the metadata, set with their names; for each of them some
    flag token of the input qualifies; and a project resolved beside a team
    is owned by that team. *)
Theorem processParameters_sound {C : Collator}
    (paramWords : list string) (metadata : prefs) :
  let ps := processParameters paramWords metadata in
  ResolvedFrom paramWords metadata ps /\
  (forall n, priorityId ps = Some n -> 0 <= n <= 4).
Proof.
  cbv zeta. destruct (ResolverInv_processParameters metadata paramWords) as (_ & _ & Hr).
  split; [exact Hr|]. intros n Hn. destruct Hr as (Hp & _).
  destruct (Hp n Hn) as (p & w & Hin & <- & _).
  simpl in Hin. repeat (destruct Hin as [<-|Hin]; [simpl; lia|]). contradiction.
Qed.

Section ResolverPrecedence.
Context {C : Collator}.
Variable metadata : prefs.

Lemma processKind_Subseq (key : kind) (r : params) :
  Subseq (unmatched (processKind metadata r key)) (unmatched r).
Proof.
  destruct (processKind_cases metadata key r) as [-> | (i & w & r' & _ & _ & ->)].
  - apply Subseq_refl.
  - apply Subseq_splice1.
Qed.

Lemma processKind_priority_kept (key : kind) (r : params) :
  key <> Priorities ->
  priorityId (processKind metadata r key) = priorityId r /\
  priorityLabel (processKind metadata r key) = priorityLabel r.
Proof.
  intros Hk.
  destruct (processKind_cases metadata key r) as [-> | (i & w & r' & _ & Hm & ->)].
  - split; reflexivity.
  - destruct key; [congruence| | |]; simpl in Hm; destruct Hm as (x & _ & ->);
      split; reflexivity.
Qed.

Lemma nth_error_middle {A} (pre post : list A) (w : A) i v :
  nth_error (pre ++ w :: post) i = Some v ->
  (i < List.length pre)%nat \/ (i = List.length pre /\ v = w) \/
  ((List.length pre < i)%nat /\ In v post).
Proof.
  intros H. destruct (Nat.lt_trichotomy i (List.length pre)) as [Hl|[He|Hg]].
  - left. exact Hl.
  - right. left. split; [exact He|]. subst i. rewrite nth_error_app2 in H by lia.
    rewrite Nat.sub_diag in H. simpl in H. congruence.
  - right. right. split; [exact Hg|]. rewrite nth_error_app2 in H by lia.
    destruct (i - List.length pre)%nat as [|k] eqn:Ek; [lia|]. simpl in H.
    eapply nth_error_In. exact H.
Qed.

Lemma splice1_middle {A} (pre post : list A) (w : A) :
  splice1 (List.length pre) (pre ++ w :: post) = pre ++ post.
Proof.
  unfold splice1. induction pre as [|x pre IH]; simpl.
  - reflexivity.
  - f_equal. exact IH.
Qed.

(** The priorities pass on the tokens of the input. *)
Lemma priorities_pass_none (pw : list string) :
  (forall w, In w pw -> findBestMatch priorityStrings w priorities = None) ->
  processKind metadata (initialResults pw) Priorities = initialResults pw.
Proof.
  intros Hnone. unfold processKind.
  destruct (scanWords_cases metadata Priorities (initialResults pw)
              (List.length (unmatched (initialResults pw))))
    as [[Hr _] | (i & w & r' & _ & Hn & Hm & _)]; [exact Hr|].
  exfalso. simpl in Hn, Hm. rewrite (Hnone w) in Hm; [discriminate|].
  eapply nth_error_In. exact Hn.
Qed.

Lemma priorities_pass_last (pre post : list string) (w : string) (p : priority) :
  findBestMatch priorityStrings w priorities = Some p ->
  (forall v, In v post -> findBestMatch priorityStrings v priorities = None) ->
  processKind metadata (initialResults (pre ++ w :: post)) Priorities
  = setUnmatched (pre ++ post) (setPriority p (initialResults (pre ++ w :: post))).
Proof.
  intros Hw Hpost. unfold processKind.
  assert (Hk : nth_error (pre ++ w :: post) (List.length pre) = Some w).
  { rewrite nth_error_app2 by lia. rewrite Nat.sub_diag. reflexivity. }
  destruct (scanWords_cases metadata Priorities (initialResults (pre ++ w :: post))
              (List.length (unmatched (initialResults (pre ++ w :: post)))))
    as [[_ Hall] | (i & v & r' & Hi & Hn & Hm & Hlast & ->)].
  - exfalso. specialize (Hall (List.length pre) w). simpl in Hall.
    rewrite Hw in Hall. simpl in Hall.
    assert (H : Some (setPriority p (initialResults (pre ++ w :: post))) = None).
    { apply Hall; [rewrite length_app; simpl; lia | exact Hk]. }
    discriminate H.
  - simpl in Hn, Hm, Hlast, Hi.
    destruct (nth_error_middle pre post w i Hn) as [Hl | [[-> ->] | [Hg Hin]]].
    + exfalso. specialize (Hlast (List.length pre) w). rewrite Hw in Hlast.
      simpl in Hlast.
      assert (H : Some (setPriority p (initialResults (pre ++ w :: post))) = None).
      { apply Hlast; [rewrite length_app in *; simpl in *; lia | exact Hk]. }
      discriminate H.
    + rewrite Hw in Hm. simpl in Hm. inversion Hm. simpl.
      rewrite splice1_middle. reflexivity.
    + exfalso. rewrite (Hpost v Hin) in Hm. discriminate Hm.
Qed.
End ResolverPrecedence.

(** X7. The priorities pass comes first and reads the tokens from the
    last: when no flag token matches a label of the priority table no
    priority is set; otherwise the priority is the one that the last such
    token matches, whatever else that token could have named, and the
    other passes see the remaining tokens only. *)
Theorem processParameters_priority_first {C : Collator} (metadata : prefs) :
  (forall pw,
     (forall w, In w pw -> findBestMatch priorityStrings w priorities = None) ->
     priorityId (processParameters pw metadata) = None) /\
  (forall pre w post p,
     findBestMatch priorityStrings w priorities = Some p ->
     (forall v, In v post -> findBestMatch priorityStrings v priorities = None) ->
     let ps := processParameters (pre ++ w :: post) metadata in
     priorityId ps = Some (p_id p) /\
     priorityLabel ps = Some (p_label p) /\
     Subseq (unmatched ps) (pre ++ post)).
Proof.
  split.
  - intros pw Hnone. unfold processParameters, processingOrder. cbn [fold_left].
    rewrite (priorities_pass_none metadata pw Hnone).
    destruct (@processKind_priority_kept C metadata Projects
                (processKind metadata
                   (processKind metadata (initialResults pw) Users) Teams))
      as [-> _]; [discriminate|].
    destruct (@processKind_priority_kept C metadata Teams
                (processKind metadata (initialResults pw) Users))
      as [-> _]; [discriminate|].
    destruct (@processKind_priority_kept C metadata Users (initialResults pw))
      as [-> _]; [discriminate|].
    reflexivity.
  - intros pre w post p Hw Hpost. cbv zeta.
    unfold processParameters, processingOrder. cbn [fold_left].
    rewrite (priorities_pass_last metadata pre post w Hw Hpost).
    set (r1 := setUnmatched (pre ++ post) _).
    destruct (@processKind_priority_kept C metadata Projects
                (processKind metadata (processKind metadata r1 Users) Teams))
      as [-> ->]; [discriminate|].
    destruct (@processKind_priority_kept C metadata Teams (processKind metadata r1 Users))
      as [-> ->]; [discriminate|].
    destruct (@processKind_priority_kept C metadata Users (r1))
      as [-> ->]; [discriminate|].
    split; [reflexivity|]. split; [reflexivity|].
    eapply Subseq_trans; [apply processKind_Subseq|].
    eapply Subseq_trans; [apply processKind_Subseq|].
    eapply Subseq_trans; [apply processKind_Subseq|].
    apply Subseq_refl.
Qed.

(** ** Title preparation *)

Lemma append_assoc (a b c : string) :
  String.append (String.append a b) c = String.append a (String.append b c).
Proof. induction a as [|x a IH]; simpl; [reflexivity | rewrite IH; reflexivity]. Qed.

Lemma append_empty_r (a : string) : String.append a EmptyString = a.
Proof. induction a as [|x a IH]; simpl; [reflexivity | rewrite IH; reflexivity]. Qed.

Lemma splitChar_nonempty sep cur s : JS.splitChar sep cur s <> [].
Proof.
  revert cur. induction s as [|c s IH]; intros cur; simpl; [discriminate|].
  destruct (Ascii.eqb c sep); [discriminate | apply IH].
Qed.

(** Joining the pieces of a split with the separator gives the text back. *)
Lemma join_splitChar sep cur s :
  JS.join (String sep EmptyString) (JS.splitChar sep cur s) = String.append cur s.
Proof.
  unfold JS.join. revert cur. induction s as [|c s IH]; intros cur.
  - simpl. rewrite append_empty_r. reflexivity.
  - cbn [JS.splitChar]. destruct (Ascii.eqb c sep) eqn:E.
    + apply Ascii.eqb_eq in E. subst c.
      specialize (IH EmptyString).
      destruct (JS.splitChar sep EmptyString s) as [|y ys] eqn:Es.
      * exfalso. eapply splitChar_nonempty. exact Es.
      * change (String.concat (String sep EmptyString) (cur :: y :: ys))
          with (String.append cur
                  (String.append (String sep EmptyString)
                     (String.concat (String sep EmptyString) (y :: ys)))).
        rewrite IH. reflexivity.
    + rewrite IH, append_assoc. reflexivity.
Qed.

Lemma join_split sep s : JS.join (String sep EmptyString) (JS.split sep s) = s.
Proof. unfold JS.split. rewrite join_splitChar. reflexivity. Qed.

Lemma filter_all {A} (f : A -> bool) (l : list A) :
  (forall x, In x l -> f x = true) -> filter f l = l.
Proof.
  induction l as [|x l IH]; intros H; simpl; [reflexivity|].
  rewrite (H x (or_introl eq_refl)), IH; [reflexivity|].
  intros y Hy. apply H. right. exact Hy.
Qed.

Lemma filter_none {A} (f : A -> bool) (l : list A) :
  (forall x, In x l -> f x = false) -> filter f l = [].
Proof.
  induction l as [|x l IH]; intros H; simpl; [reflexivity|].
  rewrite (H x (or_introl eq_refl)). apply IH.
  intros y Hy. apply H. right. exact Hy.
Qed.

Lemma map_fixed {A} (f : A -> A) (l : list A) :
  (forall x, In x l -> f x = x) -> map f l = l.
Proof.
  induction l as [|x l IH]; intros H; simpl; [reflexivity|].
  rewrite (H x (or_introl eq_refl)), IH; [reflexivity|].
  intros y Hy. apply H. right. exact Hy.
Qed.

(** X8. An input without flag tokens, whose words carry no other white
    space at their ends, resolves nothing and keeps its text: the title is
    the input after the command name, character for character (runs of
    blanks included), no choice of the run is explicit, and no token is
    left unmatched. *)
Theorem processWorkflowWith_plain_input {C : Collator}
    (input : string) (metadata : prefs) :
  (forall w, In w (inputWords input) -> isParamWord w = false) ->
  (forall w, In w (inputWords input) -> JS.trim w = w) ->
  let wf := processWorkflowWith input metadata in
  w_title wf = stripCommand input /\
  w_explicitChoices wf =
    {| e_teamId := None; e_projectId := None;
       e_assigneeId := None; e_priorityId := None |} /\
  unmatched (w_params wf) = [].
Proof.
  intros Hflag Htrim. cbv zeta. unfold processWorkflowWith, parseInput.
  fold (inputWords input). cbn [paramWords titleWords w_title w_explicitChoices
    w_params].
  rewrite (filter_none _ _ Hflag).
  assert (Ht : filter isTitleWord (inputWords input) = inputWords input).
  { apply filter_all. intros w Hw. rewrite isTitleWord_isParamWord, (Hflag w Hw).
    reflexivity. }
  rewrite Ht.
  change (processParameters [] metadata) with (initialResults []).
  cbn [initialResults unmatched teamId projectId assigneeId priorityId app].
  split; [|split; reflexivity].
  rewrite (map_fixed _ _ Htrim). unfold inputWords. apply (join_split " "%char).
Qed.

Lemma processWorkflowWith_plain_input_witness :
  let wf := processWorkflowWith (C := codeUnitCollator)
              "ln fix the  login bug" emptyPrefs in
  w_title wf = "fix the  login bug"%string /\
  w_explicitChoices wf =
    {| e_teamId := None; e_projectId := None;
       e_assigneeId := None; e_priorityId := None |} /\
  unmatched (w_params wf) = [].
Proof.
  apply (@processWorkflowWith_plain_input codeUnitCollator
           "ln fix the  login bug" emptyPrefs).
  - intros w Hw. vm_compute in Hw.
    repeat (destruct Hw as [<- | Hw]; [reflexivity|]). destruct Hw.
  - intros w Hw. vm_compute in Hw.
    repeat (destruct Hw as [<- | Hw]; [reflexivity|]). destruct Hw.
Defined.

(** ** Default Applier: what the defaults are *)

(** X9. With neither a team nor a project in the input, the project is the
    persisted project choice and the team the persisted team choice; the
    team is not derived from the persisted project, so a persisted project
    without a persisted team leaves the team unset. The user's default team
    comes in only when both persisted choices are falsy. *)
Theorem applyDefaultPreferences_nothing_resolved (ps : params) (metadata : prefs) :
  teamId ps = None -> projectId ps = None ->
  let r := applyDefaultPreferences ps metadata in
  projectId r = projectsChoice metadata /\
  (truthy (teamsChoice metadata) = true \/ truthy (projectsChoice metadata) = true ->
   teamId r = teamsChoice metadata) /\
  (truthy (teamsChoice metadata) = false ->
   truthy (projectsChoice metadata) = false ->
   teamId r = if truthy (defaultTeamID metadata) then defaultTeamID metadata
              else teamsChoice metadata).
Proof.
  intros Ht Hp. cbv zeta.
  rewrite applyDefaultPreferences_projectId, applyDefaultPreferences_teamId.
  unfold applyDefaultTeam, applyTeamProjectFallbacks. rewrite Ht, Hp.
  cbn [is_nullish andb set_teamId set_projectId teamId projectId].
  split; [reflexivity|]. split.
  - intros [H|H]; rewrite H; cbn [negb andb]; [reflexivity|].
    rewrite andb_false_r. reflexivity.
  - intros H1 H2. rewrite H1, H2. cbn [negb andb].
    destruct (truthy (defaultTeamID metadata)); reflexivity.
Qed.

Lemma applyDefaultPreferences_nothing_resolved_witness :
  let r := applyDefaultPreferences (initialResults [])
             {| teams := Some [coreTeam; designTeam];
                projects := Some [webProject]; users := Some [];
                prioritiesList := None; error := None;
                teamsChoice := None; projectsChoice := Some (pr_id webProject);
                usersChoice := None; prioritiesChoice := None;
                teamsChoiceTimestamp := None; projectsChoiceTimestamp := None;
                usersChoiceTimestamp := None; prioritiesChoiceTimestamp := None |} in
  projectId r = Some (pr_id webProject) /\ teamId r = None.
Proof.
  set (md := {| teams := Some [coreTeam; designTeam];
                projects := Some [webProject]; users := Some [];
                prioritiesList := None; error := None;
                teamsChoice := None; projectsChoice := Some (pr_id webProject);
                usersChoice := None; prioritiesChoice := None;
                teamsChoiceTimestamp := None; projectsChoiceTimestamp := None;
                usersChoiceTimestamp := None; prioritiesChoiceTimestamp := None |}).
  destruct (@applyDefaultPreferences_nothing_resolved (initialResults []) md
              eq_refl eq_refl) as (Hp & Ht & _).
  split; [exact Hp|]. apply Ht. right. reflexivity.
Defined.

Lemma set_fields_priorityLabel :
  (forall v r, priorityLabel (set_teamId v r) = priorityLabel r) /\
  (forall v r, priorityLabel (set_projectId v r) = priorityLabel r) /\
  (forall v r, priorityLabel (set_assigneeId v r) = priorityLabel r) /\
  (forall v r, priorityLabel (set_priorityId v r) = priorityLabel r) /\
  (forall v r, priorityLabel (set_teamName v r) = priorityLabel r) /\
  (forall v r, priorityLabel (set_projectName v r) = priorityLabel r) /\
  (forall v r, priorityLabel (set_assigneeName v r) = priorityLabel r).
Proof. repeat split. Qed.

(** The steps before the look-up of the priority leave the label alone. *)
Lemma applyDefaultPreferences_label_before ps metadata :
  priorityLabel
    (lookupAssigneeName metadata
       (lookupProjectName metadata
          (lookupTeamName metadata
             (applyPriority metadata
                (applyAssignee metadata
                   (applyDefaultTeam metadata
                      (applyTeamProjectFallbacks metadata ps)))))))
  = priorityLabel ps.
Proof.
  unfold lookupAssigneeName.
  match goal with |- priorityLabel (if ?b then _ else _) = _ => destruct b end;
    [match goal with |- context [find ?f ?l] => destruct (find f l) end|];
    cbn [priorityLabel set_assigneeName];
  unfold lookupProjectName;
  (match goal with |- priorityLabel (if ?b then _ else _) = _ => destruct b end;
    [match goal with |- context [find ?f ?l] => destruct (find f l) end|]);
    cbn [priorityLabel set_projectName];
  unfold lookupTeamName;
  (match goal with |- priorityLabel (if ?b then _ else _) = _ => destruct b end;
    [match goal with |- context [find ?f ?l] => destruct (find f l) end|]);
    cbn [priorityLabel set_teamName];
  unfold applyPriority;
  (match goal with |- priorityLabel (if ?b then _ else _) = _ => destruct b end);
    cbn [priorityLabel set_priorityId];
  unfold applyAssignee;
  (match goal with |- priorityLabel (if ?b then _ else _) = _ => destruct b end);
    cbn [priorityLabel set_assigneeId];
  unfold applyDefaultTeam;
  (match goal with |- priorityLabel (if ?b then _ else _) = _ => destruct b end);
    cbn [priorityLabel set_teamId];
  unfold applyTeamProjectFallbacks;
  (destruct (is_nullish (teamId ps) && is_nullish (projectId ps));
    [reflexivity|]);
  (destruct (is_nullish (teamId ps) && negb (is_nullish (projectId ps)));
    [|reflexivity]);
  destruct (findProject metadata ps) as [[i n [[|f l]|]]|]; reflexivity.
Qed.

Lemma find_priority_names n :
  0 <= n <= 4 ->
  exists p, find (fun p => Z.eqb (p_id p) n) priorities = Some p /\
            p_label p = nth (Z.to_nat n) priorityNames EmptyString.
Proof.
  intros H.
  assert (E : n = 0 \/ n = 1 \/ n = 2 \/ n = 3 \/ n = 4) by lia.
  destruct E as [->|[->|[->|[->| ->]]]]; eexists; split; reflexivity.
Qed.

Lemma find_priority_none n :
  n < 0 \/ 4 < n -> find (fun p => Z.eqb (p_id p) n) priorities = None.
Proof.
  intros H. unfold priorities. cbn [find p_id].
  repeat match goal with
         | |- context [Z.eqb ?a n] =>
             let E := fresh in destruct (Z.eqb_spec a n) as [E|E]; [lia|]
         end.
  reflexivity.
Qed.

(** X10. In the result of [applyDefaultPreferences] the label of a priority
    0..4 is the full name of the level, whatever alias the input used
    ([h] becomes [high]) and also for a persisted priority; a priority
    outside the table, or none, leaves the label of the input. In a
    workflow every explicit priority is 0..4, so it is shown by its full
    name. *)
Theorem applyDefaultPreferences_priority_name {C : Collator}
    (ps : params) (metadata : prefs) :
  let r := applyDefaultPreferences ps metadata in
  (forall n, priorityId r = Some n -> 0 <= n <= 4 ->
     priorityLabel r = Some (nth (Z.to_nat n) priorityNames EmptyString)) /\
  (forall n, priorityId r = Some n -> n < 0 \/ 4 < n ->
     priorityLabel r = priorityLabel ps) /\
  (priorityId r = None -> priorityLabel r = priorityLabel ps) /\
  (forall input n,
     let wf := processWorkflowWith input metadata in
     e_priorityId (w_explicitChoices wf) = Some n ->
     priorityId (w_params wf) = Some n /\
     priorityLabel (w_params wf)
       = Some (nth (Z.to_nat n) priorityNames EmptyString)).
Proof.
  assert (Hgen : forall ps,
    let r := applyDefaultPreferences ps metadata in
    (forall n, priorityId r = Some n -> 0 <= n <= 4 ->
       priorityLabel r = Some (nth (Z.to_nat n) priorityNames EmptyString)) /\
    (forall n, priorityId r = Some n -> n < 0 \/ 4 < n ->
       priorityLabel r = priorityLabel ps) /\
    (priorityId r = None -> priorityLabel r = priorityLabel ps)).
  { clear ps. intros ps. cbv zeta.
    destruct (applyDefaultPreferences_ids ps metadata) as (_ & _ & _ & Hid).
    cbv zeta in Hid. rewrite Hid.
    unfold applyDefaultPreferences. cbn [priorityLabel].
    set (r4 := applyPriority metadata _) in *.
    set (r7 := lookupAssigneeName metadata _).
    assert (Hl : priorityLabel r7 = priorityLabel ps)
      by apply applyDefaultPreferences_label_before.
    assert (Hi : priorityId r7 = priorityId r4).
    { unfold r7.
      destruct (lookupAssigneeName_ids metadata
                  (lookupProjectName metadata (lookupTeamName metadata r4)))
        as (_ & _ & _ & ->).
      destruct (lookupProjectName_ids metadata (lookupTeamName metadata r4))
        as (_ & _ & _ & ->).
      destruct (lookupTeamName_ids metadata r4) as (_ & _ & _ & ->).
      reflexivity. }
    unfold lookupPriorityLabel. rewrite Hi.
    split; [|split].
    - intros n Hn Hr. rewrite Hn.
      destruct (find_priority_names Hr) as (p & -> & <-). reflexivity.
    - intros n Hn Hr. rewrite Hn, (find_priority_none Hr). exact Hl.
    - intros Hn. rewrite Hn. exact Hl. }
  cbv zeta. destruct (Hgen ps) as (H1 & H2 & H3).
  split; [exact H1|]. split; [exact H2|]. split; [exact H3|].
  intros input n. unfold processWorkflowWith.
  cbn [w_explicitChoices w_params e_priorityId].
  set (qs := processParameters _ metadata). intros Hn.
  assert (Hr : 0 <= n <= 4).
  { destruct (ResolverInv_processParameters metadata
                (paramWords (parseInput input))) as (_ & _ & (Hp & _)).
    destruct (Hp n Hn) as (p & w & Hin & <- & _).
    simpl in Hin. repeat (destruct Hin as [<-|Hin]; [simpl; lia|]). contradiction. }
  assert (Hk : priorityId (applyDefaultPreferences qs metadata) = Some n).
  { rewrite applyDefaultPreferences_priorityId, Hn. reflexivity. }
  split; [exact Hk|]. destruct (Hgen qs) as (G1 & _). apply G1; assumption.
Qed.

(** ** The default team *)

Lemma filter_nil_iff {A} (f : A -> bool) (l : list A) :
  filter f l = [] <-> forall x, In x l -> f x = false.
Proof.
  split.
  - induction l as [|x l IH]; intros H y Hy; [contradiction|].
    simpl in H. destruct (f x) eqn:E; [discriminate|].
    destruct Hy as [<-|Hy]; [exact E | apply IH; assumption].
  - apply filter_none.
Qed.

(** X11. The default team is one of the user's teams: there is none
    exactly when the metadata has no team with the user among its members;
    and when the creation dates of the user's teams are all valid, no team
    of the user is older than the default team. *)
Theorem defaultTeamID_oldest (metadata : prefs) :
  (defaultTeamID metadata = None <->
   forall t, In t (or_else (teams metadata) []) -> isMine t = false) /\
  (forall id, defaultTeamID metadata = Some id ->
     exists t, In t (or_else (teams metadata) []) /\ t_id t = id /\
       isMine t = true /\
       ((forall t', In t' (or_else (teams metadata) []) -> isMine t' = true ->
                    exists z, t_createdAt t' = Fin z) ->
        forall t' z z', In t' (or_else (teams metadata) []) -> isMine t' = true ->
          t_createdAt t = Fin z -> t_createdAt t' = Fin z' -> z <= z')).
Proof.
  unfold defaultTeamID. destruct (teams metadata) as [ts|] eqn:Ets.
  2:{ split; [split; [intros _ t []| reflexivity]|]. intros id H. discriminate H. }
  change (or_else (Some ts) []) with ts.
  set (cmp := fun a b : team => num_sub (t_createdAt a) (t_createdAt b)).
  fold isMine. change (fun t => existsb m_isMe (t_members t)) with isMine.
  set (mine := filter isMine ts).
  split.
  - split.
    + intros H. apply filter_nil_iff. fold mine.
      destruct mine as [|m ms] eqn:Em; [reflexivity|].
      destruct (sort cmp (m :: ms)) as [|h t] eqn:Es.
      * exfalso. eapply (@sort_nonempty team cmp); [|exact Es]. discriminate.
      * discriminate H.
    + intros H. apply filter_nil_iff in H. fold mine in H. rewrite H. reflexivity.
  - intros id H.
    destruct (sort cmp mine) as [|h tl] eqn:Es; [discriminate H|].
    cbn in H. inversion H; subst id. clear H.
    assert (Hin : In h mine).
    { apply (sort_In cmp). rewrite Es. left. reflexivity. }
    unfold mine in Hin. apply filter_In in Hin. destruct Hin as [Hin Hm].
    exists h. split; [exact Hin|]. split; [reflexivity|]. split; [exact Hm|].
    intros Hvalid t' z z' Hin' Hm' Ez Ez'.
    set (P := fun t : team => exists z, t_createdAt t = Fin z).
    assert (HP : Forall P mine).
    { apply Forall_forall. intros x Hx. unfold mine in Hx.
      apply filter_In in Hx. destruct Hx as [Hx1 Hx2]. apply Hvalid; assumption. }
    assert (Hmin : num_pos (cmp h t') = false).
    { eapply (@sort_head_min team cmp P); [| |exact HP|exact Es|].
      - intros a b (x & Ex) (y & Ey). unfold cmp. rewrite Ex, Ey. simpl. lia.
      - intros a b c (x & Ex) (y & Ey) (v & Ev). unfold cmp.
        rewrite Ex, Ey, Ev. simpl. lia.
      - unfold mine. apply filter_In. split; assumption. }
    unfold cmp in Hmin. rewrite Ez, Ez' in Hmin. simpl in Hmin. lia.
Qed.

(** ** Preference Store: footprint and round trip *)

Section StoreRoundTrip.
Context {J : JSONCodec}.

Lemma readResult_shape (w : world) :
  readResult w = emptyPrefs \/
  (teams (readResult w) <> None /\ projects (readResult w) <> None /\
   users (readResult w) <> None).
Proof.
  unfold readResult. destruct (cwd w); [|left; reflexivity].
  destruct (if dirExists w then None else mkdirError w); [left; reflexivity|].
  destruct (cacheFile w) as [text|]; [|left; reflexivity].
  destruct (JSON_parse text) as [[p|]|]; try (left; reflexivity).
  right. repeat split; discriminate.
Qed.

Lemma readResult_again (w : world) : readResult (readWorld w) = readResult w.
Proof.
  unfold readResult, readWorld. destruct (cwd w) as [d|e] eqn:Ec.
  - destruct (dirExists w) eqn:Ed.
    + rewrite Ec, Ed. reflexivity.
    + destruct (mkdirError w) as [e|] eqn:Em.
      * cbn [cwd dirExists mkdirError cacheFile set_logged]. rewrite Ec, Ed, Em.
        reflexivity.
      * cbn [cwd dirExists mkdirError cacheFile set_dirExists]. rewrite Ec.
        reflexivity.
  - cbn [cwd set_logged]. rewrite Ec. reflexivity.
Qed.

Lemma readWorld_footprint (w : world) :
  cacheFile (readWorld w) = cacheFile w /\
  clockReads (readWorld w) = clockReads w /\
  requests (readWorld w) = requests w /\
  cwd (readWorld w) = cwd w /\
  env_LINEAR_API_KEY (readWorld w) = env_LINEAR_API_KEY w.
Proof.
  unfold readWorld. destruct (cwd w) eqn:Ec; [|repeat split; exact Ec].
  destruct (dirExists w); [repeat split; exact Ec|].
  destruct (mkdirError w); repeat split; exact Ec.
Qed.

(** A call of [writePrefs] that returns has found the host writable. *)
Lemma writePrefs_returns_Writable (p : prefs) (isDryRun : bool) (w w' : world) q :
  writePrefs p isDryRun w = (Ret q, w') -> Writable w.
Proof.
  destruct w as [cw de me cf we cl cr env api rq lg].
  unfold Writable, writePrefs, prefsWithTimestamps, stamp, bind, ret, Date_now,
    process_cwd, fs_existsSync, fs_mkdirSync, fs_writeFileSync, set_cacheFile,
    set_dirExists, set_clockReads.
  cbn [cwd dirExists mkdirError writeError].
  destruct (truthy (teamsChoice p)), (truthy (projectsChoice p)),
    (truthy (usersChoice p)), (truthy (prioritiesChoice p));
    cbn -[JSON_stringify or_null];
    (destruct cw as [d|e]; cbn -[JSON_stringify or_null]; [|discriminate]);
    (destruct de; cbn -[JSON_stringify or_null];
     [|destruct me as [e|]; cbn -[JSON_stringify or_null]; [discriminate|]]);
    (destruct we as [e|]; cbn -[JSON_stringify or_null]; [discriminate|]);
    intros _; (split; [exists d; reflexivity|]);
    (split; [|reflexivity]); auto.
Qed.
End StoreRoundTrip.

(** X12. [readPrefs] only reads: it leaves the cache file, the clock and
    the record of requests as they are. What it returns is the empty set or
    a set in which the three entity lists are present, and a second read
    returns the same set. *)
Theorem readPrefs_footprint {J : JSONCodec} (w : world) :
  exists p w',
    readPrefs w = (Ret p, w') /\
    cacheFile w' = cacheFile w /\ clockReads w' = clockReads w /\
    requests w' = requests w /\
    (p = emptyPrefs \/
     (teams p <> None /\ projects p <> None /\ users p <> None)) /\
    (exists w'', readPrefs w' = (Ret p, w'')).
Proof.
  exists (readResult w), (readWorld w).
  destruct (readWorld_footprint w) as (Hc & Hk & Hr & _).
  split; [apply readPrefs_run|]. split; [exact Hc|]. split; [exact Hk|].
  split; [exact Hr|]. split; [apply readResult_shape|].
  exists (readWorld (readWorld w)). rewrite readPrefs_run, readResult_again.
  reflexivity.
Qed.

(** X13. What [writePrefs] has written, [readPrefs] reads back: where the
    write returns a record and the host's JSON reader gives that record
    for the text written, the next read returns the record with the three
    entity lists made present (an absent list is read as the empty list).
    The choices read back are the truthy choices of the record given,
    [null] for the others. *)
Theorem writePrefs_then_readPrefs {J : JSONCodec}
    (p : prefs) (isDryRun : bool) (w w1 : world) (q : prefs) :
  writePrefs p isDryRun w = (Ret q, w1) ->
  JSON_parse (JSON_stringify q (if isDryRun then Some 2 else None)) = Ret (Some q) ->
  exists w2,
    readPrefs w1 = (Ret (ensureArrays q), w2) /\
    teamsChoice (ensureArrays q) = or_null (teamsChoice p) /\
    projectsChoice (ensureArrays q) = or_null (projectsChoice p) /\
    usersChoice (ensureArrays q) = or_null (usersChoice p) /\
    prioritiesChoice (ensureArrays q) = or_null (prioritiesChoice p) /\
    teams (ensureArrays q) = Some (or_else (teams p) []) /\
    projects (ensureArrays q) = Some (or_else (projects p) []) /\
    users (ensureArrays q) = Some (or_else (users p) []).
Proof.
  intros Hw Hparse.
  pose proof (writePrefs_returns_Writable _ _ _ Hw) as HW.
  rewrite (writePrefs_run p isDryRun HW) in Hw. inversion Hw as [[Hq Hw1]].
  destruct HW as ((d & Hd) & _ & _).
  eexists. split.
  - rewrite readPrefs_run. f_equal.
    unfold readResult. cbn [cwd dirExists cacheFile set_cacheFile set_dirExists
      set_clockReads]. rewrite Hd. rewrite Hq, Hparse. reflexivity.
  - repeat split.
Qed.

Lemma writePrefs_then_readPrefs_witness :
  let w := quietWorld (Throw "ENOENT"%string) in
  let w1 := snd (writePrefs (J := sampleCodec twoUsers) twoUsers false w) in
  writePrefs (J := sampleCodec twoUsers) twoUsers false w = (Ret twoUsers, w1) /\
  exists w2,
    readPrefs (J := sampleCodec twoUsers) w1 = (Ret (ensureArrays twoUsers), w2).
Proof.
  intros w w1. split; [reflexivity|].
  destruct (@writePrefs_then_readPrefs (sampleCodec twoUsers)
              twoUsers false w w1 twoUsers eq_refl eq_refl) as (w2 & H & _).
  exists w2. exact H.
Defined.

(** ** Fetching the metadata *)

(** X14. [getMetadata] always answers, with an error record or with the
    three lists of an answer of the API, never both, and with no choice in
    either. The token given goes before the key of the environment; with
    neither, the answer is the error [LINEAR_API_KEY is not set] and the
    host is left as it is; otherwise exactly one request is sent, with
    that key. Lists come only from an answer that is [ok] and carries
    data, and then nothing is logged. *)
Theorem getMetadata_outcome (linearToken : option string) (w : world) :
  exists m w',
    getMetadata linearToken w = (Ret m, w') /\
    ((exists e, m = errorPrefs e) \/ (exists d, m = fetchedPrefs d)) /\
    (truthy (js_or linearToken (env_LINEAR_API_KEY w)) = false ->
     m = errorPrefs "LINEAR_API_KEY is not set" /\ w' = w) /\
    (forall k, js_or linearToken (env_LINEAR_API_KEY w) = Some k ->
       truthy k = true -> requests w' = requests w ++ [k]) /\
    (forall d, m = fetchedPrefs d ->
       exists k r, js_or linearToken (env_LINEAR_API_KEY w) = Some k /\
         linearApi w k = Ret r /\ ok r = true /\ json r = Ret (Some d) /\
         logged w' = logged w).
Proof.
  destruct w as [cw de me cf we cl cr env api rq lg].
  unfold getMetadata, js_or. cbn [env_LINEAR_API_KEY].
  destruct (truthy linearToken) eqn:Et; cbn [negb].
  - destruct linearToken as [k|]; [|discriminate Et].
    change (truthy (Some k)) with (truthy k) in *. rewrite Et. cbn [negb].
    change (or_else (Some k) EmptyString) with (if truthy k then k else EmptyString).
    rewrite Et.
    unfold try_catch, bind, fetch, ret, throw, logError, logFetchResponseError,
      set_requests, set_logged.
    cbn [linearApi requests logged].
    destruct (api k) as [[o js]|e] eqn:Ea; cbn [ok json].
    + destruct o; cbn [negb].
      * destruct js as [[d|]|e] eqn:Ej; eexists _, _; (split; [reflexivity|]).
        -- split; [right; eexists; reflexivity|]. split; [discriminate|].
           split; [intros k' Hk _; inversion Hk; reflexivity|].
           intros d' Hd. exists k. eexists. split; [reflexivity|].
           split; [exact Ea|]. cbn [ok json]. split; [reflexivity|].
           split; [|reflexivity]. unfold fetchedPrefs in Hd. inversion Hd.
           destruct d, d'; cbn in *; subst; reflexivity.
        -- split; [left; eexists; reflexivity|]. split; [discriminate|].
           split; [intros k' Hk _; inversion Hk; reflexivity|].
           intros d' Hd. discriminate Hd.
        -- split; [left; eexists; reflexivity|]. split; [discriminate|].
           split; [intros k' Hk _; inversion Hk; reflexivity|].
           intros d' Hd. discriminate Hd.
      * eexists _, _. split; [reflexivity|].
        split; [left; eexists; reflexivity|]. split; [discriminate|].
        split; [intros k' Hk _; inversion Hk; reflexivity|].
        intros d' Hd. discriminate Hd.
    + eexists _, _. split; [reflexivity|].
      split; [left; eexists; reflexivity|]. split; [discriminate|].
      split; [intros k' Hk _; inversion Hk; reflexivity|].
      intros d' Hd. discriminate Hd.
  - destruct (truthy env) eqn:Ee; cbn [negb].
    + destruct env as [k|]; [|discriminate Ee].
      change (truthy (Some k)) with (truthy k) in *.
      change (or_else (Some k) EmptyString) with (if truthy k then k else EmptyString).
      rewrite Ee.
      unfold try_catch, bind, fetch, ret, throw, logError, logFetchResponseError,
        set_requests, set_logged.
      cbn [linearApi requests logged].
      destruct (api k) as [[o js]|e] eqn:Ea; cbn [ok json].
      * destruct o; cbn [negb].
        -- destruct js as [[d|]|e] eqn:Ej; eexists _, _; (split; [reflexivity|]).
           ++ split; [right; eexists; reflexivity|]. split; [discriminate|].
              split; [intros k' Hk _; inversion Hk; reflexivity|].
              intros d' Hd. exists k. eexists. split; [reflexivity|].
              split; [exact Ea|]. cbn [ok json]. split; [reflexivity|].
              split; [|reflexivity]. unfold fetchedPrefs in Hd. inversion Hd.
              destruct d, d'; cbn in *; subst; reflexivity.
           ++ split; [left; eexists; reflexivity|]. split; [discriminate|].
              split; [intros k' Hk _; inversion Hk; reflexivity|].
              intros d' Hd. discriminate Hd.
           ++ split; [left; eexists; reflexivity|]. split; [discriminate|].
              split; [intros k' Hk _; inversion Hk; reflexivity|].
              intros d' Hd. discriminate Hd.
        -- eexists _, _. split; [reflexivity|].
           split; [left; eexists; reflexivity|]. split; [discriminate|].
           split; [intros k' Hk _; inversion Hk; reflexivity|].
           intros d' Hd. discriminate Hd.
      * eexists _, _. split; [reflexivity|].
        split; [left; eexists; reflexivity|]. split; [discriminate|].
        split; [intros k' Hk _; inversion Hk; reflexivity|].
        intros d' Hd. discriminate Hd.
    + eexists _, _. split; [reflexivity|].
      split; [left; eexists; reflexivity|]. split; [intros _; split; reflexivity|].
      split.
      * intros k Hk Ht. rewrite Hk in Ee. change (truthy (Some k)) with (truthy k) in Ee.
        congruence.
      * intros d' Hd. discriminate Hd.
Qed.

(** A record with an error is an error record. *)
Lemma getMetadata_error_shape (linearToken : option string) (w w' : world) m e :
  getMetadata linearToken w = (Ret m, w') -> error m = Some e -> m = errorPrefs e.
Proof.
  destruct w as [cw de me cf we cl cr env api rq lg].
  unfold getMetadata. cbn [env_LINEAR_API_KEY].
  destruct (negb (truthy (if negb (truthy linearToken) then env else linearToken))).
  - intros H He. inversion H; subst. cbn in He. inversion He. reflexivity.
  - unfold try_catch, bind, fetch, ret, throw, logError, logFetchResponseError,
      set_requests, set_logged.
    cbn [linearApi requests logged].
    destruct (api _) as [[o js]|e'']; cbn [ok json].
    + destruct o; cbn [negb].
      * destruct js as [[d|]|e']; intros H He; inversion H; subst; cbn in He;
          inversion He; reflexivity.
      * intros H He; inversion H; subst; cbn in He; inversion He; reflexivity.
    + intros H He; inversion H; subst; cbn in He; inversion He; reflexivity.
Qed.

(** X15. When the cache is stale and the fetch ends in an error (no key,
    no network, an answer that is not [ok] or has no data), and the cache
    file can be written, [processWorkflow] hands the error back instead of
    a workflow, and the error record has replaced the content of the cache
    file. *)
Theorem processWorkflow_stale_error {J : JSONCodec} {C : Collator}
    (createLinearIssueCacheAsync : option string -> world -> world)
    (input : string) (linearToken : option string)
    (w w1 w2 : world) (cached m : prefs) (e : string) :
  Writable w ->
  readPrefs w = (Ret cached, w1) -> isStale cached = true ->
  getMetadata linearToken w1 = (Ret m, w2) ->
  error m = Some e -> truthy e = true ->
  exists w3,
    processWorkflow createLinearIssueCacheAsync input linearToken w
      = (Ret (inl e), w3) /\
    cacheFile w3 = Ret (JSON_stringify (errorPrefs e) None) /\
    requests w3 = requests w2 /\ logged w3 = logged w2.
Proof.
  intros HW Hr Hst Hm He Ht.
  rewrite readPrefs_run in Hr. inversion Hr as [[Hc Hw1]].
  pose proof (getMetadata_error_shape _ _ Hm He) as Hshape. subst m.
  destruct (getMetadata_run linearToken (readWorld w))
    as (m' & w2' & Hm' & Hcw & Hd & Hme & Hwe & _).
  rewrite Hw1 in Hm'. rewrite Hm in Hm'. inversion Hm'; subst m' w2'. clear Hm'.
  assert (HW2 : Writable w2).
  { destruct (readWorld_Writable HW) as ((d & Hd') & Hdir & Hwr).
    rewrite Hw1 in *.
    split; [exists d; congruence|]. split; [|congruence].
    destruct Hdir as [Hdir|Hdir]; [left|right]; congruence. }
  eexists. split.
  - unfold processWorkflow, getUnifiedMetadata.
    unfold bind at 1. unfold bind at 1. rewrite readPrefs_run, Hc, Hst.
    unfold bind at 1. rewrite Hw1, Hm. unfold bind at 1.
    rewrite (writePrefs_run (errorPrefs e) false HW2).
    unfold ret at 1. cbn [error errorPrefs]. rewrite Ht. reflexivity.
  - repeat split.
Qed.

Lemma processWorkflow_stale_error_witness :
  let w := quietWorld (Throw "ENOENT: no such file or directory"%string) in
  let w2 := snd (getMetadata None w) in
  exists w3,
    processWorkflow (J := sampleCodec previousPrefs) (C := codeUnitCollator)
      (fun _ w => w) loginBugInput None w
      = (Ret (inl "fetch failed"%string), w3) /\
    cacheFile w3
      = Ret (JSON_stringify (JSONCodec := sampleCodec previousPrefs)
               (errorPrefs "fetch failed") None) /\
    requests w3 = requests w2 /\ logged w3 = logged w2.
Proof.
  intros w w2.
  apply (@processWorkflow_stale_error (sampleCodec previousPrefs) codeUnitCollator
           (fun _ w => w) loginBugInput None w w w2 emptyPrefs
           (errorPrefs "fetch failed") "fetch failed").
  - split; [eexists; reflexivity|]. split; [left; reflexivity | reflexivity].
  - reflexivity.
  - reflexivity.
  - reflexivity.
  - reflexivity.
  - reflexivity.
Defined.

(** X16. A run whose explicit references hold a project and no team
    persists the project choice without a team choice, whatever team the
    run itself derived from the project; a later run that names neither a
    team nor a project then takes the project from the preferences and is
    left without a team. *)
Theorem main_writePrefs_project_without_team {J : JSONCodec}
    (wf : workflow) (dryRun : bool) (w w' : world) (q : prefs) (pid : string) :
  e_teamId (w_explicitChoices wf) = None ->
  e_projectId (w_explicitChoices wf) = Some pid -> truthy pid = true ->
  main_writePrefs wf dryRun w = (Ret q, w') ->
  teamsChoice q = None /\ projectsChoice q = Some pid /\
  (forall ps metadata,
     teamsChoice metadata = teamsChoice q ->
     projectsChoice metadata = projectsChoice q ->
     teamId ps = None -> projectId ps = None ->
     projectId (applyDefaultPreferences ps metadata) = Some pid /\
     teamId (applyDefaultPreferences ps metadata) = None).
Proof.
  intros Het Hep Hpid Hrun. unfold main_writePrefs in Hrun.
  pose proof (writePrefs_returns_Writable _ _ _ Hrun) as HW.
  rewrite (writePrefs_run _ dryRun HW) in Hrun. inversion Hrun as [[Hq Hw']].
  assert (Hqt : teamsChoice (stamped (explicitPrefs (w_metadata wf)
                                        (w_explicitChoices wf)) w) = None).
  { cbn [stamped teamsChoice explicitPrefs]. rewrite Het. reflexivity. }
  assert (Hqp : projectsChoice (stamped (explicitPrefs (w_metadata wf)
                                           (w_explicitChoices wf)) w) = Some pid).
  { cbn [stamped projectsChoice explicitPrefs]. rewrite Hep.
    apply or_null_truthy. exact Hpid. }
  split; [exact Hqt|]. split; [exact Hqp|].
  intros ps metadata Hmt Hmp Ht Hp. rewrite Hqt in Hmt. rewrite Hqp in Hmp.
  rewrite applyDefaultPreferences_projectId, applyDefaultPreferences_teamId.
  unfold applyDefaultTeam, applyTeamProjectFallbacks. rewrite Ht, Hp, Hmt, Hmp.
  cbn [is_nullish andb set_teamId set_projectId teamId projectId].
  change (truthy (Some pid)) with (truthy pid). rewrite Hpid.
  cbn [negb andb]. rewrite andb_false_r. split; reflexivity.
Qed.

Lemma main_writePrefs_project_without_team_witness :
  let wf := processWorkflowWith (C := codeUnitCollator)
              "ln -website fix the header" twoTeams in
  let run := main_writePrefs (J := sampleCodec twoTeams) wf false
               (quietWorld (Throw "ENOENT"%string)) in
  teamId (w_params wf) = Some "team-A"%string /\
  exists q, fst run = Ret q /\
    teamsChoice q = None /\ projectsChoice q = Some "proj-W"%string /\
    projectId (applyDefaultPreferences (initialResults []) q)
      = Some "proj-W"%string /\
    teamId (applyDefaultPreferences (initialResults []) q) = None.
Proof.
  intros wf run. split; [reflexivity|].
  set (q := stamped (explicitPrefs (w_metadata wf) (w_explicitChoices wf))
                    (quietWorld (Throw "ENOENT"%string))).
  exists q. split; [reflexivity|].
  destruct (@main_writePrefs_project_without_team (sampleCodec twoTeams)
              wf false (quietWorld (Throw "ENOENT"%string)) (snd run) q
              "proj-W" eq_refl eq_refl eq_refl eq_refl) as (Ht & Hp & Hnext).
  split; [exact Ht|]. split; [exact Hp|].
  apply Hnext; reflexivity.
Defined.

(** ** Result filters: the query *)

Lemma prefix_Occurs w s :
  String.prefix w s = true <-> exists b, s = String.append w b.
Proof.
  split.
  - revert s. induction w as [|c w IH]; intros s H.
    + exists s. reflexivity.
    + destruct s as [|d s]; [discriminate H|]. simpl in H.
      destruct (ascii_dec c d) as [->|]; [|discriminate H].
      destruct (IH s H) as (b & ->). exists b. reflexivity.
  - intros (b & ->). apply prefix_append.
Qed.

Lemma includes_Occurs s w : includes s w = true <-> Occurs w s.
Proof.
  unfold Occurs. split.
  - induction s as [|c s IH]; cbn [includes]; rewrite orb_true_iff; intros [H|H].
    + apply prefix_Occurs in H. destruct H as (b & ->). exists EmptyString, b.
      reflexivity.
    + discriminate H.
    + apply prefix_Occurs in H. destruct H as (b & ->). exists EmptyString, b.
      reflexivity.
    + destruct (IH H) as (a & b & ->). exists (String c a), b. reflexivity.
  - intros (a & b & ->). induction a as [|c a IH]; cbn [String.append].
    + destruct (String.append w b) eqn:E; cbn [includes]; rewrite <- E;
        rewrite prefix_append; reflexivity.
    + cbn [includes]. rewrite IH. apply orb_true_r.
Qed.

Lemma toLowerCase_empty s : JS.toLowerCase s = EmptyString <-> s = EmptyString.
Proof. destruct s; simpl; split; congruence. Qed.

Lemma trimStart_toLowerCase s :
  JS.trimStart (JS.toLowerCase s) = JS.toLowerCase (JS.trimStart s).
Proof.
  induction s as [|c s IH]; [reflexivity|]. cbn [JS.toLowerCase JS.trimStart].
  rewrite isSpace_lowerChar. destruct (JS.isSpace c); [exact IH | reflexivity].
Qed.

Lemma trimEnd_toLowerCase s :
  JS.trimEnd (JS.toLowerCase s) = JS.toLowerCase (JS.trimEnd s).
Proof.
  induction s as [|c s IH]; [reflexivity|]. cbn [JS.toLowerCase JS.trimEnd].
  rewrite IH, isSpace_lowerChar.
  destruct (JS.trimEnd s) as [|d r]; cbn [JS.toLowerCase].
  - destruct (JS.isSpace c); reflexivity.
  - reflexivity.
Qed.

Lemma trim_toLowerCase s : JS.trim (JS.toLowerCase s) = JS.toLowerCase (JS.trim s).
Proof. unfold JS.trim. rewrite trimStart_toLowerCase, trimEnd_toLowerCase. reflexivity. Qed.

Lemma trimEnd_idem s : JS.trimEnd (JS.trimEnd s) = JS.trimEnd s.
Proof.
  induction s as [|c s IH]; [reflexivity|]. cbn [JS.trimEnd].
  destruct (JS.trimEnd s) as [|d r] eqn:E.
  - destruct (JS.isSpace c) eqn:Ec; [reflexivity|]. cbn [JS.trimEnd]. rewrite Ec.
    reflexivity.
  - cbn [JS.trimEnd] in *. rewrite IH. reflexivity.
Qed.

(** A text that does not begin with white space. *)
Lemma trimStart_head s :
  match JS.trimStart s with
  | EmptyString => True
  | String c _ => JS.isSpace c = false
  end.
Proof.
  induction s as [|c s IH]; [exact I|]. cbn [JS.trimStart].
  destruct (JS.isSpace c) eqn:E; [exact IH | exact E].
Qed.

Lemma trimStart_trimEnd_fixed t :
  match t with EmptyString => True | String c _ => JS.isSpace c = false end ->
  JS.trimStart (JS.trimEnd t) = JS.trimEnd t.
Proof.
  destruct t as [|c r]; [reflexivity|]. intros Hc. cbn [JS.trimEnd].
  destruct (JS.trimEnd r); [rewrite Hc|]; cbn [JS.trimStart]; rewrite Hc; reflexivity.
Qed.

Lemma trim_idem s : JS.trim (JS.trim s) = JS.trim s.
Proof.
  unfold JS.trim. rewrite (trimStart_trimEnd_fixed (JS.trimStart s) (trimStart_head s)).
  apply trimEnd_idem.
Qed.

Lemma queryWords_toLowerCase q : queryWords (JS.toLowerCase q) = queryWords q.
Proof. unfold queryWords. rewrite toLowerCase_idem. reflexivity. Qed.

Lemma queryWords_trim q : queryWords (JS.trim q) = queryWords q.
Proof.
  unfold queryWords. rewrite <- trim_toLowerCase, trim_idem. reflexivity.
Qed.

Lemma eqb_empty s : String.eqb s EmptyString = negb (truthy s).
Proof. destruct s; reflexivity. Qed.

(** The query is blank: absent, empty, or white space only. *)
Lemma filterByWords_blank items q :
  JS.trim q = EmptyString -> filterByWords items (Some q) = items.
Proof.
  intros H. unfold filterByWords. rewrite H. rewrite orb_true_r. reflexivity.
Qed.

Lemma filterByWords_words items q :
  JS.trim q <> EmptyString ->
  filterByWords items (Some q)
  = filter (fun item => forallb (fun word => includes (searchText item) word)
                                (queryWords q)) items.
Proof.
  intros H. unfold filterByWords.
  assert (Hq : truthy q = true).
  { destruct q; [exfalso; apply H; reflexivity | reflexivity]. }
  rewrite Hq. cbn [negb orb].
  destruct (String.eqb_spec (JS.trim q) EmptyString) as [E|_]; [contradiction|].
  destruct (queryWords q) as [|w ws] eqn:Ew.
  - cbn. symmetry. apply filter_all. reflexivity.
  - reflexivity.
Qed.

Lemma filter_idem {A} (f : A -> bool) (l : list A) :
  filter f (filter f l) = filter f l.
Proof.
  apply filter_all. intros x Hx. apply filter_In in Hx. apply Hx.
Qed.

(** X17. [filterByWords] selects: the items returned are items of the list
    in their order; a blank query (absent, empty or white space only)
    returns the list as it is; otherwise an item is returned exactly when
    each word of the query occurs somewhere in the lower-cased title and
    subtitle, joined by a blank. Filtering twice changes nothing more, and
    a list in two parts is filtered part by part. *)
Theorem filterByWords_selects (items : list filter_item) (query : option string) :
  Subseq (filterByWords items query) items /\
  (query = None \/ (exists q, query = Some q /\ JS.trim q = EmptyString) ->
   filterByWords items query = items) /\
  (forall q item, query = Some q -> JS.trim q <> EmptyString ->
     (In item (filterByWords items query) <->
      In item items /\
      forall word, In word (queryWords q) -> Occurs word (searchText item))) /\
  filterByWords (filterByWords items query) query = filterByWords items query /\
  (forall more, filterByWords (items ++ more) query
                = filterByWords items query ++ filterByWords more query).
Proof.
  destruct query as [q|].
  2:{ split; [apply Subseq_refl|]. split; [reflexivity|].
      split; [intros q item H; discriminate H|]. split; reflexivity. }
  destruct (String.eqb_spec (JS.trim q) EmptyString) as [E|E].
  - rewrite !filterByWords_blank by exact E.
    split; [apply Subseq_refl|]. split; [reflexivity|].
    split; [intros q' item H Hq; inversion H; subst; contradiction|].
    split; [reflexivity|]. intros more. rewrite !filterByWords_blank by exact E.
    reflexivity.
  - rewrite !filterByWords_words by exact E.
    split; [apply Subseq_filter|].
    split; [intros [H|(q' & H & Hq)]; [discriminate H|inversion H; subst; contradiction]|].
    split.
    + intros q' item H _. inversion H; subst q'. rewrite filter_In, forallb_forall.
      split; intros [Hin Hall]; (split; [exact Hin|]); intros word Hw;
        apply includes_Occurs; apply Hall; exact Hw.
    + split; [apply filter_idem|]. intros more.
      rewrite !filterByWords_words by exact E. apply filter_app.
Qed.

(** X18. What of the query matters to [filterByWords]: not the case of its
    letters, not the white space around it, and of its words neither the
    order nor the repetitions. *)
Theorem filterByWords_query_insensitive (items : list filter_item) (q : string) :
  filterByWords items (Some (JS.toLowerCase q)) = filterByWords items (Some q) /\
  filterByWords items (Some (JS.trim q)) = filterByWords items (Some q) /\
  (forall q',
     JS.trim q <> EmptyString -> JS.trim q' <> EmptyString ->
     (forall word, In word (queryWords q) <-> In word (queryWords q')) ->
     filterByWords items (Some q') = filterByWords items (Some q)).
Proof.
  split; [|split].
  - destruct (String.eqb_spec (JS.trim q) EmptyString) as [E|E].
    + rewrite (filterByWords_blank items q E). apply filterByWords_blank.
      rewrite trim_toLowerCase, E. reflexivity.
    + assert (E' : JS.trim (JS.toLowerCase q) <> EmptyString).
      { rewrite trim_toLowerCase. intros H.
        apply (proj1 (toLowerCase_empty _)) in H. contradiction. }
      rewrite (@filterByWords_words items _ E), (@filterByWords_words items _ E').
      rewrite queryWords_toLowerCase. reflexivity.
  - destruct (String.eqb_spec (JS.trim q) EmptyString) as [E|E].
    + rewrite (filterByWords_blank items q E). apply filterByWords_blank.
      rewrite trim_idem. exact E.
    + assert (E' : JS.trim (JS.trim q) <> EmptyString).
      { rewrite trim_idem. exact E. }
      rewrite (@filterByWords_words items _ E), (@filterByWords_words items _ E').
      rewrite queryWords_trim. reflexivity.
  - intros q' E E' Hsame.
    rewrite (@filterByWords_words items _ E), (@filterByWords_words items _ E').
    apply filter_ext. intros item.
    apply eq_true_iff_eq. rewrite !forallb_forall.
    split; intros H w Hw; apply H; apply Hsame; exact Hw.
Qed.

(** ** Result filters: the order *)

Section SortOrder.
Context {A : Type} (cmp : A -> A -> num) (P : A -> Prop).
Hypothesis cmp_total : forall a b,
    P a -> P b -> num_pos (cmp a b) = true -> num_pos (cmp b a) = false.
Hypothesis cmp_trans : forall a b c,
    P a -> P b -> P c ->
    num_pos (cmp a b) = false -> num_pos (cmp b c) = false ->
    num_pos (cmp a c) = false.

Lemma sort_insert_Permutation x l : Permutation (sort_insert cmp x l) (x :: l).
Proof.
  induction l as [|y l IH]; simpl; [apply Permutation_refl|].
  destruct (num_pos (cmp x y)); [|apply Permutation_refl].
  eapply Permutation_trans; [apply perm_skip; exact IH | apply perm_swap].
Qed.

Lemma sort_Permutation l : Permutation (sort cmp l) l.
Proof.
  induction l as [|x l IH]; simpl; [apply perm_nil|].
  eapply Permutation_trans; [apply sort_insert_Permutation|].
  apply perm_skip. exact IH.
Qed.

Lemma sort_insert_sorted x l :
  P x -> Forall P l ->
  StronglySorted (fun a b => num_pos (cmp a b) = false) l ->
  StronglySorted (fun a b => num_pos (cmp a b) = false) (sort_insert cmp x l).
Proof.
  intros Px. induction l as [|y l IH]; intros HP Hs; simpl.
  - apply SSorted_cons; [apply SSorted_nil | apply Forall_nil].
  - inversion HP as [|? ? Py Pl]; subst. inversion Hs as [|? ? Hs' Hy]; subst.
    destruct (num_pos (cmp x y)) eqn:E.
    + apply SSorted_cons; [apply IH; assumption|].
      apply Forall_forall. intros z Hz. apply sort_insert_In in Hz.
      destruct Hz as [->|Hz].
      * apply cmp_total; assumption.
      * rewrite Forall_forall in Hy. apply Hy. exact Hz.
    + apply SSorted_cons; [exact Hs|].
      apply Forall_cons; [exact E|].
      apply Forall_forall. intros z Hz.
      apply cmp_trans with (b := y); try assumption.
      * rewrite Forall_forall in Pl. apply Pl. exact Hz.
      * rewrite Forall_forall in Hy. apply Hy. exact Hz.
Qed.

Lemma sort_sorted l :
  Forall P l -> StronglySorted (fun a b => num_pos (cmp a b) = false) (sort cmp l).
Proof.
  induction l as [|x l IH]; intros HP; simpl; [apply SSorted_nil|].
  inversion HP as [|? ? Px Pl]; subst.
  apply sort_insert_sorted; [exact Px| |apply IH; exact Pl].
  apply Forall_forall. intros y Hy. apply sort_In in Hy.
  rewrite Forall_forall in Pl. apply Pl. exact Hy.
Qed.

(** An element that nothing goes behind stays last. *)
Lemma sort_insert_last x l n :
  num_pos (cmp x n) = false ->
  sort_insert cmp x (l ++ [n]) = sort_insert cmp x l ++ [n].
Proof.
  intros H. induction l as [|y l IH]; simpl.
  - rewrite H. reflexivity.
  - destruct (num_pos (cmp x y)); [rewrite IH|]; reflexivity.
Qed.

Lemma sort_last l n :
  (forall x, In x l -> num_pos (cmp x n) = false) ->
  sort cmp (l ++ [n]) = sort cmp l ++ [n].
Proof.
  induction l as [|x l IH]; intros H; simpl; [reflexivity|].
  rewrite IH by (intros y Hy; apply H; right; exact Hy).
  apply sort_insert_last. apply H. left. reflexivity.
Qed.
End SortOrder.

Lemma StronglySorted_nth {A} (R : A -> A -> Prop) (l : list A) :
  StronglySorted R l ->
  forall i j a b, (i < j)%nat ->
    nth_error l i = Some a -> nth_error l j = Some b -> R a b.
Proof.
  induction 1 as [|x l Hs IH Hx]; intros i j a b Hij Ha Hb.
  - destruct i; discriminate Ha.
  - destruct j as [|j]; [lia|]. simpl in Hb. destruct i as [|i].
    + simpl in Ha. inversion Ha; subst a.
      rewrite Forall_forall in Hx. apply Hx. eapply nth_error_In. exact Hb.
    + simpl in Ha. apply (IH i j); [lia | exact Ha | exact Hb].
Qed.

(** X19. [wrapFilterResults] returns the items and the navigation item,
    each once. When the dates are all valid the result is newest first.
    The navigation item that [createNavigationItem] makes is dated at the
    epoch: where no item is dated before the epoch it comes last, after
    the items in the order of [sortByDateDescending], also after items
    dated at the epoch themselves. *)
Theorem wrapFilterResults_order (items : list filter_item)
    (navigationItem : filter_item) :
  Permutation (wrapFilterResults items navigationItem) (items ++ [navigationItem]) /\
  ((forall it, In it (items ++ [navigationItem]) -> fi_date it <> None) ->
   NewestFirst (wrapFilterResults items navigationItem)) /\
  (forall title subtitle arg iconPath source uid,
     navigationItem = createNavigationItem title subtitle arg iconPath source uid ->
     (forall it, In it items -> exists z, fi_date it = Some z /\ 0 <= z) ->
     wrapFilterResults items navigationItem
     = sortByDateDescending items ++ [navigationItem]).
Proof.
  unfold wrapFilterResults, sortByDateDescending.
  set (cmp := fun a b : filter_item =>
                num_sub (timeValue (fi_date b)) (timeValue (fi_date a))).
  split; [apply sort_Permutation|]. split.
  - intros Hvalid.
    set (P := fun it : filter_item => exists z, fi_date it = Some z).
    assert (HP : Forall P (items ++ [navigationItem])).
    { apply Forall_forall. intros it Hit. specialize (Hvalid it Hit).
      unfold P. destruct (fi_date it) as [z|]; [exists z; reflexivity|congruence]. }
    assert (Hs : StronglySorted (fun a b => num_pos (cmp a b) = false)
                   (sort cmp (items ++ [navigationItem]))).
    { apply (@sort_sorted filter_item cmp P); [| |exact HP].
      - intros a b (x & Ex) (y & Ey). unfold cmp. rewrite Ex, Ey. simpl. lia.
      - intros a b c (x & Ex) (y & Ey) (v & Ev). unfold cmp.
        rewrite Ex, Ey, Ev. simpl. lia. }
    intros i j a b x y Hij Ha Hb Ex Ey.
    pose proof (StronglySorted_nth Hs Hij Ha Hb) as H.
    unfold cmp in H. rewrite Ex, Ey in H. simpl in H. lia.
  - intros title subtitle arg iconPath source uid -> Hdates.
    apply sort_last. intros it Hit. destruct (Hdates it Hit) as (z & Ez & Hz).
    unfold cmp. rewrite Ez. simpl. lia.
Qed.

(** Three results and the way back, wrapped: the way back is last, the
    error item dated at the epoch before it. *)
Example wrapFilterResults_sample :
  let item t d := {| fi_title := t; fi_subtitle := EmptyString; fi_arg := None;
                     fi_iconPath := None; fi_source := None;
                     fi_date := Some d; fi_uid := None |} in
  let back := createNavigationItem "Back" None None None None None in
  map fi_title
    (wrapFilterResults
       [item "old"%string 1600000000000; createErrorItem "failed" "offline" None None None None;
        item "new"%string 1700000000000] back)
  = ["new"; "old"; "failed"; "Back"]%string.
Proof. reflexivity. Qed.


(** ** Result filters: relative dates *)

Ltac div_facts e d :=
  pose proof (Z.div_mod e d ltac:(lia));
  pose proof (Z.mod_pos_bound e d ltac:(lia)).

Ltac decide_tests :=
  repeat match goal with
         | |- context [Z.eqb ?a ?b] => destruct (Z.eqb_spec a b); try lia
         | |- context [Z.ltb ?a ?b] => destruct (Z.ltb_spec a b); try lia
         | |- context [Z.leb ?a ?b] => destruct (Z.leb_spec a b); try lia
         end.

(** The branches of [formatRelativeDateAt] by the time elapsed. *)
Lemma formatRelativeDateAt_cases {L : DateLocale}
    (now t : Z) (includeTime : bool) :
  let e := now - t in
  let out := formatRelativeDateAt now (Some t) includeTime in
  (0 <= e < minutes 2 -> out = "just now"%string) /\
  (minutes 2 <= e < hours 1 ->
   out = String.append (numberToString (e / 60000)) " minutes ago" /\
   2 <= e / 60000 <= 59) /\
  (hours 1 <= e < hours 2 -> out = "1 hour ago"%string) /\
  (hours 2 <= e < hours 9 ->
   out = String.append (numberToString (e / 3600000)) " hours ago" /\
   2 <= e / 3600000 <= 8) /\
  (hours 9 <= e < days 1 ->
   out = String.append "Today" (timeOfDay t includeTime)) /\
  (days 1 <= e < days 2 ->
   out = String.append "Yesterday" (timeOfDay t includeTime)) /\
  (days 2 <= e < days 7 ->
   out = String.append (numberToString (e / 86400000))
           (String.append " days ago" (timeOfDay t includeTime)) /\
   2 <= e / 86400000 <= 6) /\
  (days 7 <= e < days 14 -> out = "1 week ago"%string) /\
  (days 14 <= e < days 30 ->
   out = String.append (numberToString (e / 86400000 / 7)) " weeks ago" /\
   2 <= e / 86400000 / 7 <= 4) /\
  (days 30 <= e < days 60 -> out = "1 month ago"%string) /\
  (days 60 <= e < days 365 ->
   out = String.append (numberToString (e / 86400000 / 30)) " months ago" /\
   2 <= e / 86400000 / 30 <= 12) /\
  (days 365 <= e -> out = toLocaleDateString t) /\
  (e < 0 ->
   out = String.append (numberToString (e / 86400000))
           (String.append " days ago" (timeOfDay t includeTime)) /\
   e / 86400000 <= -1) /\
  formatRelativeDateAt now None includeTime = "Invalid Date"%string.
Proof.
  cbv zeta. unfold formatRelativeDateAt, timeOfDay, minutes, hours, days.
  change (1000 * 60 * 60 * 24) with 86400000.
  change (1000 * 60 * 60) with 3600000.
  change (1000 * 60) with 60000.
  cbv zeta. set (e := now - t).
  div_facts e 86400000. div_facts e 3600000. div_facts e 60000.
  div_facts (e / 86400000) 7. div_facts (e / 86400000) 30.
  repeat match goal with |- _ /\ _ => split | |- _ -> _ => intros ? end.
  all: decide_tests.
  all: try (match goal with |- _ <= _ => lia end).
  all: try (match goal with |- ?a = ?a => exact eq_refl end).
  all: try (match goal with
            | |- String.append ?a ?b = String.append ?a ?c =>
                apply (f_equal (String.append a)); exact eq_refl
            end).
  all: match goal with
       | H : ?x = 1 |- context [numberToString ?x] => rewrite H
       end.
  all: exact eq_refl.
Qed.

(** X20. [formatRelativeDate] reads the clock once and does not throw. It
    tells the date by the time elapsed from the date to that reading, in whole
    units rounded down. Under two minutes: [just now]; under an hour: the
    minutes (2 to 59); under nine hours: the hours (singular for one);
    under a day: [Today]; under two days: [Yesterday]; under a week: the
    days (2 to 6); under thirty days: the weeks (1 to 4); under 365 days:
    the months of thirty days (1 to 12); from then on the date itself.
    [Today] and [Yesterday] go by the hours elapsed, not by the calendar.
    The time of day, when asked for, follows [Today], [Yesterday] and the
    days, and nothing else. A date in the future is told in days, with a
    negative count. An invalid date prints as such. *)
Theorem formatRelativeDate_ranges {L : DateLocale}
    (w : world) (t : Z) (includeTime : bool) :
  let e := clock w (clockReads w) - t in
  exists out w',
    formatRelativeDate (Some t) includeTime w = (Ret out, w') /\
    clockReads w' = S (clockReads w) /\
    (0 <= e < minutes 2 -> out = "just now"%string) /\
    (minutes 2 <= e < hours 1 ->
     out = String.append (numberToString (e / 60000)) " minutes ago" /\
     2 <= e / 60000 <= 59) /\
    (hours 1 <= e < hours 2 -> out = "1 hour ago"%string) /\
    (hours 2 <= e < hours 9 ->
     out = String.append (numberToString (e / 3600000)) " hours ago" /\
     2 <= e / 3600000 <= 8) /\
    (hours 9 <= e < days 1 ->
     out = String.append "Today" (timeOfDay t includeTime)) /\
    (days 1 <= e < days 2 ->
     out = String.append "Yesterday" (timeOfDay t includeTime)) /\
    (days 2 <= e < days 7 ->
     out = String.append (numberToString (e / 86400000))
             (String.append " days ago" (timeOfDay t includeTime)) /\
     2 <= e / 86400000 <= 6) /\
    (days 7 <= e < days 14 -> out = "1 week ago"%string) /\
    (days 14 <= e < days 30 ->
     out = String.append (numberToString (e / 86400000 / 7)) " weeks ago" /\
     2 <= e / 86400000 / 7 <= 4) /\
    (days 30 <= e < days 60 -> out = "1 month ago"%string) /\
    (days 60 <= e < days 365 ->
     out = String.append (numberToString (e / 86400000 / 30)) " months ago" /\
     2 <= e / 86400000 / 30 <= 12) /\
    (days 365 <= e -> out = toLocaleDateString t) /\
    (e < 0 ->
     out = String.append (numberToString (e / 86400000))
             (String.append " days ago" (timeOfDay t includeTime)) /\
     e / 86400000 <= -1) /\
    (exists w'', formatRelativeDate None includeTime w
                 = (Ret "Invalid Date"%string, w'')).
Proof.
  cbv zeta. eexists _, _. split; [reflexivity|]. split; [reflexivity|].
  pose proof (formatRelativeDateAt_cases (clock w (clockReads w)) t includeTime) as H.
  cbv zeta in H.
  destruct H as (H1 & H2 & H3 & H4 & H5 & H6 & H7 & H8 & H9 & H10 & H11 & H12 & H13 & _).
  repeat (split; [assumption|]).
  eexists. reflexivity.
Qed.

(** At noon of a day in 2023: a date ten hours before, and a date one day
    ahead. *)
Example formatRelativeDate_sample :
  let now := 1700049600000 in
  formatRelativeDateAt (L := sampleLocale) now (Some (now - hours 10)) true
    = "Today @ 120"%string /\
  formatRelativeDateAt (L := sampleLocale) now (Some (now + days 1)) false
    = "-1 days ago"%string /\
  formatRelativeDateAt (L := sampleLocale) now (Some (now - days 364)) false
    = "12 months ago"%string.
Proof. repeat split. Qed.


(** ** The command *)

Section CommandFacts.
Context {J : JSONCodec} {C : Collator}.
Variable createLinearIssueCacheAsync : option string -> world -> world.
Variable filterCacheAsync : world -> world.
Variable linearToken : string.
Variable dryRun : bool.

Lemma main_missing_input (s : shell) :
  truthy (argv2 s) = false ->
  main createLinearIssueCacheAsync filterCacheAsync linearToken dryRun s
  = (Ret tt,
             set_stdout (stdout s ++ [Text "Please provide an issue title"])
               (set_stderr (stderr s ++ [Text "Missing required input"]) s)).
Proof.
  intros H. unfold main, try_s, bind_s, console_error, console_log. rewrite H.
  reflexivity.
Qed.

Lemma main_workflow_throws (s : shell) input e w' :
  argv2 s = Some input -> truthy input = true ->
  processWorkflow createLinearIssueCacheAsync input (Some linearToken) (host s)
    = (Throw e, w') ->
  main createLinearIssueCacheAsync filterCacheAsync linearToken dryRun s
  = (Ret tt, unexpected e (set_host w' s)).
Proof.
  intros Ha Ht Hw. unfold main, try_s, bind_s, lift. rewrite Ha.
  change (truthy (Some input)) with (truthy input). rewrite Ht.
  cbn [negb or_else]. rewrite Ht, Hw. reflexivity.
Qed.

Lemma main_metadata_error (s : shell) input err w' :
  argv2 s = Some input -> truthy input = true ->
  processWorkflow createLinearIssueCacheAsync input (Some linearToken) (host s)
    = (Ret (inl err), w') ->
  main createLinearIssueCacheAsync filterCacheAsync linearToken dryRun s
  = (Ret tt, set_stderr (stderr s ++ [Text err]) (set_host w' s)).
Proof.
  intros Ha Ht Hw. unfold main, try_s, bind_s, lift. rewrite Ha.
  change (truthy (Some input)) with (truthy input). rewrite Ht.
  cbn [negb or_else]. rewrite Ht, Hw. reflexivity.
Qed.

Lemma main_invalid_title (s : shell) input wf w' :
  argv2 s = Some input -> truthy input = true ->
  processWorkflow createLinearIssueCacheAsync input (Some linearToken) (host s)
    = (Ret (inr wf), w') ->
  valid (w_titleValidation wf) = false ->
  main createLinearIssueCacheAsync filterCacheAsync linearToken dryRun s
  = (Ret tt,
             set_stdout
               (stdout s ++ [match message (w_titleValidation wf) with
                             | Some m => Text m
                             | None => Undefined
                             end])
               (set_host w' s)).
Proof.
  intros Ha Ht Hw Hv. unfold main, try_s, bind_s, lift. rewrite Ha.
  change (truthy (Some input)) with (truthy input). rewrite Ht.
  cbn [negb or_else]. rewrite Ht, Hw, Hv. reflexivity.
Qed.

Lemma main_write_throws (s : shell) input wf w' e w'' :
  argv2 s = Some input -> truthy input = true ->
  processWorkflow createLinearIssueCacheAsync input (Some linearToken) (host s)
    = (Ret (inr wf), w') ->
  valid (w_titleValidation wf) = true ->
  main_writePrefs wf dryRun w' = (Throw e, w'') ->
  main createLinearIssueCacheAsync filterCacheAsync linearToken dryRun s
  = (Ret tt, unexpected e (set_host w'' s)).
Proof.
  intros Ha Ht Hw Hv Hp. unfold main, try_s, bind_s, lift. rewrite Ha.
  change (truthy (Some input)) with (truthy input). rewrite Ht.
  cbn [negb or_else]. rewrite Ht, Hw, Hv. cbn [negb host set_host].
  rewrite Hp. reflexivity.
Qed.

Lemma main_mutation (s : shell) input wf w' q w'' :
  argv2 s = Some input -> truthy input = true ->
  processWorkflow createLinearIssueCacheAsync input (Some linearToken) (host s)
    = (Ret (inr wf), w') ->
  valid (w_titleValidation wf) = true ->
  main_writePrefs wf dryRun w' = (Ret q, w'') ->
  main createLinearIssueCacheAsync filterCacheAsync linearToken dryRun s =
  (Ret tt,
   reported (createIssue filterCacheAsync dryRun (mutationOf wf) (set_host w'' s))).
Proof.
  intros Ha Ht Hw Hv Hp. unfold main, try_s, bind_s, lift. rewrite Ha.
  change (truthy (Some input)) with (truthy input). rewrite Ht.
  cbn [negb or_else]. rewrite Ht, Hw, Hv. cbn [negb].
  change (host (set_host w' s)) with w'. rewrite Hp.
  change (set_host w'' (set_host w' s)) with (set_host w'' s).
  unfold createIssue, mutationOf, reported.
  cbn [in_teamId in_projectId in_assigneeId in_priority in_title].
  match goal with
  | |- context [createIssueMutation ?f ?d ?a ?b ?c ?p ?t ?s0] =>
      destruct (createIssueMutation f d a b c p t s0) as [[[[id|]|]|e] s2]
  end;
    unfold console_log_value, console_log, console_error, throw_s, failed;
    reflexivity.
Qed.

(** [createIssueMutation] in a dry run. *)
Lemma createIssueMutation_dry (s : shell) t p a pr ti :
  dryRun = true ->
  createIssueMutation filterCacheAsync dryRun t p a pr ti s =
  (Throw undefinedStatusText,
   set_stderr (stderr s ++ [ResponseObject None])
     (set_host (filterCacheAsync (host s))
        (set_stdout
           (stdout s ++ [Echo (slice4 t) (slice4 p) (slice4 a) pr ti;
                         Request {| in_teamId := t; in_projectId := p;
                                    in_assigneeId := a; in_priority := pr;
                                    in_title := ti |}]) s))).
Proof.
  intros ->. destruct s as [w av so se api mu].
  unfold createIssueMutation, bind_s, try_s, throw_s, ret_s, lift, fireAndForget,
    console_log, console_error, set_stdout, set_stderr, set_host.
  cbn [host argv2 stdout stderr issueApi mutations]. rewrite <- app_assoc.
  reflexivity.
Qed.

Lemma createIssueMutation_sent (s : shell) t p a pr ti :
  dryRun = false ->
  let input := {| in_teamId := t; in_projectId := p; in_assigneeId := a;
                  in_priority := pr; in_title := ti |} in
  createIssueMutation filterCacheAsync dryRun t p a pr ti s =
  match issueApi s input with
  | Throw e => (Throw e, set_mutations (mutations s ++ [input]) s)
  | Ret r =>
      answered r (set_host (filterCacheAsync (host s))
                    (set_mutations (mutations s ++ [input]) s))
  end.
Proof.
  intros ->. cbv zeta. destruct s as [w av so se api mu].
  unfold createIssueMutation, answered, bind_s, try_s, throw_s, ret_s, lift,
    fireAndForget, fetch_issue, console_log, console_error, set_stdout,
    set_stderr, set_host, set_mutations.
  cbn [host argv2 stdout stderr issueApi mutations].
  destruct (api _) as [[o st js]|e]; [|reflexivity].
  cbn [r_ok r_statusText r_json]. destruct o; cbn [negb].
  - destruct js as [[[errs iss]|]|e]; try reflexivity.
    cbn [b_errors b_issue]. destruct errs as [[|m ms]|]; try reflexivity.
    destruct iss; reflexivity.
  - destruct js as [b|e];
      cbn [host argv2 stdout stderr issueApi mutations r_ok r_statusText r_json];
      rewrite <- ?app_assoc; reflexivity.
Qed.
End CommandFacts.

(** A workflow that [processWorkflow] returns is the workflow of the input
    on some metadata. *)
Lemma processWorkflow_inr {J : JSONCodec} {C : Collator}
    (refresh : option string -> world -> world) input token w wf w' :
  processWorkflow refresh input token w = (Ret (inr wf), w') ->
  exists metadata, wf = processWorkflowWith input metadata.
Proof.
  unfold processWorkflow, bind.
  destruct (getUnifiedMetadata refresh token w) as [[m|e] w1]; [|discriminate].
  destruct (error m) as [msg|]; [destruct (truthy msg)|]; unfold ret; intros H;
    inversion H; eauto.
Qed.

Lemma reported_dry (filter : world -> world) (i : issue_input) (s : shell) :
  let s' := reported (createIssue filter true i s) in
  stdout s' = stdout s ++ [Echo (slice4 (in_teamId i)) (slice4 (in_projectId i))
                                (slice4 (in_assigneeId i)) (in_priority i) (in_title i);
                           Request i;
                           Text "Failed to create the issue."] /\
  stderr s' = stderr s ++ [ResponseObject None; ErrorObject undefinedStatusText] /\
  mutations s' = mutations s /\ host s' = filter (host s) /\ argv2 s' = argv2 s.
Proof.
  cbv zeta. unfold createIssue.
  rewrite (@createIssueMutation_dry filter true s _ _ _ _ _ eq_refl).
  destruct i as [t p a pr ti]. destruct s as [w av so se api mu].
  unfold reported, failed, set_stdout, set_stderr, set_host.
  cbn [host argv2 stdout stderr issueApi mutations
       in_teamId in_projectId in_assigneeId in_priority in_title].
  rewrite <- !app_assoc. repeat split.
Qed.

Lemma answered_frame (r : issue_response) (s : shell) :
  mutations (snd (answered r s)) = mutations s /\
  host (snd (answered r s)) = host s /\ argv2 (snd (answered r s)) = argv2 s /\
  exists l, stdout (snd (answered r s)) = stdout s ++ l.
Proof.
  unfold answered. destruct (negb (r_ok r)).
  - repeat split. exists []. cbn. rewrite app_nil_r. reflexivity.
  - destruct (r_json r) as [[[errs iss]|]|e]; cbn [b_errors b_issue];
      try (repeat split; exists []; cbn; rewrite app_nil_r; reflexivity).
    destruct errs as [[|m ms]|];
      try (repeat split; exists []; cbn; rewrite app_nil_r; reflexivity).
    + repeat split. eexists. reflexivity.
    + destruct iss; repeat split; exists []; cbn; rewrite app_nil_r; reflexivity.
Qed.

Lemma reported_frame (r : outcome issue_value * shell) :
  mutations (reported r) = mutations (snd r) /\
  host (reported r) = host (snd r) /\ argv2 (reported r) = argv2 (snd r) /\
  exists l, stdout (reported r) = stdout (snd r) ++ l.
Proof.
  destruct r as [[[[id|]|]|e] s]; cbn; repeat split; eexists; reflexivity.
Qed.

Lemma reported_sent (filter : world -> world) (i : issue_input) (s : shell) :
  let s' := reported (createIssue filter false i s) in
  mutations s' = mutations s ++ [i] /\ argv2 s' = argv2 s /\
  exists l, stdout s' = stdout s ++ l.
Proof.
  cbv zeta. unfold createIssue.
  pose proof (@createIssueMutation_sent filter false s (in_teamId i)
                (in_projectId i) (in_assigneeId i) (in_priority i) (in_title i)
                eq_refl) as H.
  cbv zeta in H. rewrite H. clear H.
  assert (Ei : {| in_teamId := in_teamId i; in_projectId := in_projectId i;
                  in_assigneeId := in_assigneeId i; in_priority := in_priority i;
                  in_title := in_title i |} = i) by (destruct i; reflexivity).
  rewrite Ei.
  destruct (issueApi s i) as [r|e].
  - destruct (reported_frame
                (answered r (set_host (filter (host s))
                               (set_mutations (mutations s ++ [i]) s))))
      as (Hm & _ & Ha & (l & Hl)).
    destruct (answered_frame r (set_host (filter (host s))
                                  (set_mutations (mutations s ++ [i]) s)))
      as (Hm' & _ & Ha' & (l' & Hl')).
    rewrite Hm, Hm', Ha, Ha', Hl, Hl'. cbn [mutations argv2 stdout set_host set_mutations].
    repeat split. exists (l' ++ l). rewrite app_assoc. reflexivity.
  - cbn. repeat split. eexists. reflexivity.
Qed.

(** X21. [main] never throws, whatever the host does: every run returns.
    A run sends at most one mutation, and none in a dry run; the issue of
    a mutation sent has a title that [validateTitle] accepts. What was on
    the standard output stays there. *)
Theorem main_always_returns {J : JSONCodec} {C : Collator}
    (createLinearIssueCacheAsync : option string -> world -> world)
    (filterCacheAsync : world -> world) (linearToken : string) (dryRun : bool)
    (s : shell) :
  exists s',
    main createLinearIssueCacheAsync filterCacheAsync linearToken dryRun s
      = (Ret tt, s') /\
    argv2 s' = argv2 s /\
    (exists l, stdout s' = stdout s ++ l) /\
    (mutations s' = mutations s \/
     dryRun = false /\
     exists i, mutations s' = mutations s ++ [i] /\
               valid (validateTitle (in_title i)) = true).
Proof.
  destruct (truthy (argv2 s)) eqn:Ea.
  2:{ eexists. split; [apply main_missing_input; exact Ea|].
      split; [reflexivity|]. split; [eexists; reflexivity | left; reflexivity]. }
  destruct (argv2 s) as [input|] eqn:Ei; [|discriminate Ea].
  change (truthy (Some input)) with (truthy input) in Ea.
  destruct (processWorkflow createLinearIssueCacheAsync input (Some linearToken)
              (host s)) as [[[err|wf]|e] w'] eqn:Ew.
  - eexists. split; [eapply main_metadata_error; eassumption|].
    split; [exact Ei|]. split; [exists []; cbn; rewrite app_nil_r; reflexivity|].
    left. reflexivity.
  - destruct (valid (w_titleValidation wf)) eqn:Ev.
    + destruct (main_writePrefs wf dryRun w') as [[q|e] w''] eqn:Ep.
      * eexists. split; [eapply main_mutation; eassumption|].
        destruct dryRun.
        -- destruct (reported_dry filterCacheAsync (mutationOf wf) (set_host w'' s))
             as (Ho & _ & Hm & _ & Hv).
           cbv zeta in *. split; [rewrite Hv; exact Ei|].
           split; [rewrite Ho; eexists; reflexivity|]. left. rewrite Hm. reflexivity.
        -- destruct (reported_sent filterCacheAsync (mutationOf wf) (set_host w'' s))
             as (Hm & Hv & (l & Hl)).
           cbv zeta in *. split; [rewrite Hv; exact Ei|].
           split; [rewrite Hl; exists l; reflexivity|]. right.
           split; [reflexivity|]. exists (mutationOf wf). split; [exact Hm|].
           destruct (processWorkflow_inr _ _ _ _ Ew) as (m & ->).
           exact Ev.
      * eexists. split; [eapply main_write_throws; eassumption|].
        split; [exact Ei|]. split; [eexists; reflexivity | left; reflexivity].
    + eexists. split; [eapply main_invalid_title; eassumption|].
      split; [exact Ei|]. split; [eexists; reflexivity | left; reflexivity].
  - eexists. split; [eapply main_workflow_throws; eassumption|].
    split; [exact Ei|]. split; [eexists; reflexivity | left; reflexivity].
Qed.

Lemma validateTitle_invalid_message (title : string) :
  valid (validateTitle title) = false ->
  message (validateTitle title) = Some "Please provide a title"%string \/
  message (validateTitle title)
  = Some "Please provide a more descriptive title with multiple words"%string.
Proof.
  unfold validateTitle. destruct (negb (truthy title)); [left; reflexivity|].
  destruct (_ =? 1); [right; reflexivity | discriminate].
Qed.

(** X22. What [main] refuses, it refuses without a trace but the message.
    Without an input it prints [Please provide an issue title] and touches
    nothing else, the host of the store included. With metadata that carry
    an error it puts the error on the error stream and nothing on the
    standard output. With a title that [validateTitle] refuses it prints
    the message of the validation. In the last two cases the host is as
    [processWorkflow] left it: no preferences are written, and no mutation
    is sent. *)
Theorem main_refuses {J : JSONCodec} {C : Collator}
    (createLinearIssueCacheAsync : option string -> world -> world)
    (filterCacheAsync : world -> world) (linearToken : string) (dryRun : bool)
    (s : shell) :
  (truthy (argv2 s) = false ->
   main createLinearIssueCacheAsync filterCacheAsync linearToken dryRun s
   = (Ret tt,
      set_stdout (stdout s ++ [Text "Please provide an issue title"])
        (set_stderr (stderr s ++ [Text "Missing required input"]) s))) /\
  (forall input err w',
     argv2 s = Some input -> truthy input = true ->
     processWorkflow createLinearIssueCacheAsync input (Some linearToken) (host s)
       = (Ret (inl err), w') ->
     main createLinearIssueCacheAsync filterCacheAsync linearToken dryRun s
     = (Ret tt, set_stderr (stderr s ++ [Text err]) (set_host w' s))) /\
  (forall input wf w',
     argv2 s = Some input -> truthy input = true ->
     processWorkflow createLinearIssueCacheAsync input (Some linearToken) (host s)
       = (Ret (inr wf), w') ->
     valid (w_titleValidation wf) = false ->
     exists m,
       (m = "Please provide a title"%string \/
        m = "Please provide a more descriptive title with multiple words"%string) /\
       main createLinearIssueCacheAsync filterCacheAsync linearToken dryRun s
       = (Ret tt, set_stdout (stdout s ++ [Text m]) (set_host w' s))).
Proof.
  split; [apply main_missing_input|]. split.
  - intros input err w'. apply main_metadata_error.
  - intros input wf w' Ha Ht Hw Hv.
    pose proof (@main_invalid_title J C createLinearIssueCacheAsync filterCacheAsync
                linearToken dryRun s input wf w' Ha Ht Hw Hv) as Hm.
    destruct (processWorkflow_inr _ _ _ _ Hw) as (metadata & ->).
    change (w_titleValidation (processWorkflowWith input metadata))
      with (validateTitle (w_title (processWorkflowWith input metadata))) in *.
    destruct (validateTitle_invalid_message _ Hv) as [E|E]; rewrite E in Hm;
      eexists; (split; [|exact Hm]); [left | right]; reflexivity.
Qed.

(** X23. A dry run goes all the way to the mutation and then fails: with
    an input whose title is valid, where the preferences can be written,
    [main] writes the preferences of the run (indented), prints the
    arguments and the request instead of sending it, and then prints
    [Failed to create the issue.], because the answer it goes on with is
    that of [console.log], which is [undefined]. No mutation is sent. *)
Theorem main_dry_run {J : JSONCodec} {C : Collator}
    (createLinearIssueCacheAsync : option string -> world -> world)
    (filterCacheAsync : world -> world) (linearToken : string)
    (s : shell) (input : string) (wf : workflow) (w' w'' : world) (q : prefs) :
  argv2 s = Some input -> truthy input = true ->
  processWorkflow createLinearIssueCacheAsync input (Some linearToken) (host s)
    = (Ret (inr wf), w') ->
  valid (w_titleValidation wf) = true ->
  main_writePrefs wf true w' = (Ret q, w'') ->
  exists s',
    main createLinearIssueCacheAsync filterCacheAsync linearToken true s
      = (Ret tt, s') /\
    stdout s' = stdout s ++
                [Echo (slice4 (in_teamId (mutationOf wf)))
                      (slice4 (in_projectId (mutationOf wf)))
                      (slice4 (in_assigneeId (mutationOf wf)))
                      (in_priority (mutationOf wf)) (w_title wf);
                 Request (mutationOf wf);
                 Text "Failed to create the issue."] /\
    stderr s' = stderr s ++ [ResponseObject None; ErrorObject undefinedStatusText] /\
    mutations s' = mutations s /\
    host s' = filterCacheAsync w'' /\
    cacheFile w'' = Ret (JSON_stringify q (Some 2)).
Proof.
  intros Ha Ht Hw Hv Hp.
  eexists. split; [eapply main_mutation; eassumption|].
  destruct (reported_dry filterCacheAsync (mutationOf wf) (set_host w'' s))
    as (Ho & He & Hm & Hh & _).
  cbv zeta in *. split; [exact Ho|]. split; [exact He|]. split; [exact Hm|].
  split; [exact Hh|].
  unfold main_writePrefs in Hp.
  pose proof (writePrefs_returns_Writable _ _ _ Hp) as HW.
  rewrite (writePrefs_run _ true HW) in Hp. inversion Hp. reflexivity.
Qed.

Lemma main_dry_run_witness :
  exists s',
    main (J := sampleCodec previousPrefs) (C := codeUnitCollator)
         (fun _ w => w) (fun w => w) "lin_api_key" true
         (sampleShell (fun _ => Throw "not reached"%string))
      = (Ret tt, s') /\
    stdout s' = [Echo (Some "team"%string) None (Some "user"%string) 2
                      "fix the login bug";
                 Request {| in_teamId := Some "team-A"%string; in_projectId := None;
                            in_assigneeId := Some "user-1"%string;
                            in_priority := 2; in_title := "fix the login bug" |};
                 Text "Failed to create the issue."] /\
    mutations s' = [].
Proof.
  set (s := sampleShell (fun _ => Throw "not reached"%string)).
  set (wf := processWorkflowWith (C := codeUnitCollator) loginBugInput
               (ensureArrays previousPrefs)).
  set (w' := quietWorld (Ret previousText)).
  set (run := main_writePrefs (J := sampleCodec previousPrefs) wf true w').
  assert (Hp : run = (Ret (stamped (explicitPrefs (w_metadata wf)
                                      (w_explicitChoices wf)) w'), snd run))
    by (vm_compute; reflexivity).
  destruct (@main_dry_run (sampleCodec previousPrefs) codeUnitCollator
              (fun _ w => w) (fun w => w) "lin_api_key" s loginBugInput wf w'
              (snd run) _ eq_refl eq_refl eq_refl eq_refl Hp)
    as (s' & Hmain & Ho & _ & Hm & _).
  exists s'. split; [exact Hmain|]. split; [exact Ho | exact Hm].
Defined.

(** X24. A run that is not dry writes the preferences before it sends the
    mutation, and sends the final references with [null] for what is
    unset and 0 for no priority. If the request fails the preferences stay
    written and [Failed to create the issue.] is printed: at once when
    there is no answer; after the refresh of the filter cache when the
    answer is not [ok]; with the first message of [errors] before it when
    the answer carries errors. When the answer carries the issue, its
    identifier is printed. *)
Theorem main_sends_after_write {J : JSONCodec} {C : Collator}
    (createLinearIssueCacheAsync : option string -> world -> world)
    (filterCacheAsync : world -> world) (linearToken : string)
    (s : shell) (input : string) (wf : workflow) (w' w'' : world) (q : prefs) :
  argv2 s = Some input -> truthy input = true ->
  processWorkflow createLinearIssueCacheAsync input (Some linearToken) (host s)
    = (Ret (inr wf), w') ->
  valid (w_titleValidation wf) = true ->
  main_writePrefs wf false w' = (Ret q, w'') ->
  let run := main createLinearIssueCacheAsync filterCacheAsync linearToken false s in
  let sent := set_mutations (mutations s ++ [mutationOf wf]) (set_host w'' s) in
  let refreshed := set_host (filterCacheAsync w'') sent in
  cacheFile w'' = Ret (JSON_stringify q None) /\
  (forall e, issueApi s (mutationOf wf) = Throw e ->
     run = (Ret tt, failed e sent)) /\
  (forall r, issueApi s (mutationOf wf) = Ret r -> r_ok r = false ->
     exists s', run = (Ret tt, s') /\
       stdout s' = stdout s ++ [Text "Failed to create the issue."] /\
       mutations s' = mutations s ++ [mutationOf wf] /\
       host s' = filterCacheAsync w'') /\
  (forall r body m ms, issueApi s (mutationOf wf) = Ret r -> r_ok r = true ->
     r_json r = Ret (Some body) -> b_errors body = Some (m :: ms) ->
     run = (Ret tt,
            failed m
              (set_stdout (stdout s ++ [Text (String.append "GraphQL Error: " m)])
                 refreshed))) /\
  (forall r body identifier, issueApi s (mutationOf wf) = Ret r -> r_ok r = true ->
     r_json r = Ret (Some body) -> b_errors body = None ->
     b_issue body = Ret (Some (Some identifier)) ->
     run = (Ret tt, set_stdout (stdout s ++ [Text identifier]) refreshed)).
Proof.
  intros Ha Ht Hw Hv Hp. cbv zeta.
  rewrite (@main_mutation J C createLinearIssueCacheAsync filterCacheAsync
             linearToken false s input wf w' q w'' Ha Ht Hw Hv Hp).
  unfold createIssue.
  pose proof (@createIssueMutation_sent filterCacheAsync false (set_host w'' s)
                (in_teamId (mutationOf wf)) (in_projectId (mutationOf wf))
                (in_assigneeId (mutationOf wf)) (in_priority (mutationOf wf))
                (in_title (mutationOf wf)) eq_refl) as H.
  cbv zeta in H. rewrite H. clear H.
  assert (Ei : {| in_teamId := in_teamId (mutationOf wf);
                  in_projectId := in_projectId (mutationOf wf);
                  in_assigneeId := in_assigneeId (mutationOf wf);
                  in_priority := in_priority (mutationOf wf);
                  in_title := in_title (mutationOf wf) |} = mutationOf wf)
    by reflexivity.
  rewrite Ei. clear Ei.
  change (issueApi (set_host w'' s)) with (issueApi s).
  change (mutations (set_host w'' s)) with (mutations s).
  change (host (set_host w'' s)) with w''.
  split.
  { unfold main_writePrefs in Hp.
    pose proof (writePrefs_returns_Writable _ _ _ Hp) as HW.
    rewrite (writePrefs_run _ false HW) in Hp. inversion Hp. reflexivity. }
  split; [intros e He; rewrite He; reflexivity|].
  split; [|split].
  - intros r Hr Hok. rewrite Hr. unfold answered. rewrite Hok. cbn [negb].
    eexists. split; [reflexivity|]. cbn. repeat split.
  - intros r body m ms Hr Hok Hj He. rewrite Hr. unfold answered.
    rewrite Hok, Hj, He. reflexivity.
  - intros r body identifier Hr Hok Hj He Hi. rewrite Hr. unfold answered.
    rewrite Hok, Hj, He, Hi. reflexivity.
Qed.

Lemma main_sends_after_write_witness :
  exists s',
    main (J := sampleCodec previousPrefs) (C := codeUnitCollator)
         (fun _ w => w) (fun w => w) "lin_api_key" false (sampleShell createsIssue)
      = (Ret tt, s') /\
    stdout s' = [Text "COR-7"] /\
    mutations s' = [{| in_teamId := Some "team-A"%string; in_projectId := None;
                       in_assigneeId := Some "user-1"%string;
                       in_priority := 2; in_title := "fix the login bug" |}].
Proof.
  set (s := sampleShell createsIssue).
  set (wf := processWorkflowWith (C := codeUnitCollator) loginBugInput
               (ensureArrays previousPrefs)).
  set (w' := quietWorld (Ret previousText)).
  set (run := main_writePrefs (J := sampleCodec previousPrefs) wf false w').
  assert (Hp : run = (Ret (stamped (explicitPrefs (w_metadata wf)
                                      (w_explicitChoices wf)) w'), snd run))
    by (vm_compute; reflexivity).
  destruct (@main_sends_after_write (sampleCodec previousPrefs) codeUnitCollator
              (fun _ w => w) (fun w => w) "lin_api_key" s loginBugInput wf w'
              (snd run) _ eq_refl eq_refl eq_refl eq_refl Hp)
    as (_ & _ & _ & _ & Hok).
  eexists. split; [eapply Hok; reflexivity|]. split; reflexivity.
Defined.

(** ** Result filters: the subtitle *)

(** X25. The parts of a subtitle, which [formatSubtitle] joins with blanks
    after dropping the empty and the missing ones. Without additional
    information they are the arrow, the user, a bullet and the relative
    date. Additional information goes between the user and the bullet
    together with a bullet of its own, which so comes to stand directly
    before the other: the user and the information are not separated, and
    two bullets precede the date. *)
Theorem formatSubtitle_parts {L : DateLocale} (arrow bullet : string)
    (user : option string) (date : option Z) (additionalInfo : list string)
    (includeTime : bool) (w : world) :
  exists relativeDate w',
    formatRelativeDate date includeTime w = (Ret relativeDate, w') /\
    formatSubtitle arrow bullet user date additionalInfo includeTime w
    = (Ret (JS.join " "
              (filterBoolean
                 (match additionalInfo with
                  | [] => [Some arrow; user; Some bullet; Some relativeDate]
                  | _ => Some arrow :: user :: map Some additionalInfo
                         ++ [Some bullet; Some bullet; Some relativeDate]
                  end))), w').
Proof.
  eexists _, _. split; [reflexivity|].
  unfold formatSubtitle, formatRelativeDate, bind, ret, Date_now, subtitleParts.
  destruct additionalInfo as [|i l]; [reflexivity|].
  assert (Hlen : (0 <? Z.of_nat (List.length (i :: l))) = true).
  { apply Z.ltb_lt. simpl List.length. lia. }
  rewrite Hlen. unfold spliceBeforeLastTwo.
  cbn [List.length Nat.sub firstn skipn app]. rewrite <- app_assoc. reflexivity.
Qed.

(** A subtitle with a label: the label follows the user, two bullets
    follow the label. *)
Example formatSubtitle_sample :
  fst (formatSubtitle (L := sampleLocale) "->" "*" (Some "uma"%string)
         (Some 1699999999000) ["bug"%string] false
         (quietWorld (Throw "ENOENT"%string)))
  = Ret "-> uma bug * * just now"%string.
Proof. reflexivity. Qed.
